(** * DependencyChecker: a shallow embedding of [src/index.js]

    The development follows the class [DependencyChecker]: the health
    score ([calculateHealthScore]), the lockfile walk ([findDuplicates]),
    the registry queries ([checkOutdated], [checkVulnerabilities]), the
    usage filter ([checkUnused]) and the fix orchestration ([fixIssues],
    [removeUnused]).  External collaborators (the depcheck library, the
    npm processes started by [execSync], [JSON.parse], the file system)
    are parameters of a section; the code's own control flow, exceptions
    and console output are modelled explicitly. *)

From Stdlib Require Import ZArith QArith Qround Lia.
From stdpp Require Import base strings gmap list pretty.
From Equations Require Import Equations.

Local Set Warnings "-register-all,-clear-no-such-hyp".
Local Open Scope string_scope.
Local Open Scope list_scope.
Local Open Scope Z_scope.

(** ** Numbers *)

(** [Math.round]: the nearest integer, ties towards plus infinity. *)
Definition Math_round (x : Q) : Z := Qfloor (x + (1 # 2))%Q.

Definition Math_min (a b : Z) : Z := Z.min a b.
Definition Math_max (a b : Z) : Z := Z.max a b.

(** ** Text *)

(** The double quote character. *)
Definition dq : string := String (Ascii.ascii_of_nat 34) EmptyString.

Definition quoted (s : string) : string := dq +:+ s +:+ dq.

(** ** Health score *)

Module Score.

(** The five totals [calculateHealthScore] reads from the report of
    [getProjectStats]; each is the [length] of an array there. *)
Record Stats := {
  unused_total : nat;
  missing_total : nat;
  outdated_total : nat;
  vulnerabilities_total : nat;
  duplicates_total : nat
}.

(** The three locals [score], [issues], [suggestions]. *)
Record Acc := {
  score : Z;
  issues : list string;
  suggestions : list string
}.

Record HealthScore := {
  hs_score : Z;
  hs_issues : list string;
  hs_suggestions : list string;
  hs_stats : Stats
}.

Definition count (n : nat) : Z := Z.of_nat n.

(** One [if (total > 0) { ... }] block of the source. *)
Definition deduct (total : nat) (cap weight : Z) (issue suggestion : string)
    (a : Acc) : Acc :=
  if 0 <? count total then
    let penalty := Math_min cap (count total * weight) in
    {| score := score a - penalty;
       issues := issues a ++ [pretty total +:+ issue];
       suggestions := suggestions a ++ [suggestion] |}
  else a.

Definition deductUnused (stats : Stats) : Acc -> Acc :=
  deduct (unused_total stats) 30 3 " unused dependencies"
    ("Run " +:+ quoted "dependency-cli fix --unused"
       +:+ " to remove unused packages").

Definition deductOutdated (stats : Stats) : Acc -> Acc :=
  deduct (outdated_total stats) 25 2 " outdated dependencies"
    ("Run " +:+ quoted "dependency-cli fix --outdated"
       +:+ " to update packages").

Definition deductVulnerabilities (stats : Stats) : Acc -> Acc :=
  deduct (vulnerabilities_total stats) 35 5 " security vulnerabilities"
    ("Run " +:+ quoted "dependency-cli fix --vulnerabilities"
       +:+ " to fix security issues").

Definition deductDuplicates (stats : Stats) : Acc -> Acc :=
  deduct (duplicates_total stats) 15 2 " duplicate packages"
    ("Run " +:+ quoted "dependency-cli fix --duplicates"
       +:+ " to dedupe packages").

Definition deductMissing (stats : Stats) : Acc -> Acc :=
  deduct (missing_total stats) 20 4 " missing dependencies"
    "Install missing dependencies manually".

(** The body of [calculateHealthScore] after [stats] has been awaited. *)
Definition calculateHealthScore (stats : Stats) : HealthScore :=
  let a := {| score := 100; issues := []; suggestions := [] |} in
  let a := deductUnused stats a in
  let a := deductOutdated stats a in
  let a := deductVulnerabilities stats a in
  let a := deductDuplicates stats a in
  let a := deductMissing stats a in
  {| hs_score := Math_max 0 (Math_round (inject_Z (score a)));
     hs_issues := issues a;
     hs_suggestions := suggestions a;
     hs_stats := stats |}.

(** The capped penalty of the specification's table. *)
Definition capped (cap weight : Z) (n : nat) : Z := Z.min cap (count n * weight).

Definition sum_capped (stats : Stats) : Z :=
  capped 30 3 (unused_total stats) + capped 25 2 (outdated_total stats)
  + capped 35 5 (vulnerabilities_total stats)
  + capped 15 2 (duplicates_total stats) + capped 20 4 (missing_total stats).

End Score.


(** ** JavaScript values and exceptions *)

(** A value as [JSON.parse] builds it.  The field list of an object is
    in the order [Object.entries] enumerates it. *)
Inductive json :=
| JNull
| JBool (b : bool)
| JNum (n : Z)
| JStr (s : string)
| JArr (items : list json)
| JObj (fields : list (string * json)).

(** A thrown error object: its [message] and, for an error of
    [execSync], the [stdout] the child process wrote before it failed
    ([None] when the property is absent). *)
Record JsError := {
  message : string;
  stdout : option string
}.

Definition Error (msg : string) : JsError := {| message := msg; stdout := None |}.

(** The result of evaluating a block: it returns or it throws. *)
Inductive Res (A : Type) :=
| Ok (a : A)
| Throw (e : JsError).
Arguments Ok {A} a.
Arguments Throw {A} e.

(** Truthiness, as [if (x)], [!x] and [x || y] test it. *)
Definition truthy_string (s : string) : bool :=
  match s with EmptyString => false | _ => true end.

Definition truthy (v : json) : bool :=
  match v with
  | JNull => false
  | JBool b => b
  | JNum n => negb (n =? 0)
  | JStr s => truthy_string s
  | JArr _ | JObj _ => true
  end.

(** An optional property: [None] is [undefined]. *)
Definition truthy_opt {A} (t : A -> bool) (o : option A) : bool :=
  match o with Some a => t a | None => false end.

Fixpoint assoc {A} (k : string) (l : list (string * A)) : option A :=
  match l with
  | [] => None
  | (k', v) :: l' => if decide (k' = k) then Some v else assoc k l'
  end.

Definition remove_key {A} (k : string) (l : list (string * A)) : list (string * A) :=
  filter (fun kv => kv.1 <> k) l.

(** [v.k] for a key that is neither an array index nor [length]: an
    own property of an object, [undefined] on the other values, a
    TypeError on [null]. *)
Definition get_prop (v : json) (k : string) : Res (option json) :=
  match v with
  | JNull => Throw (Error ("Cannot read properties of null (reading '" +:+ k +:+ "')"))
  | JObj fields => Ok (assoc k fields)
  | _ => Ok None
  end.

(** [delete v.k] followed by a use of [v], for such a key. *)
Definition delete_prop (v : json) (k : string) : Res json :=
  match v with
  | JNull => Throw (Error "Cannot convert undefined or null to object")
  | JObj fields => Ok (JObj (remove_key k fields))
  | _ => Ok v
  end.

(** [x || {}] on an optional property. *)
Definition or_empty (o : option json) : json :=
  match o with
  | Some v => if truthy v then v else JObj []
  | None => JObj []
  end.

(** [x || []] on an optional array of names. *)
Definition or_nil {A} (o : option (list A)) : list A :=
  match o with Some l => l | None => [] end.

(** [s.startsWith(p)] and [s.includes(p)]. *)
Definition startsWith (s p : string) : bool := String.prefix p s.

Fixpoint includes (s p : string) : bool :=
  String.prefix p s ||
  match s with
  | EmptyString => false
  | String _ s' => includes s' p
  end.

(** [l.slice(a, b)] for [a <= b]. *)
Definition slice {A} (l : list A) (a b : nat) : list A := take (b - a) (drop a l).

(** ** The lockfile walk of [findDuplicates] *)

Module Lock.

(** What [scanDeps] meets as the value of an entry: an object with an
    optional [version] and an optional nested [dependencies] object;
    or (in the [dependencies] of a [packages] entry) a version range
    string, which has neither property; or [null], on which reading a
    property throws. *)
Inductive Info :=
| InfoRange (range : string)
| InfoObj (version : option string) (dependencies : option (list (string * Info)))
| InfoNull.

(** The TypeError of [null.prop]. *)
Definition nullError (prop : string) : JsError :=
  Error ("Cannot read properties of null (reading '" +:+ prop +:+ "')").

Definition Deps := list (string * Info).

(** The parsed [package-lock.json]. *)
Record LockData := {
  packages : option Deps;
  dependencies : option Deps
}.

(** [versions]: a [Map] from name to [Set] of versions, both in
    insertion order. *)
Definition VersionMap := list (string * list string).

Definition Map_has (name : string) (m : VersionMap) : bool :=
  bool_decide (is_Some (assoc name m)).

Definition Map_get (name : string) (m : VersionMap) : option (list string) :=
  assoc name m.

(** [m.set(name, s)]: a present key keeps its position. *)
Fixpoint Map_set (name : string) (s : list string) (m : VersionMap) : VersionMap :=
  match m with
  | [] => [(name, s)]
  | (n, s') :: m' =>
      if decide (n = name) then (n, s) :: m' else (n, s') :: Map_set name s m'
  end.

Definition Set_add (v : string) (s : list string) : list string :=
  if bool_decide (v ∈ s) then s else s ++ [v].

(** The two variables the closure [scanDeps] updates. *)
Record ScanState := {
  versions : VersionMap;
  totalPackages : nat
}.

(** The [if (info.version) { ... }] block. *)
Definition record (name version : string) (st : ScanState) : ScanState :=
  let versions1 :=
    if Map_has name (versions st) then versions st
    else Map_set name [] (versions st) in
  let versions2 :=
    match Map_get name versions1 with
    | Some s => Map_set name (Set_add version s) versions1
    | None => versions1
    end in
  {| versions := versions2; totalPackages := S (totalPackages st) |}.

Definition record_occ (st : ScanState) (p : string * string) : ScanState :=
  record p.1 p.2 st.

(** The callback of [Object.entries(deps).forEach]: [info.version]
    throws on a [null] entry, and the error leaves the walk. *)
Fixpoint scanEntry (name : string) (info : Info) (st : ScanState) : Res ScanState :=
  match info with
  | InfoNull => Throw (nullError "version")
  | InfoRange _ => Ok st
  | InfoObj version dependencies =>
      let st1 :=
        match version with
        | Some v => if truthy_string v then record name v st else st
        | None => st
        end in
      match dependencies with
      | Some deps =>
          (fix forEach (entries : list (string * Info)) (st : ScanState)
             : Res ScanState :=
             match entries with
             | [] => Ok st
             | (n, i) :: entries' =>
                 match scanEntry n i st with
                 | Ok st' => forEach entries' st'
                 | Throw e => Throw e
                 end
             end) deps st1
      | None => Ok st1
      end
  end.

Fixpoint forEach (entries : Deps) (st : ScanState) : Res ScanState :=
  match entries with
  | [] => Ok st
  | e :: entries' =>
      match scanEntry e.1 e.2 st with
      | Ok st' => forEach entries' st'
      | Throw err => Throw err
      end
  end.

(** [scanDeps(deps)]; [None] is [undefined]. *)
Definition scanDeps (deps : option Deps) (st : ScanState) : Res ScanState :=
  match deps with
  | None => Ok st
  | Some entries => forEach entries st
  end.

Record DuplicateEntry := {
  name : string;
  dup_versions : list string;
  count : nat
}.

Definition duplicatesOf (m : VersionMap) : list DuplicateEntry :=
  map (fun e => {| name := e.1; dup_versions := e.2; count := length e.2 |})
      (filter (fun e => 1 < length e.2)%nat m).

(** The object [findDuplicates] returns; [dup_totalPackages = None]
    when the property is not set. *)
Record Duplicates := {
  duplicates : list DuplicateEntry;
  dup_totalPackages : option nat;
  lockFileExists : bool
}.

(** [lockData.packages || lockData.dependencies]. *)
Definition root (lockData : LockData) : option Deps :=
  match packages lockData with
  | Some p => Some p
  | None => dependencies lockData
  end.

(** The [try] block of [findDuplicates] once [lockData] is parsed to
    a value other than [null]. *)
Definition scanLock (lockData : LockData) : Res Duplicates :=
  match scanDeps (root lockData) {| versions := []; totalPackages := 0 |} with
  | Ok st =>
      Ok {| duplicates := duplicatesOf (versions st);
            dup_totalPackages := Some (totalPackages st);
            lockFileExists := true |}
  | Throw e => Throw e
  end.

(** The [(name, version)] occurrences in the order of the walk. *)
Fixpoint visitedEntry (name : string) (info : Info) : list (string * string) :=
  match info with
  | InfoNull => []
  | InfoRange _ => []
  | InfoObj version dependencies =>
      (match version with
       | Some v => if truthy_string v then [(name, v)] else []
       | None => []
       end ++
      match dependencies with
      | Some deps =>
          (fix visitedList (entries : list (string * Info)) : list (string * string) :=
             match entries with
             | [] => []
             | (n, i) :: entries' => (visitedEntry n i ++ visitedList entries')%list
             end) deps
      | None => []
      end)%list
  end.

Definition visited (entries : Deps) : list (string * string) :=
  flat_map (fun e => visitedEntry e.1 e.2) entries.

(** No entry of the tree is [null]. *)
Fixpoint null_free (info : Info) : bool :=
  match info with
  | InfoNull => false
  | InfoRange _ => true
  | InfoObj _ dependencies =>
      match dependencies with
      | Some deps =>
          (fix all (entries : list (string * Info)) : bool :=
             match entries with
             | [] => true
             | (_, i) :: entries' => null_free i && all entries'
             end) deps
      | None => true
      end
  end.

Definition null_free_deps (entries : Deps) : bool :=
  forallb (fun e => null_free e.2) entries.

(** [n] has an entry with the truthy version [v] in a tree: among its
    entries, or in the nested [dependencies] of one of them, at any
    depth. *)
Inductive occurs (n v : string) : Deps -> Prop :=
| occurs_here entries deps :
    (n, InfoObj (Some v) deps) ∈ entries -> truthy_string v = true ->
    occurs n v entries
| occurs_below entries m version sub :
    (m, InfoObj version (Some sub)) ∈ entries -> occurs n v sub ->
    occurs n v entries.

(** The specification of the report, in its words: the distinct
    elements of a sequence in the order of their first occurrence, the
    distinct versions recorded under a name, and one entry for each
    name with more than one of them. *)
Fixpoint distinct (l : list string) : list string :=
  match l with
  | [] => []
  | x :: l' => x :: filter (fun y => y <> x) (distinct l')
  end.

Definition versionsOf (n : string) (occ : list (string * string)) : list string :=
  distinct (map snd (filter (fun p => p.1 = n) occ)).

(** The map with one binding for every distinct name, in the order of
    first occurrence. *)
Definition tabulated (occ : list (string * string)) : VersionMap :=
  map (fun k => (k, versionsOf k occ)) (distinct (map fst occ)).

Definition duplicatesSpec (occ : list (string * string)) : list DuplicateEntry :=
  map (fun n => {| name := n; dup_versions := versionsOf n occ;
                   count := length (versionsOf n occ) |})
      (filter (fun n => 1 < length (versionsOf n occ))%nat
              (distinct (map fst occ))).

End Lock.

(** ** The outside world *)

(** The command lines the class passes to [execSync]. *)
Inductive Command :=
| NpmOutdatedJson
| NpmAuditJson
| NpmUninstall (batch : list string)
| NpmUpdate
| NpmAuditFix
| NpmDedupe.

(** [batch.join(sep)]. *)
Fixpoint join (sep : string) (l : list string) : string :=
  match l with
  | [] => ""
  | [x] => x
  | x :: l' => x +:+ sep +:+ join sep l'
  end.

Definition command_line (c : Command) : string :=
  match c with
  | NpmOutdatedJson => "npm outdated --json"
  | NpmAuditJson => "npm audit --json"
  | NpmUninstall batch => "npm uninstall " +:+ join " " batch
  | NpmUpdate => "npm update"
  | NpmAuditFix => "npm audit fix"
  | NpmDedupe => "npm dedupe"
  end.

(** [execSync] returns the standard output of a process that exits
    with status 0 and throws for any other outcome. *)
Inductive ExecOutcome :=
| Exited (out : string)
| Failed (e : JsError).

(** The object depcheck resolves to; an absent property is [None]. *)
Record DepcheckResult := {
  dc_dependencies : option (list string);
  dc_devDependencies : option (list string);
  dc_missing : option json;
  dc_using : option json
}.

Inductive DepcheckOutcome :=
| Resolved (result : DepcheckResult)
| Rejected (e : JsError).

(** [package-lock.json] as [findDuplicates] meets it: [fs.access]
    fails; or [fs.readFile] or [JSON.parse] throws; or the text is
    parsed, to [null] or to a value that has the properties of
    [lockData]. *)
Inductive LockSource :=
| LockAbsent
| LockBroken (e : JsError)
| LockNull
| LockParsed (lockData : Lock.LockData).

Inductive Category := Unused | Outdated | Vulnerabilities | Duplicated.

#[export] Instance Category_eq_dec : EqDecision Category.
Proof. solve_decision. Defined.

(** The lines written with [console.log], without colour and glyphs. *)
Inductive Msg :=
| MsgDynamicNote
| MsgBullet (pkg : string)
| MsgProtectHint
| MsgNoSafeUnused
| MsgProtectedKept (n : nat)
| MsgProtectedBullet (pkg : string)
| MsgForceHint
| MsgFound (n : nat)
| MsgFailedRemove (batch : list string)
| MsgRemoved (n : nat)
| MsgFixing (c : Category)
| MsgUpdated
| MsgFixed
| MsgDeduped.

(** What an observer of a run sees, in order. *)
Inductive Event :=
| Log (m : Msg)
| Exec (c : Command) (o : ExecOutcome)
| Depcheck (o : DepcheckOutcome).

(** The object [checkUnused] returns. *)
Record UnusedReport := {
  un_dependencies : list string;
  un_devDependencies : list string;
  un_missing : json;
  un_using : json;
  protected_dependencies : list string;
  protected_devDependencies : list string
}.

Record AuditReport := {
  vulnerabilities : json;
  metadata : json
}.

(** The argument of [fixIssues]; an absent flag is [false]. *)
Record Options := {
  opt_unused : bool;
  opt_outdated : bool;
  opt_vulnerabilities : bool;
  opt_duplicates : bool;
  opt_all : bool;
  opt_force : bool
}.

(** One element of the array [fixIssues] returns. *)
Record FixResult := {
  type : Category;
  success : bool;
  error : option string
}.

(** The set the constructor stores in [this.protectedPackages]. *)
Definition builtinProtected : gset string :=
  list_to_set
    [ "commander"; "chalk"; "depcheck"; "lodash";
      "react"; "react-dom"; "next"; "vue"; "nuxt";
      "express"; "fastify"; "koa";
      "typescript"; "node"; "@types/node";
      "webpack"; "vite"; "rollup"; "parcel";
      "jest"; "mocha"; "vitest"; "cypress";
      "eslint"; "prettier"; "husky"; "lint-staged";
      "@vitejs/plugin-react"; "@vitejs/plugin-react-refresh";
      "gsap"; "@gsap/react" ].

Definition batchSize : nat := 10.

(** The element [fixIssues] pushes for a category whose action ended
    with [r]. *)
Definition entry_of {A} (c : Category) (r : Res A) : FixResult :=
  match r with
  | Ok _ => {| type := c; success := true; error := None |}
  | Throw e => {| type := c; success := false; error := Some (message e) |}
  end.


(** The categories [fixIssues] acts on: [all || flag]. *)
Definition requested (options : Options) (c : Category) : bool :=
  opt_all options ||
  match c with
  | Unused => opt_unused options
  | Outdated => opt_outdated options
  | Vulnerabilities => opt_vulnerabilities options
  | Duplicated => opt_duplicates options
  end.

(** ** The class [DependencyChecker] *)

Section Checker.

(** The state of everything outside the process (files, registry,
    installed tree) and the three ways the class reaches it. *)
Context {W : Type}.
Variable execSync : Command -> W -> ExecOutcome * W.
Variable depcheck : W -> DepcheckOutcome * W.
Variable JSON_parse : string -> option json.
Variable lockFile : W -> LockSource.

(** The fields of [this] that change, with the record of what was
    written and run. *)
Record State := {
  world : W;
  protectedPackages : gset string;
  events : list Event
}.

Definition emit (ev : Event) (st : State) : State :=
  {| world := world st;
     protectedPackages := protectedPackages st;
     events := events st ++ [ev] |}.

Definition set_world (w : W) (st : State) : State :=
  {| world := w;
     protectedPackages := protectedPackages st;
     events := events st |}.

Definition add_events (tr : list Event) (st : State) : State :=
  {| world := world st;
     protectedPackages := protectedPackages st;
     events := events st ++ tr |}.

(** A method body: from a state to a result and the state it leaves. *)
Definition M (A : Type) : Type := State -> Res A * State.

Definition ret {A} (a : A) : M A := fun st => (Ok a, st).

Definition throw {A} (e : JsError) : M A := fun st => (Throw e, st).

Definition bind {A B} (m : M A) (k : A -> M B) : M B :=
  fun st =>
    match m st with
    | (Ok a, st') => k a st'
    | (Throw e, st') => (Throw e, st')
    end.

(** [try { m } catch (error) { handler }]: what [m] did before it
    threw stays done. *)
Definition try_catch {A} (m : M A) (handler : JsError -> M A) : M A :=
  fun st =>
    match m st with
    | (Ok a, st') => (Ok a, st')
    | (Throw e, st') => handler e st'
    end.

Notation "'let*' x ':=' m 'in' k" := (bind m (fun x => k))
  (at level 10, x name, m at level 100, k at level 200).
Notation "m ';;' k" := (bind m (fun _ => k))
  (at level 100, k at level 200, right associativity).

Definition get {A} (f : State -> A) : M A := fun st => (Ok (f st), st).

Definition lift {A} (r : Res A) : M A := fun st => (r, st).

Definition console_log (m : Msg) : M unit := fun st => (Ok tt, emit (Log m) st).

Fixpoint forEach_log (f : string -> Msg) (l : list string) : M unit :=
  match l with
  | [] => ret tt
  | x :: l' => console_log (f x) ;; forEach_log f l'
  end.

(** [execSync(command, ...)]. *)
Definition exec (c : Command) : M string :=
  fun st =>
    let (o, w) := execSync c (world st) in
    let st' := emit (Exec c o) (set_world w st) in
    match o with
    | Exited out => (Ok out, st')
    | Failed e => (Throw e, st')
    end.

(** The state one call of [execSync] leaves. *)
Definition after (c : Command) (st : State) : State :=
  let (o, w) := execSync c (world st) in emit (Exec c o) (set_world w st).

(** [await depcheck(this.cwd, this.depcheckOptions)]. *)
Definition run_depcheck : M DepcheckResult :=
  fun st =>
    let (o, w) := depcheck (world st) in
    let st' := emit (Depcheck o) (set_world w st) in
    match o with
    | Resolved r => (Ok r, st')
    | Rejected e => (Throw e, st')
    end.

(** [JSON.parse(text)]. *)
Definition parse (text : string) : M json :=
  match JSON_parse text with
  | Some v => ret v
  | None => throw (Error "Unexpected token in JSON")
  end.

(** *** [checkUnused] *)

(** The callback of the two [filter] calls that build the removable
    lists. *)
Definition safe (protected : gset string) (dep : string) : bool :=
  if bool_decide (dep ∈ protected) then false
  else if startsWith dep "@types/" || includes dep "eslint" || includes dep "babel"
  then false
  else true.

Definition dynamic (dep : string) : bool :=
  includes dep "plugin" || includes dep "vite" || includes dep "webpack"
  || includes dep "gsap".

Definition has (protected : gset string) (dep : string) : bool :=
  bool_decide (dep ∈ protected).

Definition checkUnused : M UnusedReport :=
  try_catch
    (let* result := run_depcheck in
     let* protected := get protectedPackages in
     let safeDependencies :=
       List.filter (safe protected) (or_nil (dc_dependencies result)) in
     let safeDevDependencies :=
       List.filter (safe protected) (or_nil (dc_devDependencies result)) in
     let potentiallyDynamic :=
       List.filter dynamic (safeDependencies ++ safeDevDependencies)%list in
     (if (0 <? length potentiallyDynamic)%nat then
        console_log MsgDynamicNote ;;
        forEach_log MsgBullet potentiallyDynamic ;;
        console_log MsgProtectHint
      else ret tt) ;;
     ret {| un_dependencies := safeDependencies;
            un_devDependencies := safeDevDependencies;
            un_missing := or_empty (dc_missing result);
            un_using := or_empty (dc_using result);
            protected_dependencies :=
              List.filter (has protected) (or_nil (dc_dependencies result));
            protected_devDependencies :=
              List.filter (has protected) (or_nil (dc_devDependencies result)) |})
    (fun error =>
       throw (Error ("Error checking unused dependencies: " +:+ message error))).

(** *** [checkOutdated] and [checkVulnerabilities] *)

Definition checkOutdated : M json :=
  try_catch
    (let* output := exec NpmOutdatedJson in
     let* outdated := parse output in
     let* outdated := lift (delete_prop outdated "chalk") in
     ret outdated)
    (fun error =>
       if truthy_opt truthy_string (stdout error) then
         try_catch
           (let* outdated := parse (default "" (stdout error)) in
            let* outdated := lift (delete_prop outdated "chalk") in
            ret outdated)
           (fun _ => ret (JObj []))
       else ret (JObj [])).

Definition auditReport (audit : json) : M AuditReport :=
  let* v := lift (get_prop audit "vulnerabilities") in
  let* m := lift (get_prop audit "metadata") in
  ret {| vulnerabilities := or_empty v; metadata := or_empty m |}.

Definition emptyAudit : AuditReport :=
  {| vulnerabilities := JObj []; metadata := JObj [] |}.

Definition checkVulnerabilities : M AuditReport :=
  try_catch
    (let* output := exec NpmAuditJson in
     let* audit := parse output in
     auditReport audit)
    (fun error =>
       if truthy_opt truthy_string (stdout error) then
         try_catch
           (let* audit := parse (default "" (stdout error)) in
            auditReport audit)
           (fun _ => ret emptyAudit)
       else ret emptyAudit).

(** *** [findDuplicates] *)

Definition findDuplicates : M Lock.Duplicates :=
  let* source := get (fun st => lockFile (world st)) in
  match source with
  | LockAbsent =>
      ret {| Lock.duplicates := [];
             Lock.dup_totalPackages := None;
             Lock.lockFileExists := false |}
  | LockBroken e =>
      throw (Error ("Failed to parse package-lock.json: " +:+ message e))
  | LockNull =>
      throw (Error ("Failed to parse package-lock.json: "
                    +:+ message (Lock.nullError "packages")))
  | LockParsed lockData =>
      match Lock.scanLock lockData with
      | Ok report => ret report
      | Throw e =>
          throw (Error ("Failed to parse package-lock.json: " +:+ message e))
      end
  end.

(** *** [removeUnused] *)

(** The [for] loop over the batches, from index [i]. *)
Equations? removeBatches (allUnused : list string) (i : nat) : M unit
    by wf (length allUnused - i)%nat lt :=
  removeBatches allUnused i with decide (i < length allUnused)%nat := {
    | left _ =>
        let batch := slice allUnused i (i + batchSize) in
        try_catch
          (exec (NpmUninstall batch) ;; ret tt)
          (fun error => console_log (MsgFailedRemove batch) ;; throw error) ;;
        removeBatches allUnused (i + batchSize)%nat;
    | right _ => ret tt }.
Proof. unfold batchSize. lia. Qed.

Definition removeUnused (force : bool) : M unit :=
  let* unused := checkUnused in
  let allUnused := (un_dependencies unused ++ un_devDependencies unused)%list in
  if (length allUnused =? 0)%nat then
    console_log MsgNoSafeUnused ;;
    let protectedCount :=
      (length (protected_dependencies unused)
       + length (protected_devDependencies unused))%nat in
    (if (0 <? protectedCount)%nat && negb force then
       console_log (MsgProtectedKept protectedCount) ;;
       forEach_log MsgProtectedBullet
         (protected_dependencies unused ++ protected_devDependencies unused)%list ;;
       console_log MsgForceHint
     else ret tt)
  else
    console_log (MsgFound (length allUnused)) ;;
    forEach_log MsgBullet allUnused ;;
    removeBatches allUnused 0 ;;
    console_log (MsgRemoved (length allUnused)).

(** *** The other three actions *)

Definition updateOutdated : M unit :=
  exec NpmUpdate ;; console_log MsgUpdated.

Definition fixVulnerabilities : M unit :=
  exec NpmAuditFix ;; console_log MsgFixed.

Definition deduplicate : M unit :=
  exec NpmDedupe ;; console_log MsgDeduped.

(** *** [fixIssues] *)

(** One [if (all || flag) { log; try { action; push } catch { push } }]
    block. *)
Definition attempt (requested : bool) (c : Category) (action : M unit)
    (results : list FixResult) : M (list FixResult) :=
  if requested then
    console_log (MsgFixing c) ;;
    try_catch
      (action ;;
       ret (results ++ [{| type := c; success := true; error := None |}]))
      (fun e =>
         ret (results ++ [{| type := c; success := false;
                             error := Some (message e) |}]))
  else ret results.

Definition fixIssues (options : Options) : M (list FixResult) :=
  let all := opt_all options in
  let results := [] in
  let* results :=
    attempt (all || opt_unused options) Unused
      (removeUnused (opt_force options)) results in
  let* results :=
    attempt (all || opt_outdated options) Outdated updateOutdated results in
  let* results :=
    attempt (all || opt_vulnerabilities options) Vulnerabilities
      fixVulnerabilities results in
  let* results :=
    attempt (all || opt_duplicates options) Duplicated deduplicate results in
  ret results.

(** One block of [fixIssues] as a step on the pair of [results] and
    state. *)
Definition stage (requested : bool) (c : Category) (action : M unit)
    (acc : list FixResult * State) : list FixResult * State :=
  if requested then
    let r := action (emit (Log (MsgFixing c)) acc.2) in
    (acc.1 ++ [entry_of c r.1], r.2)
  else acc.

End Checker.

(** ** Lockfiles of the scenarios *)

Module Scenario.

Definition pkg (version : string) (deps : option Lock.Deps) : Lock.Info :=
  Lock.InfoObj (Some version) deps.

(** The legacy shape ([lockfileVersion] 1): nested [dependencies]
    objects keyed by package name.  [lodash] is resolved to 4.17.20
    below [a] and below [b]. *)
Definition legacyTwo : Lock.LockData :=
  {| Lock.packages := None;
     Lock.dependencies := Some
       [ ("a", pkg "1.0.0" (Some [("lodash", pkg "4.17.20" None)]));
         ("b", pkg "2.0.0" (Some [("lodash", pkg "4.17.20" None)])) ] |}.

(** The same with a third position, at the top level, resolved to
    4.17.21. *)
Definition legacyThree : Lock.LockData :=
  {| Lock.packages := None;
     Lock.dependencies := Some
       [ ("a", pkg "1.0.0" (Some [("lodash", pkg "4.17.20" None)]));
         ("b", pkg "2.0.0" (Some [("lodash", pkg "4.17.20" None)]));
         ("lodash", pkg "4.17.21" None) ] |}.

(** The same installed tree in the flat shape ([lockfileVersion] 3):
    [packages] is keyed by install path, and the [dependencies] of an
    entry map names to version ranges. *)
Definition flatThree : Lock.LockData :=
  {| Lock.packages := Some
       [ ("", pkg "1.0.0"
                (Some [("a", Lock.InfoRange "^1.0.0");
                       ("b", Lock.InfoRange "^2.0.0");
                       ("lodash", Lock.InfoRange "^4.17.21")]));
         ("node_modules/a",
            pkg "1.0.0" (Some [("lodash", Lock.InfoRange "4.17.20")]));
         ("node_modules/a/node_modules/lodash", pkg "4.17.20" None);
         ("node_modules/b",
            pkg "2.0.0" (Some [("lodash", Lock.InfoRange "4.17.20")]));
         ("node_modules/b/node_modules/lodash", pkg "4.17.20" None);
         ("node_modules/lodash", pkg "4.17.21" None) ];
     Lock.dependencies := None |}.

(** An entry without a version, with [lodash] below it at two
    depths and in two versions. *)
Definition underVersionless : Lock.LockData :=
  {| Lock.packages := None;
     Lock.dependencies := Some
       [ ("app",
          Lock.InfoObj None
            (Some [ ("lodash", pkg "4.17.20" None);
                    ("b", pkg "1.0.0" (Some [("lodash", pkg "4.17.21" None)])) ])) ] |}.

(** A lockfile with a [null] entry after two versioned ones. *)
Definition withNull : Lock.LockData :=
  {| Lock.packages := None;
     Lock.dependencies := Some
       [ ("a", pkg "1.0.0" (Some [("lodash", pkg "4.17.20" None)]));
         ("b", Lock.InfoNull) ] |}.

(** A world that holds nothing but the lockfile. *)
Definition lockOnly (source : LockSource) : unit -> LockSource := fun _ => source.

Definition start : @State unit :=
  {| world := tt; protectedPackages := builtinProtected; events := [] |}.

End Scenario.

(** ** The registry queries, as the specification words them *)

Module Registry.

(** The text the adapter has to parse: the standard output of the
    command, whatever its exit status; none when a failed command
    left no output. *)
Definition output (o : ExecOutcome) : option string :=
  match o with
  | Exited out => Some out
  | Failed e => if truthy_opt truthy_string (stdout e) then stdout e else None
  end.

(** The parsed report, when the text parses. *)
Definition parsed (JSON_parse : string -> option json) (o : ExecOutcome) : option json :=
  match output o with
  | Some text => JSON_parse text
  | None => None
  end.

(** The parsed report without the entry of the rendering library. *)
Definition without_chalk (v : json) : json :=
  match v with
  | JObj fields => JObj (remove_key "chalk" fields)
  | _ => v
  end.

(** An own property of a parsed report. *)
Definition prop (v : json) (k : string) : option json :=
  match v with
  | JObj fields => assoc k fields
  | _ => None
  end.

Definition audit_of (v : json) : AuditReport :=
  {| vulnerabilities := or_empty (prop v "vulnerabilities");
     metadata := or_empty (prop v "metadata") |}.

Definition is_null (v : json) : bool :=
  match v with JNull => true | _ => false end.

End Registry.

(** ** Worlds of the scenarios *)

Module Outside.

(** A registry whose every command ends the same way and changes
    nothing. *)
Definition always (o : ExecOutcome) : Command -> unit -> ExecOutcome * unit :=
  fun _ w => (o, w).

Definition exit1 (text : string) : ExecOutcome :=
  Failed {| message := "Command failed"; stdout := Some text |}.

(** A scanner that reports the same packages at every call. *)
Definition finds (result : DepcheckResult) : unit -> DepcheckOutcome * unit :=
  fun w => (Resolved result, w).

Definition someUnused : DepcheckResult :=
  {| dc_dependencies := Some ["react"; "left-pad"];
     dc_devDependencies := Some ["@types/node"; "eslint-config-x"; "rimraf"];
     dc_missing := None;
     dc_using := None |}.

(** Flagged names of which two removable ones look dynamic; [vite]
    is protected and [eslint-plugin-react] vetoed for its spelling. *)
Definition someDynamic : DepcheckResult :=
  {| dc_dependencies :=
       Some ["vite-tsconfig-paths"; "left-pad"; "vite"; "eslint-plugin-react"];
     dc_devDependencies := Some ["webpack-bundle-analyzer"; "rimraf"];
     dc_missing := None;
     dc_using := None |}.

(** Scenario D: a registry that counts the uninstall commands it is
    given and fails the second one; a scanner that finds 23 unused
    packages. *)
Definition secondFails : Command -> nat -> ExecOutcome * nat :=
  fun c n =>
    match c with
    | NpmUninstall _ =>
        (if (n =? 1)%nat
         then Failed {| message := "Command failed: npm uninstall";
                        stdout := None |}
         else Exited "",
         S n)
    | _ => (Exited "", n)
    end.

Definition names23 : list string :=
  map (fun n => "pkg-" +:+ pretty n) (seq 1 23).

Definition finds23 : nat -> DepcheckOutcome * nat :=
  fun w =>
    (Resolved {| dc_dependencies := Some (take 15 names23);
                 dc_devDependencies := Some (drop 15 names23);
                 dc_missing := None;
                 dc_using := None |}, w).

Definition start0 : @State nat :=
  {| world := 0%nat; protectedPackages := builtinProtected; events := [] |}.

Definition onlyUnused : Options :=
  {| opt_unused := true; opt_outdated := false; opt_vulnerabilities := false;
     opt_duplicates := false; opt_all := false; opt_force := false |}.

(** [JSON.parse] on the few texts of the scenarios. *)
Definition parseTable (table : list (string * json)) : string -> option json :=
  fun text => assoc text table.

Definition chalkEntry : json :=
  JObj [("current", JStr "4.1.2"); ("wanted", JStr "4.1.2");
        ("latest", JStr "5.4.1")].

(** The output of [npm outdated --json] when only chalk is behind. *)
Definition chalkOnly : string :=
  "{" +:+ quoted "chalk" +:+ ":{"
  +:+ quoted "current" +:+ ":" +:+ quoted "4.1.2" +:+ ","
  +:+ quoted "wanted" +:+ ":" +:+ quoted "4.1.2" +:+ ","
  +:+ quoted "latest" +:+ ":" +:+ quoted "5.4.1" +:+ "}}".

Definition texts : list (string * json) :=
  [ ("null", JNull);
    ("{}", JObj []);
    (chalkOnly, JObj [("chalk", chalkEntry)]) ].

End Outside.

(** The sentence on a failed command, as the specification states it
    for [checkOutdated]: whatever the failed command wrote is parsed
    and the parsed report is what comes back. *)
Definition failed_output_returned {W} (execSync : Command -> W -> ExecOutcome * W)
    (JSON_parse : string -> option json) (st : @State W) : Prop :=
  forall e text v,
    (execSync NpmOutdatedJson (world st)).1 = Failed e ->
    stdout e = Some text ->
    truthy_string text = true ->
    JSON_parse text = Some v ->
    (checkOutdated execSync JSON_parse st).1 = Ok (Registry.without_chalk v).

(** ** Observations on a run *)

(** The events a run added to the ones recorded before it. *)
Definition trace_since {W} (st st' : @State W) : list Event :=
  drop (length (events st)) (events st').

(** The commands run, with how each ended. *)
Definition commands (tr : list Event) : list (Command * ExecOutcome) :=
  flat_map (fun ev => match ev with Exec c o => [(c, o)] | _ => [] end) tr.

(** The batches passed to [npm uninstall]. *)
Definition uninstalled (tr : list Event) : list (list string) :=
  flat_map (fun co => match co.1 with NpmUninstall b => [b] | _ => [] end)
           (commands tr).

(** The specification's batches: consecutive runs of at most
    [batchSize] names. *)
Equations? batches (l : list string) : list (list string) by wf (length l) lt :=
  batches [] := [];
  batches (x :: l') := take batchSize (x :: l') :: batches (drop batchSize (x :: l')).
Proof. cbn. rewrite length_drop. lia. Qed.


(** A name the filter of [checkUnused] keeps out of the removable
    lists. *)
Definition vetoed (protected : gset string) (p : string) : Prop :=
  p ∈ protected \/ startsWith p "@types/" = true
  \/ includes p "eslint" = true \/ includes p "babel" = true.

(** ** Further observations on the health score *)

(** The five totals in the order the blocks of
    [calculateHealthScore] examine them. *)
Definition totals_in_order (stats : Score.Stats) : list nat :=
  [ Score.unused_total stats; Score.outdated_total stats;
    Score.vulnerabilities_total stats; Score.duplicates_total stats;
    Score.missing_total stats ].

(** The number of categories that have at least one item. *)
Definition categories_with_issues (stats : Score.Stats) : nat :=
  length (List.filter (fun n => (0 <? n)%nat) (totals_in_order stats)).

(** The line pushed on [issues] for a category, if any. *)
Definition issue_line (n : nat) (text : string) : list string :=
  if (0 <? n)%nat then [pretty n +:+ text] else [].

(** One report has no more items than another, category by category. *)
Definition no_more_issues (s s' : Score.Stats) : Prop :=
  (Score.unused_total s <= Score.unused_total s')%nat
  /\ (Score.outdated_total s <= Score.outdated_total s')%nat
  /\ (Score.vulnerabilities_total s <= Score.vulnerabilities_total s')%nat
  /\ (Score.duplicates_total s <= Score.duplicates_total s')%nat
  /\ (Score.missing_total s <= Score.missing_total s')%nat.

(** ** Shapes of lockfiles *)

(** The [dependencies] of an entry of the flat [packages] map: names
    mapped to version ranges. *)
Definition ranges_only (deps : option Lock.Deps) : Prop :=
  Forall (fun d => exists r, d.2 = Lock.InfoRange r) (or_nil deps).

(** The flat [packages] map: one entry for each install path. *)
Definition flat_shape (entries : Lock.Deps) : Prop :=
  NoDup (map fst entries)
  /\ Forall (fun e => match e.2 with
                      | Lock.InfoRange _ => True
                      | Lock.InfoObj _ deps => ranges_only deps
                      | Lock.InfoNull => False
                      end) entries.

(** [if (info.version)] on an entry. *)
Definition has_version (e : string * Lock.Info) : bool :=
  match e.2 with
  | Lock.InfoRange _ | Lock.InfoNull => false
  | Lock.InfoObj version _ => truthy_opt truthy_string version
  end.

(** ** Further observations on a run *)

(** The lines [checkUnused] writes about names that may be used
    dynamically. *)
Definition advisory (potentiallyDynamic : list string) : list Msg :=
  if (0 <? length potentiallyDynamic)%nat
  then MsgDynamicNote :: map MsgBullet potentiallyDynamic ++ [MsgProtectHint]
  else [].

(** The batches whose [npm uninstall] ended with status 0. *)
Definition succeeded (tr : list Event) : list (list string) :=
  flat_map (fun co => match co with
                      | (NpmUninstall b, Exited _) => [b]
                      | _ => []
                      end) (commands tr).

(** The command of a category other than [Unused]. *)
Definition command_of (c : Category) : list Command :=
  match c with
  | Unused => []
  | Outdated => [NpmUpdate]
  | Vulnerabilities => [NpmAuditFix]
  | Duplicated => [NpmDedupe]
  end.

(** ** More of JavaScript *)

(** The number of UTF-16 code units of a text held as UTF-8 bytes:
    what [length] and the index keys of a string count. *)
Definition utf16_units (b : Ascii.ascii) : nat :=
  let n := Ascii.nat_of_ascii b in
  if (n <? 128)%nat then 1%nat
  else if (n <? 192)%nat then 0%nat
  else if (n <? 240)%nat then 1%nat
  else 2%nat.

Fixpoint utf16_length (s : string) : nat :=
  match s with
  | EmptyString => 0%nat
  | String b s' => (utf16_units b + utf16_length s')%nat
  end.

(** The index keys [0], [1], ... of an array or a string. *)
Definition index_keys (n : nat) : list string :=
  map (fun i : nat => pretty i) (seq 0 n).

(** [Object.keys(v)]: a TypeError on [null]. *)
Definition Object_keys (v : json) : Res (list string) :=
  match v with
  | JNull => Throw (Error "Cannot convert undefined or null to object")
  | JObj fields => Ok (map fst fields)
  | JArr items => Ok (index_keys (length items))
  | JStr s => Ok (index_keys (utf16_length s))
  | JBool _ | JNum _ => Ok []
  end.

(** [x || d] on an optional property. *)
Definition or_default (d : json) (o : option json) : json :=
  match o with
  | Some v => if truthy v then v else d
  | None => d
  end.

(** [v?.k] on an optional value: [undefined] when [v] is [undefined]
    or [null]. *)
Definition optional_prop (o : option json) (k : string) : Res (option json) :=
  match o with
  | None | Some JNull => Ok None
  | Some v => get_prop v k
  end.

(** The strings among the elements of an array. *)
Definition strings_of (items : list json) : list string :=
  flat_map (fun v => match v with JStr s => [s] | _ => [] end) items.

(** ** Manifest and project report *)

(** The object [getPackageInfo] returns. *)
Record PackageInfo := {
  pi_name : json;
  pi_version : json;
  pi_dependencies : list string;
  pi_devDependencies : list string;
  pi_scripts : list string;
  pi_engines : json;
  pi_dependencyChecker : json
}.

(** The object [getProjectStats] returns. *)
Record ProjectStats := {
  project_name : json;
  project_version : json;
  project_totalDeps : nat;
  project_totalDevDeps : nat;
  project_totalScripts : nat;
  project_hasEngines : bool;
  unused_dependencies : list string;
  unused_devDependencies : list string;
  unused_total : nat;
  missing_packages : list string;
  missing_total : nat;
  outdated_packages : list string;
  outdated_total : nat;
  outdated_details : json;
  vulnerabilities_total : nat;
  vulnerabilities_metadata : json;
  vulnerabilities_details : json;
  duplicates_packages : list Lock.DuplicateEntry;
  duplicates_total : nat;
  duplicates_totalPackages : option nat;
  duplicates_lockFileExists : bool
}.

(** The five totals the score is computed from. *)
Definition totals (stats : ProjectStats) : Score.Stats :=
  {| Score.unused_total := unused_total stats;
     Score.missing_total := missing_total stats;
     Score.outdated_total := outdated_total stats;
     Score.vulnerabilities_total := vulnerabilities_total stats;
     Score.duplicates_total := duplicates_total stats |}.

(** The colour of the line the [score] command prints. *)
Inductive Band := Red | Yellow | Green.

Definition band (score : Z) : Band :=
  if score <? 70 then Red else if score <? 85 then Yellow else Green.

Section Project.

Context {W : Type}.
Variable execSync : Command -> W -> ExecOutcome * W.
Variable depcheck : W -> DepcheckOutcome * W.
Variable JSON_parse : string -> option json.
Variable lockFile : W -> LockSource.

(** [fs.readFile(this.packageJsonPath, 'utf8')]: the text or the
    error. *)
Variable readPackageJson : W -> Res string.

Notation "'let*' x ':=' m 'in' k" := (bind m (fun x => k))
  (at level 10, x name, m at level 100, k at level 200).
Notation "m ';;' k" := (bind m (fun _ => k))
  (at level 100, k at level 200, right associativity).

(** [this.protectedPackages.add(pkg)] for a package name. *)
Definition protect (pkg : string) : @M W unit :=
  fun st =>
    (Ok tt, {| world := world st;
               protectedPackages := {[pkg]} ∪ protectedPackages st;
               events := events st |}).

(** [userProtected.forEach(pkg => this.protectedPackages.add(pkg))]:
    a TypeError unless [userProtected] is an array.  Of the elements
    only the strings are kept: no other value is equal to a package
    name. *)
Definition forEach_protect (userProtected : json) : @M W unit :=
  match userProtected with
  | JArr items =>
      (fix each (l : list string) : @M W unit :=
         match l with
         | [] => ret tt
         | pkg :: l' => protect pkg ;; each l'
         end) (strings_of items)
  | _ => throw (Error "userProtected.forEach is not a function")
  end.

Definition getPackageInfo : @M W PackageInfo :=
  try_catch
    (let* text := (fun st => (readPackageJson (world st), st)) in
     let* packageData := parse JSON_parse text in
     let* dependencyChecker := lift (get_prop packageData "dependencyChecker") in
     let* declared := lift (optional_prop dependencyChecker "protectedPackages") in
     let userProtected := or_default (JArr []) declared in
     forEach_protect userProtected ;;
     let* name := lift (get_prop packageData "name") in
     let* version := lift (get_prop packageData "version") in
     let* dependencies := lift (get_prop packageData "dependencies") in
     let* dependencies := lift (Object_keys (or_empty dependencies)) in
     let* devDependencies := lift (get_prop packageData "devDependencies") in
     let* devDependencies := lift (Object_keys (or_empty devDependencies)) in
     let* scripts := lift (get_prop packageData "scripts") in
     let* scripts := lift (Object_keys (or_empty scripts)) in
     let* engines := lift (get_prop packageData "engines") in
     let* checkerConfig := lift (get_prop packageData "dependencyChecker") in
     ret {| pi_name := or_default (JStr "unknown") name;
            pi_version := or_default (JStr "0.0.0") version;
            pi_dependencies := dependencies;
            pi_devDependencies := devDependencies;
            pi_scripts := scripts;
            pi_engines := or_empty engines;
            pi_dependencyChecker := or_empty checkerConfig |})
    (fun error =>
       throw (Error ("Failed to read package.json: " +:+ message error))).

Definition getProjectStats : @M W ProjectStats :=
  let* packageInfo := getPackageInfo in
  let* unused := checkUnused depcheck in
  let* outdated := checkOutdated execSync JSON_parse in
  let* audit := checkVulnerabilities execSync JSON_parse in
  let* duplicatesInfo := findDuplicates lockFile in
  let* engineKeys := lift (Object_keys (pi_engines packageInfo)) in
  let* missingKeys := lift (Object_keys (un_missing unused)) in
  let* outdatedKeys := lift (Object_keys outdated) in
  let* vulnerabilityKeys := lift (Object_keys (vulnerabilities audit)) in
  ret {| project_name := pi_name packageInfo;
         project_version := pi_version packageInfo;
         project_totalDeps := length (pi_dependencies packageInfo);
         project_totalDevDeps := length (pi_devDependencies packageInfo);
         project_totalScripts := length (pi_scripts packageInfo);
         project_hasEngines := (0 <? length engineKeys)%nat;
         unused_dependencies := un_dependencies unused;
         unused_devDependencies := un_devDependencies unused;
         unused_total :=
           (length (un_dependencies unused) + length (un_devDependencies unused))%nat;
         missing_packages := missingKeys;
         missing_total := length missingKeys;
         outdated_packages := outdatedKeys;
         outdated_total := length outdatedKeys;
         outdated_details := outdated;
         vulnerabilities_total := length vulnerabilityKeys;
         vulnerabilities_metadata := metadata audit;
         vulnerabilities_details := vulnerabilities audit;
         duplicates_packages := Lock.duplicates duplicatesInfo;
         duplicates_total := length (Lock.duplicates duplicatesInfo);
         duplicates_totalPackages := Lock.dup_totalPackages duplicatesInfo;
         duplicates_lockFileExists := Lock.lockFileExists duplicatesInfo |}.

(** [calculateHealthScore]: the score of the awaited report, with the
    report. *)
Definition calculateHealthScore : @M W (Score.HealthScore * ProjectStats) :=
  let* stats := getProjectStats in
  ret (Score.calculateHealthScore (totals stats), stats).

End Project.

(** ** The commands of the CLI *)

(** The options object of the [fix] command: the flags [fixIssues]
    reads and [yes]. *)
Record FixFlags := {
  fix_options : Options;
  opt_yes : bool
}.

(** The lines the command actions write themselves, without colour
    and glyphs. *)
Inductive CliLine :=
| PleaseSpecify
| HelpUnused | HelpOutdated | HelpVulnerabilities | HelpDuplicates
| HelpAll | HelpForce
| ForceWarning | ForceBackup
| WillModify | ForceEnabled | UseYes | ConfirmRequired
| StartingFixes
| FixResultsHeader
| FixCompleted (c : Category)
| FixFailed (c : Category) (error : option string)
| FixesCompleted
| RunSummaryHint
| CalculatingScore
| HealthScoreLine (b : Band) (score : Z)
| IssuesHeader
| RecommendationsHeader
| Bullet (text : string)
| CheckingUnused
| NoUnusedFound
| FoundUnused (total : nat)
| RunFixHint.

Section Cli.

Context {W : Type}.
Variable execSync : Command -> W -> ExecOutcome * W.
Variable depcheck : W -> DepcheckOutcome * W.
Variable JSON_parse : string -> option json.
Variable lockFile : W -> LockSource.
Variable readPackageJson : W -> Res string.

(** The one [checker] object of the process and what the actions have
    written. *)
Record Terminal := {
  checker : @State W;
  screen : list CliLine
}.

Definition C (A : Type) : Type := Terminal -> Res A * Terminal.

Definition retC {A} (a : A) : C A := fun t => (Ok a, t).

Definition bindC {A B} (m : C A) (k : A -> C B) : C B :=
  fun t =>
    match m t with
    | (Ok a, t') => k a t'
    | (Throw e, t') => (Throw e, t')
    end.

Notation "'let*' x ':=' m 'in' k" := (bindC m (fun x => k))
  (at level 10, x name, m at level 100, k at level 200).
Notation "m ';;' k" := (bindC m (fun _ => k))
  (at level 100, k at level 200, right associativity).

Definition print (line : CliLine) : C unit :=
  fun t => (Ok tt, {| checker := checker t; screen := screen t ++ [line] |}).

Fixpoint forEach_print {A} (f : A -> CliLine) (l : list A) : C unit :=
  match l with
  | [] => retC tt
  | x :: l' => print (f x) ;; forEach_print f l'
  end.

(** [await checker.method(...)]. *)
Definition await {A} (m : @M W A) : C A :=
  fun t =>
    let (r, st) := m (checker t) in
    (r, {| checker := st; screen := screen t |}).

Definition when (b : bool) (m : C unit) : C unit := if b then m else retC tt.

Definition result_line (r : FixResult) : CliLine :=
  if success r then FixCompleted (type r) else FixFailed (type r) (error r).

(** The action of [fix]. *)
Definition cli_fix (options : FixFlags) : C unit :=
  let o := fix_options options in
  if negb (opt_unused o) && negb (opt_outdated o) && negb (opt_vulnerabilities o)
     && negb (opt_duplicates o) && negb (opt_all o)
  then
    print PleaseSpecify ;; print HelpUnused ;; print HelpOutdated ;;
    print HelpVulnerabilities ;; print HelpDuplicates ;; print HelpAll ;;
    print HelpForce
  else
    when (opt_force o) (print ForceWarning ;; print ForceBackup) ;;
    if negb (opt_yes options) then
      print WillModify ;;
      when (opt_force o) (print ForceEnabled) ;;
      print UseYes ;;
      print ConfirmRequired
    else
      print StartingFixes ;;
      let* results := await (fixIssues execSync depcheck o) in
      print FixResultsHeader ;;
      forEach_print result_line results ;;
      print FixesCompleted ;;
      print RunSummaryHint.

(** The action of [score]. *)
Definition cli_score : C unit :=
  print CalculatingScore ;;
  let* report :=
    await (calculateHealthScore execSync depcheck JSON_parse lockFile
             readPackageJson) in
  let h := report.1 in
  print (HealthScoreLine (band (Score.hs_score h)) (Score.hs_score h)) ;;
  when (0 <? length (Score.hs_issues h))%nat
    (print IssuesHeader ;; forEach_print Bullet (Score.hs_issues h)) ;;
  when (0 <? length (Score.hs_suggestions h))%nat
    (print RecommendationsHeader ;; forEach_print Bullet (Score.hs_suggestions h)).

(** The action of [unused]. *)
Definition cli_unused : C unit :=
  print CheckingUnused ;;
  let* unused := await (checkUnused depcheck) in
  let total :=
    (length (un_dependencies unused) + length (un_devDependencies unused))%nat in
  if (total =? 0)%nat then print NoUnusedFound
  else print (FoundUnused total) ;; print RunFixHint.

End Cli.

(** ** What a manifest declares *)

(** The names in [dependencyChecker.protectedPackages] of a parsed
    manifest, when that is an array. *)
Definition declared_protected (packageData : json) : list string :=
  match Registry.prop packageData "dependencyChecker" with
  | Some dc =>
      match Registry.prop dc "protectedPackages" with
      | Some (JArr items) => strings_of items
      | _ => []
      end
  | None => []
  end.

(** The value [getPackageInfo] iterates over: the declared list, or
    an empty array when it is absent or falsy. *)
Definition user_protected (packageData : json) : json :=
  or_default (JArr [])
    (match Registry.prop packageData "dependencyChecker" with
     | Some dc => Registry.prop dc "protectedPackages"
     | None => None
     end).

Definition is_array (v : json) : bool :=
  match v with JArr _ => true | _ => false end.

Definition is_ok {A} (r : Res A) : bool :=
  match r with Ok _ => true | Throw _ => false end.

(** A text does not end with the letter k. *)
Fixpoint no_final_k (s : string) : bool :=
  match s with
  | EmptyString => true
  | String c EmptyString => negb (Ascii.eqb c (Ascii.ascii_of_nat 107))
  | String _ s' => no_final_k s'
  end.

(** The error [getPackageInfo] throws for a cause with message
    [msg]. *)
Definition wrapped (msg : string) : JsError :=
  Error ("Failed to read package.json: " +:+ msg).

Definition is_resolved (o : DepcheckOutcome) : bool :=
  match o with Resolved _ => true | Rejected _ => false end.

(** The lockfile is one [findDuplicates] reads to the end: it is
    absent, or its text parses to a value other than [null] in whose
    tree no entry is [null]. *)
Definition lock_usable (source : LockSource) : bool :=
  match source with
  | LockAbsent => true
  | LockBroken _ | LockNull => false
  | LockParsed lockData => Lock.null_free_deps (or_nil (Lock.root lockData))
  end.

(** ** A manifest for the scenarios *)

Module Manifest.

Definition text : string :=
  "{" +:+ quoted "name" +:+ ":" +:+ quoted "demo" +:+ ","
  +:+ quoted "dependencies" +:+ ":{" +:+ quoted "left-pad" +:+ ":"
  +:+ quoted "1.3.0" +:+ "},"
  +:+ quoted "dependencyChecker" +:+ ":{" +:+ quoted "protectedPackages"
  +:+ ":[" +:+ quoted "left-pad" +:+ ",5]}}".

Definition data : json :=
  JObj [ ("name", JStr "demo");
         ("dependencies", JObj [("left-pad", JStr "1.3.0")]);
         ("dependencyChecker",
            JObj [("protectedPackages", JArr [JStr "left-pad"; JNum 5])]) ].

Definition read : unit -> Res string := fun _ => Ok text.

Definition JSON_parse : string -> option json :=
  Outside.parseTable ((text, data) :: Outside.texts).

(** The scanner flags [left-pad] and [rimraf]. *)
Definition flagged : DepcheckResult :=
  {| dc_dependencies := Some ["left-pad"; "rimraf"];
     dc_devDependencies := None;
     dc_missing := None;
     dc_using := None |}.

End Manifest.

(** Whether the flags of [fix] name a category. *)
Definition any_category (o : Options) : bool :=
  opt_unused o || opt_outdated o || opt_vulnerabilities o || opt_duplicates o
  || opt_all o.

(** The two lines [fix] writes first under [force]. *)
Definition force_banner (o : Options) : list CliLine :=
  if opt_force o then [ForceWarning; ForceBackup] else [].

(** An [execSync] under which every [npm uninstall] ends with status
    0. *)
Definition uninstall_succeeds {W} (execSync : Command -> W -> ExecOutcome * W) : Prop :=
  forall batch w, exists out, (execSync (NpmUninstall batch) w).1 = Exited out.

(** The scenario of a manifest that protects [left-pad]. *)
Module Project.

Definition execSync : Command -> unit -> ExecOutcome * unit :=
  fun c w =>
    match c with
    | NpmOutdatedJson => (Outside.exit1 Outside.chalkOnly, w)
    | _ => (Exited "", w)
    end.

Definition depcheck : unit -> DepcheckOutcome * unit :=
  Outside.finds Manifest.flagged.

Definition lockFile : unit -> LockSource := Scenario.lockOnly LockAbsent.

Definition fresh : @Terminal unit :=
  {| checker := Scenario.start; screen := [] |}.

Definition fixUnused : FixFlags :=
  {| fix_options := Outside.onlyUnused; opt_yes := true |}.

End Project.

(** A terminal with more lines written. *)
Definition add_lines {W} (lines : list CliLine) (t : @Terminal W) : @Terminal W :=
  {| checker := checker t; screen := screen t ++ lines |}.

(** A section of the output of [score]: the header and one bullet for
    each item, when there is an item. *)
Definition titled (header : CliLine) (items : list string) : list CliLine :=
  if (0 <? length items)%nat then header :: map Bullet items else [].
(** ** Theorems: health score *)

Lemma Math_round_integer (z : Z) : Math_round (inject_Z z) = z.
Proof.
  unfold Math_round, Qfloor, Qplus, inject_Z. cbn [Qnum Qden].
  replace (z * Zpos 2 + 1 * Zpos 1) with (1 + z * 2) by lia.
  change (Zpos (1 * 2)) with 2.
  rewrite Z.div_add by lia. reflexivity.
Qed.

Lemma deduct_score total cap weight issue suggestion a :
  0 <= cap -> 0 <= weight ->
  Score.score (Score.deduct total cap weight issue suggestion a)
  = Score.score a - Score.capped cap weight total.
Proof.
  intros Hc Hw. unfold Score.deduct, Score.capped, Math_min, Score.count.
  destruct (0 <? Z.of_nat total) eqn:E; cbn.
  - reflexivity.
  - apply Z.ltb_ge in E. assert (Z.of_nat total = 0) as -> by lia. lia.
Qed.

Lemma score_before_clamp stats :
  Score.hs_score (Score.calculateHealthScore stats)
  = Z.max 0 (100 - Score.sum_capped stats).
Proof.
  unfold Score.calculateHealthScore. cbn [Score.hs_score].
  rewrite Math_round_integer.
  unfold Score.deductMissing, Score.deductDuplicates,
    Score.deductVulnerabilities, Score.deductOutdated, Score.deductUnused.
  rewrite !deduct_score by lia. cbn [Score.score].
  unfold Math_max, Score.sum_capped. f_equal. lia.
Qed.

(** C1: the score [calculateHealthScore] returns is
    [max(0, round(100 - sum of the capped penalties))], each penalty
    being the category's count times its weight, capped on its own
    (unused 3 and 30, outdated 2 and 25, vulnerabilities 5 and 35,
    duplicates 2 and 15, missing 4 and 20), and it is an integer
    between 0 and 100. *)
Theorem calculateHealthScore_formula (stats : Score.Stats) :
  let u := Z.of_nat (Score.unused_total stats) in
  let o := Z.of_nat (Score.outdated_total stats) in
  let v := Z.of_nat (Score.vulnerabilities_total stats) in
  let d := Z.of_nat (Score.duplicates_total stats) in
  let m := Z.of_nat (Score.missing_total stats) in
  let penalties :=
    Z.min 30 (u * 3) + Z.min 25 (o * 2) + Z.min 35 (v * 5)
    + Z.min 15 (d * 2) + Z.min 20 (m * 4) in
  Score.hs_score (Score.calculateHealthScore stats)
  = Z.max 0 (Math_round (inject_Z (100 - penalties)))
  /\ 0 <= Score.hs_score (Score.calculateHealthScore stats) <= 100.
Proof.
  cbv zeta. rewrite score_before_clamp, Math_round_integer.
  unfold Score.sum_capped, Score.capped, Score.count.
  split; [reflexivity | lia].
Qed.

(** C9: for each category and each count [n], the block of
    [calculateHealthScore] for that category lowers the score by
    [min(cap, n * weight)], which is at most the cap; 100 unused items
    lower it by 30 and leave a score of 70. *)
Theorem penalty_capped (stats : Score.Stats) (a : Score.Acc) :
  let lowered (f : Score.Stats -> Score.Acc -> Score.Acc) :=
    Score.score a - Score.score (f stats a) in
  (lowered Score.deductUnused
     = Z.min 30 (Z.of_nat (Score.unused_total stats) * 3)
   /\ lowered Score.deductUnused <= 30)
  /\ (lowered Score.deductOutdated
        = Z.min 25 (Z.of_nat (Score.outdated_total stats) * 2)
      /\ lowered Score.deductOutdated <= 25)
  /\ (lowered Score.deductVulnerabilities
        = Z.min 35 (Z.of_nat (Score.vulnerabilities_total stats) * 5)
      /\ lowered Score.deductVulnerabilities <= 35)
  /\ (lowered Score.deductDuplicates
        = Z.min 15 (Z.of_nat (Score.duplicates_total stats) * 2)
      /\ lowered Score.deductDuplicates <= 15)
  /\ (lowered Score.deductMissing
        = Z.min 20 (Z.of_nat (Score.missing_total stats) * 4)
      /\ lowered Score.deductMissing <= 20)
  /\ (let hundred :=
        {| Score.unused_total := 100; Score.missing_total := 0;
           Score.outdated_total := 0; Score.vulnerabilities_total := 0;
           Score.duplicates_total := 0 |} in
      Score.score a - Score.score (Score.deductUnused hundred a) = 30
      /\ Score.hs_score (Score.calculateHealthScore hundred) = 70).
Proof.
  cbv zeta.
  unfold Score.deductMissing, Score.deductDuplicates,
    Score.deductVulnerabilities, Score.deductOutdated, Score.deductUnused.
  rewrite !deduct_score by lia.
  unfold Score.capped, Score.count.
  repeat split; try lia; try reflexivity.
  cbn [Score.unused_total]. lia.
Qed.

(** ** Theorems: the lockfile walk *)

(** Induction over a lockfile tree, with the hypothesis for every
    entry of the nested [dependencies]. *)
Lemma Info_nested_ind (P : Lock.Info -> Prop)
    (Hrange : forall r, P (Lock.InfoRange r))
    (Hobj : forall v deps,
        Forall (fun e => P e.2) (or_nil deps) -> P (Lock.InfoObj v deps))
    (Hnull : P Lock.InfoNull) :
  forall i, P i.
Proof.
  fix IH 1. intros [r | v deps |].
  - apply Hrange.
  - apply Hobj. destruct deps as [l |]; [| constructor].
    cbn. induction l as [| [n i] l IHl]; constructor.
    + apply IH.
    + apply IHl.
  - apply Hnull.
Qed.

Lemma scanEntry_obj name version deps st :
  Lock.scanEntry name (Lock.InfoObj version deps) st
  = Lock.scanDeps deps
      (match version with
       | Some v => if truthy_string v then Lock.record name v st else st
       | None => st
       end).
Proof.
  cbn [Lock.scanEntry]. destruct deps as [l |]; [| reflexivity].
  cbn [Lock.scanDeps].
  generalize (match version with
              | Some v => if truthy_string v then Lock.record name v st else st
              | None => st
              end).
  induction l as [| [n i] l IHl]; intros s; [reflexivity |].
  cbn [Lock.forEach fst snd]. destruct (Lock.scanEntry n i s); [apply IHl | reflexivity].
Qed.

Lemma visitedEntry_obj name version deps :
  Lock.visitedEntry name (Lock.InfoObj version deps)
  = match version with
    | Some v => if truthy_string v then [(name, v)] else []
    | None => []
    end ++ Lock.visited (or_nil deps).
Proof.
  cbn [Lock.visitedEntry]. f_equal. destruct deps as [l |]; [| reflexivity].
  cbn [or_nil]. unfold Lock.visited.
  induction l as [| [n i] l IHl]; [reflexivity |].
  cbn [flat_map fst snd]. f_equal. apply IHl.
Qed.

Lemma null_free_obj version deps :
  Lock.null_free (Lock.InfoObj version deps) = Lock.null_free_deps (or_nil deps).
Proof.
  cbn [Lock.null_free]. destruct deps as [l |]; [| reflexivity].
  cbn [or_nil]. unfold Lock.null_free_deps.
  induction l as [| [n i] l IHl]; [reflexivity |].
  cbn [forallb snd]. f_equal. apply IHl.
Qed.

(** The walk of an entry: it throws when the tree holds a [null]
    entry, and otherwise records the occurrences it visits one after
    the other. *)
Lemma scanEntry_visited name info st :
  Lock.scanEntry name info st
  = if Lock.null_free info
    then Ok (fold_left Lock.record_occ (Lock.visitedEntry name info) st)
    else Throw (Lock.nullError "version").
Proof.
  revert name st. induction info as [r | v deps IH |] using Info_nested_ind;
    intros name st; [reflexivity | | reflexivity].
  rewrite scanEntry_obj, visitedEntry_obj, null_free_obj.
  set (st1 := match v with
              | Some v0 => if truthy_string v0 then Lock.record name v0 st else st
              | None => st
              end).
  assert (forall occ,
             fold_left Lock.record_occ
               (match v with
                | Some v0 => if truthy_string v0 then [(name, v0)] else []
                | None => []
                end ++ occ) st = fold_left Lock.record_occ occ st1) as Hst1.
  { intros occ. rewrite fold_left_app. f_equal. subst st1.
    destruct v as [v0 |]; [destruct (truthy_string v0) |]; reflexivity. }
  rewrite Hst1. clear Hst1. clearbody st1. destruct deps as [l |]; [| reflexivity].
  cbn [or_nil Lock.scanDeps] in *. unfold Lock.visited, Lock.null_free_deps.
  revert st1. induction IH as [| [n i] l Hi _ IHl]; intros st1; [reflexivity |].
  cbn [Lock.forEach forallb flat_map fst snd] in *. rewrite Hi.
  destruct (Lock.null_free i); cbn [andb]; [| reflexivity].
  rewrite fold_left_app. apply IHl.
Qed.

Lemma forEach_visited entries st :
  Lock.forEach entries st
  = if Lock.null_free_deps entries
    then Ok (fold_left Lock.record_occ (Lock.visited entries) st)
    else Throw (Lock.nullError "version").
Proof.
  unfold Lock.visited, Lock.null_free_deps. revert st.
  induction entries as [| [n i] l IHl]; intros st; [reflexivity |].
  cbn [Lock.forEach forallb flat_map fst snd]. rewrite scanEntry_visited.
  destruct (Lock.null_free i); cbn [andb]; [| reflexivity].
  rewrite fold_left_app. apply IHl.
Qed.

Lemma scanDeps_visited deps st :
  Lock.scanDeps deps st
  = if Lock.null_free_deps (or_nil deps)
    then Ok (fold_left Lock.record_occ (Lock.visited (or_nil deps)) st)
    else Throw (Lock.nullError "version").
Proof. destruct deps as [l |]; [apply forEach_visited | reflexivity]. Qed.

Lemma totalPackages_fold occ st :
  Lock.totalPackages (fold_left Lock.record_occ occ st)
  = (Lock.totalPackages st + length occ)%nat.
Proof.
  revert st. induction occ as [| p occ IH]; intros st; cbn [fold_left length].
  - lia.
  - rewrite IH. unfold Lock.record_occ, Lock.record. cbn [Lock.totalPackages]. lia.
Qed.

(** *** Distinct elements in order of first occurrence *)

Lemma elem_of_distinct x l : x ∈ Lock.distinct l <-> x ∈ l.
Proof.
  induction l as [| a l IH]; cbn [Lock.distinct]; [reflexivity |].
  rewrite !elem_of_cons, list_elem_of_filter, IH.
  destruct (decide (x = a)); naive_solver.
Qed.

Lemma NoDup_distinct l : NoDup (Lock.distinct l).
Proof.
  induction l as [| a l IH]; cbn [Lock.distinct]; constructor.
  - rewrite list_elem_of_filter. naive_solver.
  - by apply NoDup_filter.
Qed.

Lemma distinct_snoc l x :
  Lock.distinct (l ++ [x]) = Lock.Set_add x (Lock.distinct l).
Proof.
  unfold Lock.Set_add. induction l as [| a l IH].
  - cbn. rewrite bool_decide_eq_false_2; [reflexivity | apply not_elem_of_nil].
  - cbn [app Lock.distinct]. rewrite IH. clear IH.
    destruct (decide (x = a)) as [-> | Hne].
    + rewrite (bool_decide_eq_true_2 (a ∈ a :: _)) by apply list_elem_of_here.
      case_bool_decide as Hin; [reflexivity |].
      rewrite filter_app, filter_cons_False, filter_nil, app_nil_r by naive_solver.
      reflexivity.
    + assert (x ∈ a :: filter (fun y => y <> a) (Lock.distinct l)
              <-> x ∈ Lock.distinct l) as Hiff.
      { rewrite elem_of_cons, list_elem_of_filter. naive_solver. }
      case_bool_decide as Hin.
      * rewrite bool_decide_eq_true_2 by (by apply Hiff). reflexivity.
      * rewrite bool_decide_eq_false_2 by (by rewrite Hiff).
        rewrite filter_app, filter_cons_True, filter_nil by done. reflexivity.
Qed.

(** *** The map of versions as an insertion-ordered list *)

Lemma assoc_None {A} n (m : list (string * A)) :
  n ∉ map fst m -> assoc n m = None.
Proof.
  induction m as [| [k v] m IH]; cbn [assoc map fst]; [done |].
  rewrite not_elem_of_cons. intros [Hne Hnin].
  rewrite decide_False by done. by apply IH.
Qed.

Lemma assoc_app_fresh {A} n (s : A) m :
  n ∉ map fst m -> assoc n (m ++ [(n, s)]) = Some s.
Proof.
  induction m as [| [k v] m IH]; cbn [assoc map fst app].
  - intros _. by rewrite decide_True.
  - rewrite not_elem_of_cons. intros [Hne Hnin].
    rewrite decide_False by done. by apply IH.
Qed.

Lemma Map_set_fresh n s m :
  n ∉ map fst m -> Lock.Map_set n s m = m ++ [(n, s)].
Proof.
  induction m as [| [k v] m IH]; cbn [Lock.Map_set map fst app]; [done |].
  rewrite not_elem_of_cons. intros [Hne Hnin].
  rewrite decide_False by done. by rewrite IH.
Qed.

Lemma Map_set_last n s s0 m :
  n ∉ map fst m -> Lock.Map_set n s (m ++ [(n, s0)]) = m ++ [(n, s)].
Proof.
  induction m as [| [k v] m IH]; cbn [Lock.Map_set map fst app].
  - intros _. by rewrite decide_True.
  - rewrite not_elem_of_cons. intros [Hne Hnin].
    rewrite decide_False by done. by rewrite IH.
Qed.

Lemma assoc_tabulate {A} (f : string -> A) n names :
  n ∈ names -> assoc n (map (fun k => (k, f k)) names) = Some (f n).
Proof.
  induction names as [| a names IH]; cbn [assoc map]; [by rewrite elem_of_nil |].
  rewrite elem_of_cons. intros Hin.
  destruct (decide (a = n)) as [-> | Hne]; [done |]. apply IH. naive_solver.
Qed.

Lemma Map_set_tabulate f g n s names :
  NoDup names -> n ∈ names -> g n = s ->
  (forall k, k <> n -> g k = f k) ->
  Lock.Map_set n s (map (fun k => (k, f k)) names)
  = map (fun k => (k, g k)) names.
Proof.
  intros Hnd Hin Hgn Hg. induction Hnd as [| a names Ha Hnd IH];
    [by apply elem_of_nil in Hin |].
  cbn [Lock.Map_set map]. destruct (decide (a = n)) as [-> | Hne].
  - rewrite Hgn. f_equal. apply map_ext_in. intros k Hk.
    rewrite Hg; [done |]. intros ->. apply Ha. by apply list_elem_of_In.
  - rewrite Hg by done. f_equal. apply IH.
    apply elem_of_cons in Hin. naive_solver.
Qed.

Lemma versionsOf_snoc k occ n v :
  Lock.versionsOf k (occ ++ [(n, v)])
  = if decide (k = n) then Lock.Set_add v (Lock.versionsOf k occ)
    else Lock.versionsOf k occ.
Proof.
  unfold Lock.versionsOf. rewrite filter_app.
  destruct (decide (k = n)) as [-> | Hne].
  - rewrite filter_cons_True, filter_nil by done.
    rewrite map_app. cbn [map snd]. apply distinct_snoc.
  - rewrite filter_cons_False, filter_nil, app_nil_r by (cbn; congruence).
    reflexivity.
Qed.

Lemma versionsOf_absent n occ :
  n ∉ map fst occ -> Lock.versionsOf n occ = [].
Proof.
  intros Hnin. unfold Lock.versionsOf.
  replace (filter (fun p => p.1 = n) occ) with (@nil (string * string)); [done |].
  symmetry. induction occ as [| [k v] occ IH]; [done |].
  cbn [map fst] in Hnin. apply not_elem_of_cons in Hnin as [Hne Hnin].
  rewrite filter_cons_False by (cbn; congruence). by apply IH.
Qed.

Lemma tabulated_snoc occ n v :
  Lock.tabulated (occ ++ [(n, v)])
  = map (fun k => (k, Lock.versionsOf k (occ ++ [(n, v)])))
        (if bool_decide (n ∈ Lock.distinct (map fst occ))
         then Lock.distinct (map fst occ)
         else Lock.distinct (map fst occ) ++ [n]).
Proof.
  unfold Lock.tabulated. rewrite map_app. cbn [map fst].
  by rewrite distinct_snoc.
Qed.

Lemma record_tabulated n v st occ :
  Lock.versions st = Lock.tabulated occ ->
  Lock.versions (Lock.record n v st) = Lock.tabulated (occ ++ [(n, v)]).
Proof.
  intros Hst. unfold Lock.record. cbn [Lock.versions]. rewrite Hst.
  rewrite tabulated_snoc. unfold Lock.Map_has, Lock.Map_get.
  destruct (decide (n ∈ Lock.distinct (map fst occ))) as [Hin | Hin];
    [rewrite (bool_decide_eq_true_2 _ Hin) | rewrite (bool_decide_eq_false_2 _ Hin)].
  - pose proof (assoc_tabulate (fun k => Lock.versionsOf k occ) n _ Hin) as Ha.
    change (assoc n (Lock.tabulated occ) = Some (Lock.versionsOf n occ)) in Ha.
    rewrite bool_decide_eq_true_2 by (rewrite Ha; eauto). rewrite Ha.
    apply Map_set_tabulate.
    + apply NoDup_distinct.
    + done.
    + rewrite versionsOf_snoc. by rewrite decide_True.
    + intros k Hk. rewrite versionsOf_snoc. by rewrite decide_False.
  - assert (n ∉ map fst (Lock.tabulated occ)) as Hfresh.
    { unfold Lock.tabulated. rewrite map_map. cbn [fst]. by rewrite map_id. }
    rewrite bool_decide_eq_false_2
      by (rewrite (assoc_None _ _ Hfresh); intros [? ?]; done).
    rewrite (Map_set_fresh _ _ _ Hfresh), (assoc_app_fresh _ _ _ Hfresh).
    rewrite (Map_set_last _ _ _ _ Hfresh).
    rewrite map_app. cbn [map]. f_equal.
    + apply map_ext_in. intros k Hk. rewrite versionsOf_snoc.
      rewrite decide_False; [done |]. intros ->. by apply Hin, list_elem_of_In.
    + rewrite versionsOf_snoc, decide_True by done.
      rewrite versionsOf_absent; [done |]. by rewrite <- elem_of_distinct.
Qed.

Lemma fold_record_tabulated occ :
  Lock.versions
    (fold_left Lock.record_occ occ {| Lock.versions := []; Lock.totalPackages := 0 |})
  = Lock.tabulated occ.
Proof.
  induction occ as [| [n v] occ IH] using rev_ind; [reflexivity |].
  rewrite fold_left_app. cbn [fold_left]. unfold Lock.record_occ at 1.
  cbn [fst snd]. by apply record_tabulated.
Qed.

Lemma filter_map_comm {A B} (g : A -> B) (P : B -> Prop)
    `{forall b, Decision (P b)} (l : list A) :
  filter P (map g l) = map g (filter (fun a => P (g a)) l).
Proof.
  induction l as [| a l IH]; [reflexivity |].
  cbn [map]. destruct (decide (P (g a))) as [Hp | Hp].
  - rewrite !filter_cons_True by done. cbn [map]. by rewrite IH.
  - rewrite !filter_cons_False by done. apply IH.
Qed.

Lemma duplicatesOf_tabulate (f : string -> list string) names :
  Lock.duplicatesOf (map (fun k => (k, f k)) names)
  = map (fun n => {| Lock.name := n; Lock.dup_versions := f n;
                     Lock.count := length (f n) |})
        (filter (fun n => 1 < length (f n))%nat names).
Proof.
  unfold Lock.duplicatesOf.
  rewrite (filter_map_comm (fun k => (k, f k))
             (fun e : string * list string => (1 < length e.2)%nat)).
  rewrite map_map. reflexivity.
Qed.

(** The walk groups the occurrences it visits by the key of their
    entry: when no entry is [null], the report is the one the
    specification describes, computed from the sequence of visited
    occurrences; otherwise the TypeError leaves the walk. *)
Lemma scanLock_groups lockData :
  let occ := Lock.visited (or_nil (Lock.root lockData)) in
  Lock.scanLock lockData
  = if Lock.null_free_deps (or_nil (Lock.root lockData))
    then Ok {| Lock.duplicates := Lock.duplicatesSpec occ;
               Lock.dup_totalPackages := Some (length occ);
               Lock.lockFileExists := true |}
    else Throw (Lock.nullError "version").
Proof.
  cbv zeta. unfold Lock.scanLock. rewrite scanDeps_visited.
  destruct (Lock.null_free_deps _); [| reflexivity].
  rewrite fold_record_tabulated, totalPackages_fold.
  unfold Lock.tabulated. rewrite duplicatesOf_tabulate. reflexivity.
Qed.

Lemma elem_of_versionsOf n v occ :
  v ∈ Lock.versionsOf n occ <-> (n, v) ∈ occ.
Proof.
  unfold Lock.versionsOf. rewrite elem_of_distinct, list_elem_of_In, in_map_iff.
  split.
  - intros [[k w] [Hw Hin]]. cbn in Hw. subst w.
    apply list_elem_of_In, list_elem_of_filter in Hin as [Hk Hin].
    cbn in Hk. by subst k.
  - intros Hin. exists (n, v). split; [done |].
    apply list_elem_of_In, list_elem_of_filter. done.
Qed.

Lemma two_distinct l :
  (1 < length (Lock.distinct l))%nat
  <-> exists v1 v2, v1 <> v2 /\ v1 ∈ l /\ v2 ∈ l.
Proof.
  pose proof (NoDup_distinct l) as Hnd.
  split.
  - destruct (Lock.distinct l) as [| a [| b r]] eqn:E; cbn; try lia.
    intros _. exists a, b.
    rewrite <- (elem_of_distinct a l), <- (elem_of_distinct b l), E.
    apply NoDup_cons in Hnd as [Ha _].
    repeat split.
    + intros ->. apply Ha, list_elem_of_here.
    + apply list_elem_of_here.
    + apply list_elem_of_further, list_elem_of_here.
  - intros (v1 & v2 & Hne & H1 & H2).
    rewrite <- elem_of_distinct in H1, H2.
    destruct (Lock.distinct l) as [| a [| b r]]; cbn; try lia.
    + by apply elem_of_nil in H1.
    + apply list_elem_of_singleton in H1, H2. congruence.
Qed.

(** A key is reported exactly when two different versions were
    recorded under it, once, with its versions free of repetition and
    counted. *)
Lemma duplicatesSpec_exact occ :
  NoDup (map Lock.name (Lock.duplicatesSpec occ))
  /\ (forall n, n ∈ map Lock.name (Lock.duplicatesSpec occ)
        <-> exists v1 v2, v1 <> v2 /\ (n, v1) ∈ occ /\ (n, v2) ∈ occ)
  /\ (forall e, e ∈ Lock.duplicatesSpec occ ->
        NoDup (Lock.dup_versions e)
        /\ Lock.count e = length (Lock.dup_versions e)
        /\ (1 < Lock.count e)%nat
        /\ forall v, v ∈ Lock.dup_versions e <-> (Lock.name e, v) ∈ occ).
Proof.
  unfold Lock.duplicatesSpec.
  assert (forall l : list string,
    map Lock.name
      (map (fun n => {| Lock.name := n; Lock.dup_versions := Lock.versionsOf n occ;
                        Lock.count := length (Lock.versionsOf n occ) |}) l) = l)
    as Hnames.
  { intros l. rewrite map_map. cbn [Lock.name]. apply map_id. }
  rewrite Hnames. repeat split.
  - apply NoDup_filter, NoDup_distinct.
  - rewrite list_elem_of_filter. intros [Hlen _]. unfold Lock.versionsOf in Hlen.
    apply two_distinct in Hlen as (v1 & v2 & Hne & H1 & H2).
    exists v1, v2. split; [done |].
    split; apply elem_of_versionsOf; unfold Lock.versionsOf;
      by apply elem_of_distinct.
  - intros (v1 & v2 & Hne & H1 & H2). apply list_elem_of_filter. split.
    + unfold Lock.versionsOf. apply two_distinct. exists v1, v2.
      split; [done |]. split; apply elem_of_distinct;
        fold (Lock.versionsOf n occ); by apply elem_of_versionsOf.
    + apply elem_of_distinct, list_elem_of_In, in_map_iff.
      exists (n, v1). split; [done | by apply list_elem_of_In].
  - apply list_elem_of_In, in_map_iff in H as [n [<- _]]. apply NoDup_distinct.
  - apply list_elem_of_In, in_map_iff in H as [n [<- _]]. reflexivity.
  - apply list_elem_of_In, in_map_iff in H as [n [<- Hn]].
    apply list_elem_of_In, list_elem_of_filter in Hn as [Hlen _]. exact Hlen.
  - apply list_elem_of_In, in_map_iff in H as [n [<- _]]. apply elem_of_versionsOf.
  - apply list_elem_of_In, in_map_iff in H as [n [<- _]]. apply elem_of_versionsOf.
Qed.

(** Scenario B in the legacy shape: two positions with the same
    version are no duplicate; a third one with another version gives
    one entry. *)
Lemma legacy_scenario :
  Lock.scanLock Scenario.legacyTwo
  = Ok {| Lock.duplicates := []; Lock.dup_totalPackages := Some 4%nat;
          Lock.lockFileExists := true |}
  /\ Lock.scanLock Scenario.legacyThree
     = Ok {| Lock.duplicates :=
               [ {| Lock.name := "lodash";
                    Lock.dup_versions := ["4.17.20"; "4.17.21"];
                    Lock.count := 2 |} ];
             Lock.dup_totalPackages := Some 5%nat;
             Lock.lockFileExists := true |}.
Proof. split; vm_compute; reflexivity. Qed.

(** C2: on a lockfile in the flat shape that holds [lodash] at three
    install paths, resolved to 4.17.20 twice and to 4.17.21 once,
    [findDuplicates] groups by install path and reports no duplicate:
    the six versioned entries are counted, each under a key of its
    own. *)
Theorem findDuplicates_flat_lockfile :
  findDuplicates (Scenario.lockOnly (LockParsed Scenario.flatThree)) Scenario.start
  = (Ok {| Lock.duplicates := [];
           Lock.dup_totalPackages := Some 6%nat;
           Lock.lockFileExists := true |},
     Scenario.start)
  /\ Lock.visited (or_nil (Lock.root Scenario.flatThree))
     = [ ("", "1.0.0");
         ("node_modules/a", "1.0.0");
         ("node_modules/a/node_modules/lodash", "4.17.20");
         ("node_modules/b", "2.0.0");
         ("node_modules/b/node_modules/lodash", "4.17.20");
         ("node_modules/lodash", "4.17.21") ].
Proof. split; vm_compute; reflexivity. Qed.

(** C7: without a lockfile [findDuplicates] returns, without an error,
    an object with [lockFileExists] false and no duplicates; the
    object has no [totalPackages] property. *)
Theorem findDuplicates_no_lockfile {W} (lockFile : W -> LockSource)
    (st : @State W) :
  lockFile (world st) = LockAbsent ->
  findDuplicates lockFile st
  = (Ok {| Lock.duplicates := [];
           Lock.dup_totalPackages := None;
           Lock.lockFileExists := false |}, st).
Proof.
  intros Habsent. unfold findDuplicates, bind, get. by rewrite Habsent.
Qed.

Lemma findDuplicates_no_lockfile_witness :
  Scenario.lockOnly LockAbsent (world Scenario.start) = LockAbsent
  /\ findDuplicates (Scenario.lockOnly LockAbsent) Scenario.start
     = (Ok {| Lock.duplicates := [];
              Lock.dup_totalPackages := None;
              Lock.lockFileExists := false |}, Scenario.start).
Proof.
  split; [reflexivity |].
  exact (findDuplicates_no_lockfile (Scenario.lockOnly LockAbsent)
           Scenario.start eq_refl).
Defined.

(** *** What the map holds after a walk *)

Lemma assoc_Map_set_eq n s m : assoc n (Lock.Map_set n s m) = Some s.
Proof.
  induction m as [| [k v] m IH]; cbn [Lock.Map_set assoc].
  - by rewrite decide_True.
  - destruct (decide (k = n)) as [-> | Hne]; cbn [assoc].
    + by rewrite decide_True.
    + by rewrite decide_False.
Qed.

Lemma assoc_Map_set_ne n k s m :
  k <> n -> assoc k (Lock.Map_set n s m) = assoc k m.
Proof.
  intros Hne. induction m as [| [k' v] m IH]; cbn [Lock.Map_set assoc].
  - by rewrite decide_False.
  - destruct (decide (k' = n)) as [-> | Hne']; cbn [assoc].
    + by rewrite !decide_False.
    + by rewrite IH.
Qed.

Lemma Set_add_elem v s : v ∈ Lock.Set_add v s.
Proof.
  unfold Lock.Set_add. case_bool_decide as Hin; [exact Hin |].
  apply elem_of_app. right. apply list_elem_of_here.
Qed.

Lemma Set_add_mono x v s : x ∈ s -> x ∈ Lock.Set_add v s.
Proof.
  intros Hx. unfold Lock.Set_add. case_bool_decide; [exact Hx |].
  apply elem_of_app. by left.
Qed.

Lemma record_holds n v st :
  exists s, Lock.Map_get n (Lock.versions (Lock.record n v st)) = Some s /\ v ∈ s.
Proof.
  unfold Lock.record, Lock.Map_has, Lock.Map_get. cbn [Lock.versions].
  case_bool_decide as Hhas.
  - destruct Hhas as [s0 Hs0]. rewrite Hs0, assoc_Map_set_eq.
    eexists. split; [reflexivity | apply Set_add_elem].
  - rewrite !assoc_Map_set_eq. eexists. split; [reflexivity | apply Set_add_elem].
Qed.

Lemma record_keeps n v st k x s :
  Lock.Map_get k (Lock.versions st) = Some s -> x ∈ s ->
  exists s', Lock.Map_get k (Lock.versions (Lock.record n v st)) = Some s' /\ x ∈ s'.
Proof.
  unfold Lock.record, Lock.Map_has, Lock.Map_get. cbn [Lock.versions].
  intros Hk Hx. destruct (decide (k = n)) as [-> | Hne].
  - rewrite bool_decide_eq_true_2 by (rewrite Hk; eauto).
    rewrite Hk, assoc_Map_set_eq. eexists. split; [reflexivity |].
    by apply Set_add_mono.
  - case_bool_decide as Hhas.
    + destruct Hhas as [s0 Hs0]. rewrite Hs0, assoc_Map_set_ne by done. eauto.
    + rewrite assoc_Map_set_eq, !assoc_Map_set_ne by done. eauto.
Qed.

(** Every occurrence recorded is in the map, under its key. *)
Lemma fold_record_holds occ st n v :
  (n, v) ∈ occ ->
  exists s,
    Lock.Map_get n (Lock.versions (fold_left Lock.record_occ occ st)) = Some s
    /\ v ∈ s.
Proof.
  induction occ as [| [k w] occ IH] using rev_ind;
    [intros Hin; by apply elem_of_nil in Hin |].
  rewrite elem_of_app, fold_left_app. cbn [fold_left]. unfold Lock.record_occ at 1.
  cbn [fst snd]. intros [Hin | Hin].
  - destruct (IH Hin) as (s & Hs & Hv). by eapply record_keeps.
  - apply list_elem_of_singleton in Hin. injection Hin as -> ->. apply record_holds.
Qed.

Lemma visited_app l1 l2 :
  Lock.visited (l1 ++ l2) = Lock.visited l1 ++ Lock.visited l2.
Proof. unfold Lock.visited. apply flat_map_app. Qed.

Lemma elem_of_visited p entries :
  p ∈ Lock.visited entries
  <-> exists e, e ∈ entries /\ p ∈ Lock.visitedEntry e.1 e.2.
Proof.
  unfold Lock.visited. rewrite list_elem_of_In, in_flat_map. split.
  - intros (e & He & Hp). exists e. by rewrite !list_elem_of_In.
  - intros (e & He & Hp). exists e. by rewrite <- !list_elem_of_In.
Qed.

(** An occurrence in the tree is one the walk visits. *)
Lemma occurs_visited n v entries :
  Lock.occurs n v entries -> (n, v) ∈ Lock.visited entries.
Proof.
  induction 1 as [entries deps Hin Htruthy | entries m version sub Hin _ IH];
    apply elem_of_visited; eexists; (split; [exact Hin |]); cbn [fst snd];
    rewrite visitedEntry_obj, elem_of_app.
  - left. rewrite Htruthy. apply list_elem_of_here.
  - right. exact IH.
Qed.

Lemma visited_occurs n v entries :
  (n, v) ∈ Lock.visited entries -> Lock.occurs n v entries.
Proof.
  assert (forall info name,
             (n, v) ∈ Lock.visitedEntry name info ->
             (exists deps, name = n /\ info = Lock.InfoObj (Some v) deps
                           /\ truthy_string v = true)
             \/ (exists version sub, info = Lock.InfoObj version (Some sub)
                                     /\ Lock.occurs n v sub)) as Hentry.
  { induction info as [r | version deps IH |] using Info_nested_ind; intros name;
      [intros Hin; by apply elem_of_nil in Hin | | intros Hin; by apply elem_of_nil in Hin].
    rewrite visitedEntry_obj, elem_of_app. intros [Hin | Hin].
    - left. destruct version as [v0 |]; [| by apply elem_of_nil in Hin].
      destruct (truthy_string v0) eqn:Ht; [| by apply elem_of_nil in Hin].
      apply list_elem_of_singleton in Hin. injection Hin as -> ->. eauto.
    - right. destruct deps as [l |]; [| by apply elem_of_nil in Hin].
      cbn [or_nil] in *. exists version, l. split; [reflexivity |].
      apply elem_of_visited in Hin as ([m i] & He & Hp). cbn [fst snd] in Hp.
      rewrite Forall_forall in IH. pose proof (IH (m, i) He m Hp) as Hcase.
      cbn [snd] in Hcase.
      destruct Hcase as [(d & -> & -> & Ht) | (ver & sub & -> & Hocc)].
      + by apply (Lock.occurs_here n v l d).
      + by apply (Lock.occurs_below n v l m ver sub). }
  intros Hin. apply elem_of_visited in Hin as ([m i] & He & Hp). cbn [fst snd] in Hp.
  destruct (Hentry i m Hp) as [(d & -> & -> & Ht) | (ver & sub & -> & Hocc)].
  - by apply (Lock.occurs_here n v entries d).
  - by apply (Lock.occurs_below n v entries m ver sub).
Qed.

Lemma occurs_nil n v : ~ Lock.occurs n v [].
Proof. intros Hocc. apply occurs_visited in Hocc. by apply elem_of_nil in Hocc. Qed.

(** C10: an entry without a truthy [version] adds nothing of its own
    to [totalPackages] nor to the map of versions, and its nested
    [dependencies] are walked all the same.  The walk of the entry is
    the walk of its subtree, and the walk goes on from the state the
    subtree leaves.  Every versioned entry below it is counted and has
    its version in the map under its name.  In the report,
    [totalPackages] counts the versioned entries before, below and
    after the entry, and a name that has a version below the entry
    and another version anywhere in the tree is a duplicate listing
    both. *)
Theorem versionless_entry_subtree_walked (name : string)
    (version : option string) (sub : option Lock.Deps) (before rest : Lock.Deps)
    (lockData : Lock.LockData) (report : Lock.Duplicates) :
  truthy_opt truthy_string version = false ->
  Lock.root lockData = Some (before ++ (name, Lock.InfoObj version sub) :: rest) ->
  Lock.scanLock lockData = Ok report ->
  (forall st,
      Lock.scanEntry name (Lock.InfoObj version sub) st = Lock.scanDeps sub st)
  /\ (forall st,
        Lock.scanDeps (Some ((name, Lock.InfoObj version sub) :: rest)) st
        = match Lock.scanDeps sub st with
          | Ok st1 => Lock.scanDeps (Some rest) st1
          | Throw e => Throw e
          end)
  /\ (forall st st1,
        Lock.scanDeps sub st = Ok st1 ->
        Lock.totalPackages st1
        = (Lock.totalPackages st + length (Lock.visited (or_nil sub)))%nat
        /\ forall n v,
             Lock.occurs n v (or_nil sub) ->
             exists s, Lock.Map_get n (Lock.versions st1) = Some s /\ v ∈ s)
  /\ Lock.dup_totalPackages report
     = Some (length (Lock.visited before) + length (Lock.visited (or_nil sub))
             + length (Lock.visited rest))%nat
  /\ (forall n v v',
        Lock.occurs n v (or_nil sub) ->
        Lock.occurs n v' (before ++ (name, Lock.InfoObj version sub) :: rest) ->
        v <> v' ->
        exists e,
          e ∈ Lock.duplicates report /\ Lock.name e = n
          /\ v ∈ Lock.dup_versions e /\ v' ∈ Lock.dup_versions e).
Proof.
  intros Hfalsy Hroot Hscan.
  assert (forall st,
             Lock.scanEntry name (Lock.InfoObj version sub) st = Lock.scanDeps sub st)
    as Hentry.
  { intros st. rewrite scanEntry_obj. destruct version as [v |]; [| reflexivity].
    cbn in Hfalsy. by rewrite Hfalsy. }
  assert (Lock.visitedEntry name (Lock.InfoObj version sub)
          = Lock.visited (or_nil sub)) as Hvisited.
  { rewrite visitedEntry_obj. destruct version as [v |]; [| reflexivity].
    cbn in Hfalsy. by rewrite Hfalsy. }
  split; [exact Hentry |]. split.
  { intros st. cbn [Lock.scanDeps Lock.forEach fst snd]. rewrite Hentry.
    by destruct (Lock.scanDeps sub st). }
  split.
  { intros st st1 Hsub. rewrite scanDeps_visited in Hsub.
    destruct (Lock.null_free_deps (or_nil sub)); [| discriminate Hsub].
    injection Hsub as <-. split; [apply totalPackages_fold |].
    intros n v Hocc. by apply fold_record_holds, occurs_visited. }
  rewrite scanLock_groups in Hscan. cbv zeta in Hscan.
  destruct (Lock.null_free_deps _); [| discriminate Hscan].
  injection Hscan as <-. rewrite Hroot. cbn [or_nil Lock.dup_totalPackages Lock.duplicates].
  set (tree := before ++ (name, Lock.InfoObj version sub) :: rest).
  assert (Lock.visited tree
          = Lock.visited before ++ Lock.visited (or_nil sub) ++ Lock.visited rest)
    as Htree.
  { subst tree. rewrite visited_app. f_equal.
    change (Lock.visited ((name, Lock.InfoObj version sub) :: rest))
      with (Lock.visitedEntry name (Lock.InfoObj version sub) ++ Lock.visited rest).
    by rewrite Hvisited. }
  split.
  { rewrite Htree, !length_app. f_equal. lia. }
  intros n v v' Hsub Hany Hne.
  assert (Lock.occurs n v tree) as Hv.
  { destruct sub as [l |]; [| by apply occurs_nil in Hsub].
    apply (Lock.occurs_below n v tree name version l); [| exact Hsub].
    subst tree. apply elem_of_app. right. apply list_elem_of_here. }
  apply occurs_visited in Hv, Hany.
  destruct (duplicatesSpec_exact (Lock.visited tree)) as (_ & Hlisted & Hentries).
  assert (n ∈ map Lock.name (Lock.duplicatesSpec (Lock.visited tree))) as Hn
    by (apply Hlisted; eauto).
  apply list_elem_of_In, in_map_iff in Hn as (e & Hname & He).
  apply list_elem_of_In in He. exists e. split; [exact He |]. split; [exact Hname |].
  destruct (Hentries e He) as (_ & _ & _ & Hversions).
  rewrite !Hversions, Hname. done.
Qed.

Lemma versionless_entry_subtree_walked_witness :
  let sub := Some [ ("lodash", Scenario.pkg "4.17.20" None);
                    ("b", Scenario.pkg "1.0.0"
                            (Some [("lodash", Scenario.pkg "4.17.21" None)])) ] in
  let report :=
    {| Lock.duplicates :=
         [ {| Lock.name := "lodash";
              Lock.dup_versions := ["4.17.20"; "4.17.21"];
              Lock.count := 2 |} ];
       Lock.dup_totalPackages := Some 3%nat;
       Lock.lockFileExists := true |} in
  truthy_opt truthy_string None = false
  /\ Lock.root Scenario.underVersionless
     = Some ([] ++ ("app", Lock.InfoObj None sub) :: [])
  /\ Lock.scanLock Scenario.underVersionless = Ok report
  /\ Lock.occurs "lodash" "4.17.20" (or_nil sub)
  /\ Lock.occurs "lodash" "4.17.21" ([] ++ ("app", Lock.InfoObj None sub) :: [])
  /\ exists e,
       e ∈ Lock.duplicates report /\ Lock.name e = "lodash"
       /\ "4.17.20" ∈ Lock.dup_versions e /\ "4.17.21" ∈ Lock.dup_versions e.
Proof.
  intros sub report.
  assert (Lock.scanLock Scenario.underVersionless = Ok report) as Hscan
    by (vm_compute; reflexivity).
  assert (Lock.occurs "lodash" "4.17.20" (or_nil sub)) as Hnear.
  { apply (Lock.occurs_here _ _ _ None); [apply list_elem_of_here | reflexivity]. }
  assert (Lock.occurs "lodash" "4.17.21" (or_nil sub)) as Hdeep.
  { apply (Lock.occurs_below _ _ _ "b" (Some "1.0.0")
             [("lodash", Scenario.pkg "4.17.21" None)]).
    - apply list_elem_of_further, list_elem_of_here.
    - apply (Lock.occurs_here _ _ _ None); [apply list_elem_of_here | reflexivity]. }
  assert (Lock.occurs "lodash" "4.17.21" ([] ++ ("app", Lock.InfoObj None sub) :: []))
    as Hany.
  { apply (Lock.occurs_below _ _ _ "app" None
             [ ("lodash", Scenario.pkg "4.17.20" None);
               ("b", Scenario.pkg "1.0.0"
                       (Some [("lodash", Scenario.pkg "4.17.21" None)])) ]);
      [apply list_elem_of_here | exact Hdeep]. }
  split; [reflexivity |]. split; [reflexivity |]. split; [exact Hscan |].
  split; [exact Hnear |]. split; [exact Hany |].
  destruct (versionless_entry_subtree_walked "app" None sub [] []
              Scenario.underVersionless report eq_refl eq_refl Hscan)
    as (_ & _ & _ & _ & Hdup).
  apply (Hdup "lodash" "4.17.20" "4.17.21" Hnear Hany). discriminate.
Defined.

(** ** Theorems: the registry queries *)

Section RegistryFacts.

Context {W : Type}.
Variable execSync : Command -> W -> ExecOutcome * W.
Variable JSON_parse : string -> option json.

Lemma checkOutdated_result (st : @State W) :
  checkOutdated execSync JSON_parse st
  = (Ok (match Registry.parsed JSON_parse (execSync NpmOutdatedJson (world st)).1 with
         | Some v => if Registry.is_null v then JObj [] else Registry.without_chalk v
         | None => JObj []
         end),
     after execSync NpmOutdatedJson st).
Proof.
  unfold checkOutdated, after, try_catch, bind, exec, parse, lift, ret, throw,
    Registry.parsed, Registry.output.
  destruct (execSync NpmOutdatedJson (world st)) as [[out | e] w]; cbn [fst].
  - destruct (JSON_parse out) as [v |]; [| reflexivity].
    destruct v; reflexivity.
  - destruct (stdout e) as [t |] eqn:Et; cbn [truthy_opt]; [| reflexivity].
    destruct (truthy_string t); [| reflexivity].
    change (default "" (Some t)) with t.
    destruct (JSON_parse t) as [v |]; [| reflexivity].
    destruct v; reflexivity.
Qed.

Lemma checkVulnerabilities_result (st : @State W) :
  checkVulnerabilities execSync JSON_parse st
  = (Ok (match Registry.parsed JSON_parse (execSync NpmAuditJson (world st)).1 with
         | Some v => if Registry.is_null v then emptyAudit else Registry.audit_of v
         | None => emptyAudit
         end),
     after execSync NpmAuditJson st).
Proof.
  unfold checkVulnerabilities, after, try_catch, bind, exec, parse, lift, ret,
    throw, auditReport, Registry.parsed, Registry.output.
  destruct (execSync NpmAuditJson (world st)) as [[out | e] w]; cbn [fst].
  - destruct (JSON_parse out) as [v |]; [| reflexivity].
    destruct v; reflexivity.
  - destruct (stdout e) as [t |] eqn:Et; cbn [truthy_opt]; [| reflexivity].
    destruct (truthy_string t); [| reflexivity].
    change (default "" (Some t)) with t.
    destruct (JSON_parse t) as [v |]; [| reflexivity].
    destruct v; reflexivity.
Qed.

End RegistryFacts.

Lemma assoc_remove_key_eq {A} k (l : list (string * A)) :
  assoc k (remove_key k l) = None.
Proof.
  unfold remove_key. induction l as [| [k' v] l IH]; [reflexivity |].
  destruct (decide (k' = k)) as [-> | Hne].
  - by rewrite filter_cons_False by (cbn; congruence).
  - rewrite filter_cons_True by done. cbn [assoc]. by rewrite decide_False.
Qed.

Lemma assoc_remove_key_ne {A} k k' (l : list (string * A)) :
  k' <> k -> assoc k' (remove_key k l) = assoc k' l.
Proof.
  intros Hne. unfold remove_key. induction l as [| [k0 v] l IH]; [reflexivity |].
  destruct (decide (k0 = k)) as [-> | Hne0].
  - rewrite filter_cons_False by (cbn; congruence). cbn [assoc].
    by rewrite decide_False.
  - rewrite filter_cons_True by done. cbn [assoc]. by rewrite IH.
Qed.

(** C4, as stated, fails: [npm outdated --json] exits with status 1
    after writing [null]; the text parses, and [checkOutdated] returns
    the empty object, not the parsed value. *)
Lemma checkOutdated_null_output :
  let execSync := Outside.always (Outside.exit1 "null") in
  let JSON_parse := Outside.parseTable Outside.texts in
  JSON_parse "null" = Some JNull
  /\ (checkOutdated execSync JSON_parse Scenario.start).1 = Ok (JObj [])
  /\ ~ failed_output_returned execSync JSON_parse Scenario.start.
Proof.
  cbv zeta. split; [reflexivity |]. split; [reflexivity |].
  intros Hclaim.
  specialize (Hclaim _ "null" JNull eq_refl eq_refl eq_refl eq_refl).
  vm_compute in Hclaim. discriminate Hclaim.
Qed.

(** C4, amended: neither query ever throws, whatever the command did.
    Each parses the standard output of the command, also when the
    command failed, and returns the report built from the parsed value
    unless that value is [null]; the empty result comes back exactly
    when there is no output to parse, when parsing fails, or when the
    output parses to [null]. *)
Theorem registry_queries_non_fatal {W} (execSync : Command -> W -> ExecOutcome * W)
    (JSON_parse : string -> option json) (st : @State W) :
  (checkOutdated execSync JSON_parse st).1
  = Ok (match Registry.parsed JSON_parse (execSync NpmOutdatedJson (world st)).1 with
        | Some v => if Registry.is_null v then JObj [] else Registry.without_chalk v
        | None => JObj []
        end)
  /\ (checkVulnerabilities execSync JSON_parse st).1
     = Ok (match Registry.parsed JSON_parse (execSync NpmAuditJson (world st)).1 with
           | Some v => if Registry.is_null v then emptyAudit else Registry.audit_of v
           | None => emptyAudit
           end).
Proof.
  by rewrite checkOutdated_result, checkVulnerabilities_result.
Qed.

(** C8: whenever the command's output parses to a report (a mapping
    from package names), [checkOutdated] returns that report without
    the entry of chalk and with every other entry as it was; when
    chalk is the only entry, the returned mapping is empty. *)
Theorem checkOutdated_drops_chalk {W} (execSync : Command -> W -> ExecOutcome * W)
    (JSON_parse : string -> option json) (st : @State W)
    (report : list (string * json)) :
  Registry.parsed JSON_parse (execSync NpmOutdatedJson (world st)).1
    = Some (JObj report) ->
  exists kept,
    (checkOutdated execSync JSON_parse st).1 = Ok (JObj kept)
    /\ assoc "chalk" kept = None
    /\ (forall k, k <> "chalk" -> assoc k kept = assoc k report)
    /\ (forall entry, report = [("chalk", entry)] -> kept = []).
Proof.
  intros Hparsed. exists (remove_key "chalk" report).
  rewrite checkOutdated_result, Hparsed. cbn [fst Registry.is_null Registry.without_chalk].
  split; [reflexivity |]. split; [apply assoc_remove_key_eq |].
  split; [intros k Hk; by apply assoc_remove_key_ne |].
  intros entry ->. reflexivity.
Qed.

Lemma checkOutdated_drops_chalk_witness :
  Registry.parsed (Outside.parseTable Outside.texts)
    (Outside.always (Outside.exit1 Outside.chalkOnly) NpmOutdatedJson
       (world Scenario.start)).1
  = Some (JObj [("chalk", Outside.chalkEntry)])
  /\ exists kept,
    (checkOutdated (Outside.always (Outside.exit1 Outside.chalkOnly))
       (Outside.parseTable Outside.texts) Scenario.start).1 = Ok (JObj kept)
    /\ assoc "chalk" kept = None
    /\ (forall k, k <> "chalk" ->
        assoc k kept = assoc k [("chalk", Outside.chalkEntry)])
    /\ (forall entry, [("chalk", Outside.chalkEntry)] = [("chalk", entry)] ->
        kept = []).
Proof.
  split; [reflexivity |].
  exact (checkOutdated_drops_chalk
           (Outside.always (Outside.exit1 Outside.chalkOnly))
           (Outside.parseTable Outside.texts) Scenario.start
           [("chalk", Outside.chalkEntry)] eq_refl).
Defined.

(** ** Theorems: removal of unused packages *)

Section RemovalFacts.

Context {W : Type}.
Variable execSync : Command -> W -> ExecOutcome * W.
Variable depcheck : W -> DepcheckOutcome * W.

Lemma removeBatches_step (l : list string) (i : nat) (st : @State W) :
  removeBatches execSync l i st
  = if decide (i < length l)%nat then
      let batch := slice l i (i + batchSize) in
      bind
        (try_catch
           (bind (exec execSync (NpmUninstall batch)) (fun _ => ret tt))
           (fun error =>
              bind (console_log (MsgFailedRemove batch)) (fun _ => throw error)))
        (fun _ => removeBatches execSync l (i + batchSize)) st
    else ret tt st.
Proof.
  rewrite removeBatches_equation_1.
  destruct (decide (i < length l)%nat); reflexivity.
Qed.

Lemma slice_take_drop {A} (l : list A) i n : slice l i (i + n) = take n (drop i l).
Proof. unfold slice. f_equal. lia. Qed.

Lemma batches_cons l :
  l <> [] -> batches l = take batchSize l :: batches (drop batchSize l).
Proof. destruct l; [done |]. intros _. by simp batches. Qed.

(** Induction along the batches: a non-empty list loses its first
    [batchSize] names. *)
Lemma batches_ind (P : list string -> Prop) :
  P [] ->
  (forall l, l <> [] -> P (drop batchSize l) -> P l) ->
  forall l, P l.
Proof.
  intros Hnil Hstep l. remember (length l) as n eqn:Hn. revert l Hn.
  induction n as [n IH] using lt_wf_ind. intros l Hn.
  destruct l as [| x l']; [exact Hnil |].
  apply Hstep; [done |].
  apply (IH (length (drop batchSize (x :: l')))); [| reflexivity].
  rewrite length_drop. subst n. unfold batchSize. cbn [length]. lia.
Qed.

Lemma batches_bound l :
  Forall (fun b => 0 < length b <= batchSize)%nat (batches l).
Proof.
  induction l as [| l Hne IH] using batches_ind; [simp batches; constructor |].
  rewrite (batches_cons _ Hne). constructor; [| exact IH].
  rewrite length_take. destruct l; [done |]. unfold batchSize. cbn [length]. lia.
Qed.

Lemma batches_concat l : concat (batches l) = l.
Proof.
  induction l as [| l Hne IH] using batches_ind; [by simp batches |].
  rewrite (batches_cons _ Hne). cbn [concat]. rewrite IH. apply take_drop.
Qed.



(** One turn of the loop, by what the command of the batch did. *)
Lemma removeBatches_cases (l : list string) (i : nat) (st : @State W) :
  removeBatches execSync l i st
  = if decide (i < length l)%nat then
      let b := take batchSize (drop i l) in
      match execSync (NpmUninstall b) (world st) with
      | (Exited out, w) =>
          removeBatches execSync l (i + batchSize)
            (emit (Exec (NpmUninstall b) (Exited out)) (set_world w st))
      | (Failed e, w) =>
          (Throw e,
           emit (Log (MsgFailedRemove b))
             (emit (Exec (NpmUninstall b) (Failed e)) (set_world w st)))
      end
    else (Ok tt, st).
Proof.
  rewrite removeBatches_step. destruct (decide (i < length l)%nat); [| reflexivity].
  cbv zeta. rewrite slice_take_drop.
  unfold bind, try_catch, exec, console_log, throw, ret.
  destruct (execSync _ (world st)) as [[out | e] w]; reflexivity.
Qed.

(** The loop runs the batches in order and stops at the first one
    whose command fails. *)
Lemma removeBatches_trace (l : list string) (i : nat) (st : @State W) :
  exists done rest outs,
    batches (drop i l) = done ++ rest
    /\ length outs = length done
    /\ protectedPackages (removeBatches execSync l i st).2 = protectedPackages st
    /\ events (removeBatches execSync l i st).2
       = events st
         ++ zip_with (fun b out => Exec (NpmUninstall b) (Exited out)) done outs
         ++ match (removeBatches execSync l i st).1, rest with
            | Throw e, b :: _ =>
                [Exec (NpmUninstall b) (Failed e); Log (MsgFailedRemove b)]
            | _, _ => []
            end
    /\ match (removeBatches execSync l i st).1 with
       | Ok _ => rest = []
       | Throw _ => rest <> []
       end.
Proof.
  remember (length l - i)%nat as n eqn:Hn. revert i st Hn.
  induction n as [n IH] using lt_wf_ind. intros i st Hn.
  rewrite removeBatches_cases. destruct (decide (i < length l)%nat) as [Hlt | Hge].
  - assert (drop i l <> []) as Hne.
    { intros Hnil. apply (f_equal length) in Hnil.
      rewrite length_drop in Hnil. cbn in Hnil. lia. }
    rewrite (batches_cons _ Hne), drop_drop. cbv zeta.
    set (b := take batchSize (drop i l)).
    destruct (execSync (NpmUninstall b) (world st)) as [[out | e] w] eqn:Ex.
    + set (st1 := emit (Exec (NpmUninstall b) (Exited out)) (set_world w st)).
      destruct (IH (length l - (i + batchSize))%nat
                  ltac:(unfold batchSize; lia) (i + batchSize)%nat st1 eq_refl)
        as (done & rest & outs & Hb & Hlen & Hprot & Hev & Hres).
      exists (b :: done), rest, (out :: outs).
      split; [by rewrite Hb |]. split; [cbn; lia |].
      split; [by rewrite Hprot |]. split; [| exact Hres].
      rewrite Hev. subst st1. cbn [events emit set_world zip_with].
      by rewrite <- !app_assoc.
    + exists [], (b :: batches (drop (i + batchSize) l)), [].
      cbn [fst snd]. split; [reflexivity |]. split; [reflexivity |].
      split; [reflexivity |]. split; [| done].
      cbn [events emit set_world zip_with app]. by rewrite <- app_assoc.
  - assert (drop i l = []) as -> by (apply drop_ge; lia).
    exists [], [], []. cbn [fst snd]. simp batches.
    repeat split; try done. cbn. by rewrite app_nil_r.
Qed.

(** *** What a run adds to the record of events *)

Lemma emit_add ev (st : @State W) : emit ev st = add_events [ev] st.
Proof. reflexivity. Qed.

Lemma add_events_add tr1 tr2 (st : @State W) :
  add_events tr2 (add_events tr1 st) = add_events (tr1 ++ tr2) st.
Proof. unfold add_events. cbn. by rewrite app_assoc. Qed.

Lemma add_events_nil (st : @State W) : add_events [] st = st.
Proof. destruct st. unfold add_events. cbn. by rewrite app_nil_r. Qed.

Lemma trace_since_add tr (st st' : @State W) :
  events st' = events st ++ tr -> trace_since st st' = tr.
Proof. intros Hev. unfold trace_since. rewrite Hev. apply drop_app_length. Qed.

Lemma commands_app tr1 tr2 : commands (tr1 ++ tr2) = commands tr1 ++ commands tr2.
Proof. unfold commands. apply flat_map_app. Qed.

Lemma commands_logs logs : commands (map Log logs) = [].
Proof. induction logs; [reflexivity | assumption]. Qed.

Lemma uninstalled_app tr1 tr2 :
  uninstalled (tr1 ++ tr2) = uninstalled tr1 ++ uninstalled tr2.
Proof. unfold uninstalled. by rewrite commands_app, flat_map_app. Qed.

Lemma uninstalled_logs logs : uninstalled (map Log logs) = [].
Proof. unfold uninstalled. by rewrite commands_logs. Qed.

Lemma forEach_log_run f l (st : @State W) :
  forEach_log f l st = (Ok tt, add_events (map (fun x => Log (f x)) l) st).
Proof.
  revert st. induction l as [| x l IH]; intros st; cbn [forEach_log map].
  - by rewrite add_events_nil.
  - unfold bind, console_log. rewrite IH, emit_add, add_events_add. reflexivity.
Qed.

(** The removable names of a depcheck result. *)
Lemma checkUnused_resolved (st : @State W) result w :
  depcheck (world st) = (Resolved result, w) ->
  exists logs,
    checkUnused depcheck st
    = (Ok {| un_dependencies :=
               List.filter (safe (protectedPackages st))
                 (or_nil (dc_dependencies result));
             un_devDependencies :=
               List.filter (safe (protectedPackages st))
                 (or_nil (dc_devDependencies result));
             un_missing := or_empty (dc_missing result);
             un_using := or_empty (dc_using result);
             protected_dependencies :=
               List.filter (has (protectedPackages st))
                 (or_nil (dc_dependencies result));
             protected_devDependencies :=
               List.filter (has (protectedPackages st))
                 (or_nil (dc_devDependencies result)) |},
       add_events (Depcheck (Resolved result) :: map Log logs) (set_world w st)).
Proof.
  intros Hdep. unfold checkUnused, try_catch, bind at 1, run_depcheck.
  rewrite Hdep. unfold bind at 1, get. cbn [protectedPackages emit set_world].
  set (dyn := List.filter dynamic _).
  unfold bind at 1. destruct (0 <? length dyn)%nat.
  - exists (MsgDynamicNote :: map MsgBullet dyn ++ [MsgProtectHint]).
    unfold bind, console_log. rewrite forEach_log_run. unfold ret.
    rewrite !emit_add, !add_events_add. cbn [app map].
    by rewrite map_app, map_map.
  - exists []. unfold ret. by rewrite emit_add.
Qed.

Lemma checkUnused_rejected (st : @State W) e w :
  depcheck (world st) = (Rejected e, w) ->
  checkUnused depcheck st
  = (Throw (Error ("Error checking unused dependencies: " +:+ message e)),
     add_events [Depcheck (Rejected e)] (set_world w st)).
Proof.
  intros Hdep. unfold checkUnused, try_catch, bind at 1, run_depcheck.
  by rewrite Hdep.
Qed.

Lemma removeUnused_resolved force (st : @State W) result w :
  depcheck (world st) = (Resolved result, w) ->
  let allUnused :=
    List.filter (safe (protectedPackages st)) (or_nil (dc_dependencies result))
    ++ List.filter (safe (protectedPackages st)) (or_nil (dc_devDependencies result)) in
  exists logs,
    let st1 :=
      add_events (Depcheck (Resolved result) :: map Log logs) (set_world w st) in
    removeUnused execSync depcheck force st
    = match allUnused with
      | [] => (Ok tt, st1)
      | _ :: _ =>
          let r := removeBatches execSync allUnused 0 st1 in
          match r.1 with
          | Ok _ => (Ok tt, emit (Log (MsgRemoved (length allUnused))) r.2)
          | Throw e => (Throw e, r.2)
          end
      end.
Proof.
  intros Hdep allUnused.
  destruct (checkUnused_resolved st result w Hdep) as [logs0 Hcu].
  unfold removeUnused, bind at 1. rewrite Hcu.
  cbn [un_dependencies un_devDependencies protected_dependencies
       protected_devDependencies].
  fold allUnused. destruct allUnused as [| x l] eqn:Hall; cbn [length Nat.eqb].
  - match goal with
    | |- context [andb ?c (negb force)] => set (cond := andb c (negb force))
    end.
    match goal with
    | |- context [forEach_log MsgProtectedBullet ?ps] => set (prot := ps)
    end.
    match goal with
    | |- context [MsgProtectedKept ?k] => set (count := k)
    end.
    exists (logs0 ++ MsgNoSafeUnused ::
              (if cond then MsgProtectedKept count :: map MsgProtectedBullet prot
                            ++ [MsgForceHint]
               else [])).
    cbv zeta. unfold bind at 1, console_log at 1. destruct cond.
    + unfold bind, console_log. rewrite forEach_log_run. unfold ret.
      rewrite !emit_add, !add_events_add. do 2 f_equal. cbn [app].
      rewrite !map_app. cbn [map]. rewrite map_app, map_map.
      reflexivity.
    + unfold ret. rewrite emit_add, add_events_add. do 2 f_equal. cbn [app].
      by rewrite map_app.
  - exists (logs0 ++ MsgFound (S (length l)) :: map MsgBullet (x :: l)).
    cbv zeta. unfold bind at 1, console_log at 1.
    unfold bind at 1. rewrite forEach_log_run.
    rewrite emit_add, !add_events_add.
    match goal with
    | |- context [add_events ?tr (set_world w st)] =>
        replace tr with
          (Depcheck (Resolved result)
             :: map Log (logs0 ++ MsgFound (S (length l)) :: map MsgBullet (x :: l)))
    end.
    2:{ cbn [app]. f_equal. rewrite map_app. cbn [map]. by rewrite map_map. }
    unfold bind at 1.
    destruct (removeBatches execSync (x :: l) 0 _) as [[[] | e] st2]; reflexivity.
Qed.

Lemma commands_ran done outs :
  commands (zip_with (fun b out => Exec (NpmUninstall b) (Exited out)) done outs)
  = zip_with (fun b out => (NpmUninstall b, Exited out)) done outs.
Proof.
  revert outs. induction done as [| b done IH]; intros [| out outs];
    cbn; try reflexivity. by rewrite <- IH.
Qed.

(** What [removeUnused] runs when depcheck resolves: the batches of
    the removable names in order, up to and including the first one
    that fails. *)
Lemma removeUnused_trace force (st : @State W) result w :
  depcheck (world st) = (Resolved result, w) ->
  let allUnused :=
    List.filter (safe (protectedPackages st)) (or_nil (dc_dependencies result))
    ++ List.filter (safe (protectedPackages st)) (or_nil (dc_devDependencies result)) in
  let run := removeUnused execSync depcheck force st in
  exists done rest outs,
    batches allUnused = done ++ rest
    /\ length outs = length done
    /\ commands (trace_since st run.2)
       = zip_with (fun b out => (NpmUninstall b, Exited out)) done outs
         ++ match run.1, rest with
            | Throw e, b :: _ => [(NpmUninstall b, Failed e)]
            | _, _ => []
            end
    /\ match run.1 with
       | Ok _ => rest = []
       | Throw _ => rest <> []
       end.
Proof.
  intros Hdep allUnused run.
  destruct (removeUnused_resolved force st result w Hdep) as [logs Hrun].
  fold allUnused in Hrun. cbv zeta in Hrun. subst run. rewrite Hrun. clear Hrun.
  set (st1 := add_events _ (set_world w st)).
  destruct allUnused as [| x l] eqn:Hall.
  - exists [], [], []. simp batches. cbn [fst snd].
    rewrite (trace_since_add (Depcheck (Resolved result) :: map Log logs))
      by reflexivity.
    repeat split; try done. change (commands (map Log logs) = []).
    apply commands_logs.
  - destruct (removeBatches_trace (x :: l) 0 st1)
      as (done & rest & outs & Hb & Hlen & _ & Hev & Hres).
    rewrite drop_0 in Hb. exists done, rest, outs.
    split; [exact Hb |]. split; [exact Hlen |].
    destruct (removeBatches execSync (x :: l) 0 st1) as [[[] | e] st2];
      cbn [fst snd] in *.
    + subst rest. split; [| done].
      erewrite trace_since_add.
      2:{ cbn [events emit]. rewrite Hev. subst st1. cbn [events add_events set_world].
          rewrite <- !app_assoc. reflexivity. }
      cbn [app]. change (Depcheck ?o :: ?t) with ([Depcheck o] ++ t).
      rewrite !commands_app, commands_logs, commands_ran. cbn. by rewrite !app_nil_r.
    + split; [| exact Hres].
      erewrite trace_since_add.
      2:{ rewrite Hev. subst st1. cbn [events add_events set_world].
          rewrite <- !app_assoc. reflexivity. }
      cbn [app]. change (Depcheck ?o :: ?t) with ([Depcheck o] ++ t).
      rewrite !commands_app, commands_logs, commands_ran.
      destruct rest as [| b rest']; [done |]. reflexivity.
Qed.

Lemma removeUnused_rejected force (st : @State W) e w :
  depcheck (world st) = (Rejected e, w) ->
  removeUnused execSync depcheck force st
  = (Throw (Error ("Error checking unused dependencies: " +:+ message e)),
     add_events [Depcheck (Rejected e)] (set_world w st)).
Proof.
  intros Hdep. unfold removeUnused, bind at 1.
  by rewrite (checkUnused_rejected st e w Hdep).
Qed.

Lemma safe_vetoed protected p : vetoed protected p -> safe protected p = false.
Proof.
  unfold vetoed, safe. intros Hv. case_bool_decide; [reflexivity |].
  destruct Hv as [Hin | [-> | [-> | ->]]]; [done | | |];
    rewrite ?orb_true_r; reflexivity.
Qed.

Lemma not_removable protected p l :
  vetoed protected p -> p ∉ List.filter (safe protected) l.
Proof.
  intros Hv Hin. apply list_elem_of_In, filter_In in Hin as [_ Hsafe].
  rewrite (safe_vetoed _ _ Hv) in Hsafe. discriminate.
Qed.

Lemma elem_of_batches (x : string) b l : b ∈ batches l -> x ∈ b -> x ∈ l.
Proof.
  intros Hb Hx. rewrite <- (batches_concat l).
  apply list_elem_of_In, in_concat. exists b. by rewrite <- !list_elem_of_In.
Qed.

Lemma uninstalled_ran batch done outs :
  batch ∈ flat_map (fun co : Command * ExecOutcome =>
                      match co.1 with NpmUninstall b => [b] | _ => [] end)
            (zip_with (fun b out => (NpmUninstall b, Exited out)) done outs) ->
  batch ∈ done.
Proof.
  revert outs. induction done as [| b done IH]; intros [| out outs]; cbn;
    try (intros Hin; by apply elem_of_nil in Hin).
  rewrite !elem_of_cons. intros [-> | Hin]; [by left | right; eauto].
Qed.

(** What the filter does with the set the checker holds when it
    runs: a name in that set, or one that starts with [@types/] or
    contains [eslint] or [babel], is in neither removable list
    [checkUnused] returns and in no batch [removeUnused] passes to
    [npm uninstall], whatever depcheck reports and whatever [force]
    is; a name of the set that depcheck flags as unused is in the
    protected list of the report. *)
Lemma protected_never_removed (st : @State W) (force : bool) (p : string) :
  vetoed (protectedPackages st) p ->
  (forall report,
      (checkUnused depcheck st).1 = Ok report ->
      (p ∉ un_dependencies report) /\ (p ∉ un_devDependencies report))
  /\ (forall batch,
        batch ∈ uninstalled
                  (trace_since st (removeUnused execSync depcheck force st).2) ->
        p ∉ batch)
  /\ (p ∈ protectedPackages st ->
      forall report result w,
        depcheck (world st) = (Resolved result, w) ->
        (checkUnused depcheck st).1 = Ok report ->
        (p ∈ or_nil (dc_dependencies result) -> p ∈ protected_dependencies report)
        /\ (p ∈ or_nil (dc_devDependencies result) ->
            p ∈ protected_devDependencies report)).
Proof.
  intros Hv. destruct (depcheck (world st)) as [[result | e] w] eqn:Hdep.
  - destruct (checkUnused_resolved st result w Hdep) as [logs Hcu].
    rewrite Hcu. cbn [fst]. split; [| split].
    + intros report [= <-]. cbn [un_dependencies un_devDependencies].
      split; by apply not_removable.
    + intros batch Hbatch Hp.
      destruct (removeUnused_trace force st result w Hdep)
        as (done & rest & outs & Hb & _ & Hcmd & _).
      cbv zeta in Hcmd, Hb. unfold uninstalled in Hbatch.
      rewrite Hcmd, flat_map_app, elem_of_app in Hbatch.
      assert (batch ∈ done ++ rest) as Hin.
      { rewrite elem_of_app. destruct Hbatch as [Hran | Hfail].
        - left. by apply uninstalled_ran in Hran.
        - right. destruct (removeUnused execSync depcheck force st).1 as [| e];
            [by apply elem_of_nil in Hfail |].
          destruct rest as [| b rest']; [by apply elem_of_nil in Hfail |].
          cbn in Hfail. apply list_elem_of_singleton in Hfail as ->.
          apply list_elem_of_here. }
      rewrite <- Hb in Hin. pose proof (elem_of_batches p _ _ Hin Hp) as Hall.
      apply elem_of_app in Hall as [Hd | Hd]; by apply not_removable in Hd.
    + intros Hprot report result' w' [= <- <-] [= <-].
      cbn [protected_dependencies protected_devDependencies].
      split; intros Hflag; apply list_elem_of_In, filter_In;
        (split; [by apply list_elem_of_In | by apply bool_decide_eq_true_2]).
  - rewrite (checkUnused_rejected st e w Hdep), (removeUnused_rejected force st e w Hdep).
    cbn [fst snd]. split; [intros report [=] |]. split; [| intros _ ? ? ? [=]].
    intros batch Hbatch.
    rewrite (trace_since_add [Depcheck (Rejected e)]) in Hbatch by reflexivity.
    by apply elem_of_nil in Hbatch.
Qed.

End RemovalFacts.

Lemma protected_never_removed_witness :
  let st := Scenario.start in
  let execSync := Outside.always (Exited "") in
  let depcheck := Outside.finds Outside.someUnused in
  vetoed (protectedPackages st) "react"
  /\ (forall report,
        (checkUnused depcheck st).1 = Ok report ->
        ("react" ∉ un_dependencies report) /\ ("react" ∉ un_devDependencies report))
  /\ (forall batch,
        batch ∈ uninstalled
                  (trace_since st (removeUnused execSync depcheck true st).2) ->
        "react" ∉ batch).
Proof.
  assert (vetoed (protectedPackages Scenario.start) "react") as Hv.
  { left. cbn [protectedPackages Scenario.start].
    assert (bool_decide ("react" ∈ builtinProtected) = true) as Hin
      by (vm_compute; reflexivity).
    by apply bool_decide_eq_true in Hin. }
  split; [exact Hv |].
  destruct (protected_never_removed (Outside.always (Exited ""))
              (Outside.finds Outside.someUnused) Scenario.start true "react" Hv)
    as (Hlists & Hbatches & _).
  split; [exact Hlists | exact Hbatches].
Defined.

(** ** Theorems: fix orchestration *)

Section FixFacts.

Context {W : Type}.
Variable execSync : Command -> W -> ExecOutcome * W.
Variable depcheck : W -> DepcheckOutcome * W.

Lemma attempt_stage requested c (action : @State W -> Res unit * @State W)
    results (st : @State W) :
  attempt requested c action results st
  = (Ok (stage requested c action (results, st)).1,
     (stage requested c action (results, st)).2).
Proof.
  unfold attempt, stage. destruct requested; [| reflexivity].
  unfold bind at 1, console_log, try_catch, bind, ret. cbn [fst snd].
  destruct (action _) as [[[] | e] st']; reflexivity.
Qed.

Lemma fixIssues_stages options (st : @State W) :
  fixIssues execSync depcheck options st
  = let acc :=
      stage (requested options Duplicated) Duplicated (deduplicate execSync)
        (stage (requested options Vulnerabilities) Vulnerabilities
           (fixVulnerabilities execSync)
           (stage (requested options Outdated) Outdated (updateOutdated execSync)
              (stage (requested options Unused) Unused
                 (removeUnused execSync depcheck (opt_force options))
                 ([], st)))) in
    (Ok acc.1, acc.2).
Proof.
  unfold fixIssues, requested. cbv zeta.
  unfold bind at 1. rewrite attempt_stage.
  unfold bind at 1. rewrite attempt_stage.
  unfold bind at 1. rewrite attempt_stage.
  unfold bind at 1. rewrite attempt_stage.
  unfold ret. repeat rewrite <- surjective_pairing. reflexivity.
Qed.

Lemma exec_then_log c m (st : @State W) :
  let o := (execSync c (world st)).1 in
  bind (exec execSync c) (fun _ => console_log m) st
  = (match o with Exited _ => Ok tt | Failed e => Throw e end,
     add_events
       (Exec c o :: match o with Exited _ => [Log m] | Failed _ => [] end)
       (set_world (execSync c (world st)).2 st)).
Proof.
  cbv zeta. unfold bind, exec, console_log.
  destruct (execSync c (world st)) as [[out | e] w]; cbn [fst snd].
  - by rewrite !emit_add, add_events_add.
  - by rewrite emit_add.
Qed.

Lemma removeUnused_events force (st : @State W) :
  exists tr,
    events (removeUnused execSync depcheck force st).2
    = events st ++ Depcheck (depcheck (world st)).1 :: tr.
Proof.
  destruct (depcheck (world st)) as [[result | e] w] eqn:Hdep; cbn [fst].
  - destruct (removeUnused_resolved execSync depcheck force st result w Hdep)
      as [logs Hrun].
    cbv zeta in Hrun. rewrite Hrun. clear Hrun.
    set (st1 := add_events _ (set_world w st)).
    destruct (_ ++ _) as [| x l]; [by eexists |].
    destruct (removeBatches_trace execSync (x :: l) 0 st1)
      as (done & rest & outs & _ & _ & _ & Hev & _).
    cbv zeta.
    destruct (removeBatches execSync (x :: l) 0 st1) as [[[] | e] st2];
      cbn [fst snd events emit] in *; rewrite Hev; subst st1;
      cbn [events add_events set_world]; rewrite <- !app_assoc; cbn [app];
      by eexists.
  - rewrite (removeUnused_rejected execSync depcheck force st e w Hdep).
    by eexists.
Qed.



Lemma stage_extends requested c action (acc : list FixResult * @State W) :
  (forall st, events st `prefix_of` events (action st).2) ->
  events acc.2 `prefix_of` events (stage requested c action acc).2.
Proof.
  intros Hext. unfold stage. destruct requested; [| done]. cbn [snd].
  etrans; [| apply Hext]. cbn [events emit]. by apply prefix_app_r.
Qed.

Lemma removeUnused_extends force (st : @State W) :
  events st `prefix_of` events (removeUnused execSync depcheck force st).2.
Proof. destruct (removeUnused_events force st) as [tr ->]. by eexists. Qed.

Lemma exec_then_log_extends c m (st : @State W) :
  events st `prefix_of` events (bind (exec execSync c) (fun _ => console_log m) st).2.
Proof. rewrite exec_then_log. cbn [snd events add_events set_world]. by eexists. Qed.






End FixFacts.

(** Scenario D, run: 23 removable names, the second [npm uninstall]
    fails.  Two commands are run, on the first ten names and on the
    next ten; the third batch is never passed to a command, and the
    result of [fixIssues] is the one failed entry with the message of
    the error. *)
Lemma scenario_second_batch_fails :
  let run := fixIssues Outside.secondFails Outside.finds23 Outside.onlyUnused
               Outside.start0 in
  run.1 = Ok [ {| type := Unused; success := false;
                  error := Some "Command failed: npm uninstall" |} ]
  /\ map (fun co => co.1) (commands (events run.2))
     = [ NpmUninstall (take 10 Outside.names23);
         NpmUninstall (take 10 (drop 10 Outside.names23)) ]
  /\ map length (batches Outside.names23) = [10; 10; 3]%nat.
Proof. vm_compute. repeat split; reflexivity. Qed.


(** * Further properties *)

(** ** The health score *)

Lemma deduct_issues total cap weight issue suggestion a :
  Score.issues (Score.deduct total cap weight issue suggestion a)
  = Score.issues a ++ issue_line total issue.
Proof.
  unfold Score.deduct, issue_line, Score.count.
  destruct total as [| n]; cbn [Z.ltb Z.of_nat Z.compare Nat.ltb Nat.leb].
  - by rewrite app_nil_r.
  - reflexivity.
Qed.

Lemma deduct_suggestions total cap weight issue suggestion a :
  Score.suggestions (Score.deduct total cap weight issue suggestion a)
  = Score.suggestions a ++ if (0 <? total)%nat then [suggestion] else [].
Proof.
  unfold Score.deduct, Score.count.
  destruct total as [| n]; cbn [Z.ltb Z.of_nat Z.compare Nat.ltb Nat.leb].
  - by rewrite app_nil_r.
  - reflexivity.
Qed.

(** X1: the score is 100 exactly when no category has an item, and
    exactly then the lists of issues and of suggestions are empty. *)
Theorem full_score_iff_no_issue (stats : Score.Stats) :
  let h := Score.calculateHealthScore stats in
  (Score.hs_score h = 100 <-> categories_with_issues stats = 0%nat)
  /\ (Score.hs_issues h = [] <-> categories_with_issues stats = 0%nat)
  /\ (Score.hs_suggestions h = [] <-> categories_with_issues stats = 0%nat).
Proof.
  cbv zeta. rewrite score_before_clamp.
  unfold Score.calculateHealthScore. cbn [Score.hs_issues Score.hs_suggestions].
  unfold Score.deductMissing, Score.deductDuplicates,
    Score.deductVulnerabilities, Score.deductOutdated, Score.deductUnused.
  rewrite !deduct_issues, !deduct_suggestions. cbn [Score.issues Score.suggestions].
  unfold categories_with_issues, totals_in_order, Score.sum_capped, Score.capped,
    Score.count, issue_line.
  destruct stats as [u m o v d]. cbn [Score.unused_total Score.missing_total
    Score.outdated_total Score.vulnerabilities_total Score.duplicates_total].
  destruct u, o, v, d, m; cbn [List.filter Nat.ltb Nat.leb length app];
    (split; [| split]); split; intros H; try reflexivity; try discriminate H;
    try lia.
Qed.

(** X2: a report with no more items in any category never scores
    lower. *)
Theorem score_monotone (s s' : Score.Stats) :
  no_more_issues s s' ->
  Score.hs_score (Score.calculateHealthScore s')
  <= Score.hs_score (Score.calculateHealthScore s).
Proof.
  intros (Hu & Ho & Hv & Hd & Hm). rewrite !score_before_clamp.
  unfold Score.sum_capped, Score.capped, Score.count. lia.
Qed.

Lemma score_monotone_witness :
  let s := {| Score.unused_total := 1; Score.missing_total := 0;
              Score.outdated_total := 2; Score.vulnerabilities_total := 0;
              Score.duplicates_total := 0 |} in
  let s' := {| Score.unused_total := 4; Score.missing_total := 1;
               Score.outdated_total := 2; Score.vulnerabilities_total := 3;
               Score.duplicates_total := 0 |} in
  no_more_issues s s'
  /\ Score.hs_score (Score.calculateHealthScore s')
     <= Score.hs_score (Score.calculateHealthScore s).
Proof.
  intros s s'.
  assert (no_more_issues s s') as H by (unfold no_more_issues; cbn; lia).
  split; [exact H | exact (score_monotone s s' H)].
Defined.

(** X3: [issues] and [suggestions] hold one line for each category
    that has items, in the order unused, outdated, vulnerabilities,
    duplicates, missing; the issue line starts with the count. *)
Theorem issues_follow_categories (stats : Score.Stats) :
  let h := Score.calculateHealthScore stats in
  Score.hs_issues h
  = issue_line (Score.unused_total stats) " unused dependencies"
    ++ issue_line (Score.outdated_total stats) " outdated dependencies"
    ++ issue_line (Score.vulnerabilities_total stats) " security vulnerabilities"
    ++ issue_line (Score.duplicates_total stats) " duplicate packages"
    ++ issue_line (Score.missing_total stats) " missing dependencies"
  /\ length (Score.hs_issues h) = categories_with_issues stats
  /\ length (Score.hs_suggestions h) = categories_with_issues stats.
Proof.
  cbv zeta. unfold Score.calculateHealthScore.
  cbn [Score.hs_issues Score.hs_suggestions].
  unfold Score.deductMissing, Score.deductDuplicates,
    Score.deductVulnerabilities, Score.deductOutdated, Score.deductUnused.
  rewrite !deduct_issues, !deduct_suggestions. cbn [Score.issues Score.suggestions app].
  split; [by rewrite <- !app_assoc |].
  unfold categories_with_issues, totals_in_order, issue_line.
  rewrite !length_app.
  destruct (Score.unused_total stats), (Score.outdated_total stats),
    (Score.vulnerabilities_total stats), (Score.duplicates_total stats),
    (Score.missing_total stats); split; reflexivity.
Qed.

(** X4: the score is 0 only when at least four of the five categories
    have items: the three largest caps add up to 90. *)
Theorem zero_score_needs_four_categories (stats : Score.Stats) :
  Score.hs_score (Score.calculateHealthScore stats) = 0 ->
  (4 <= categories_with_issues stats)%nat.
Proof.
  rewrite score_before_clamp.
  unfold categories_with_issues, totals_in_order, Score.sum_capped, Score.capped,
    Score.count.
  destruct stats as [u m o v d]. cbn [Score.unused_total Score.missing_total
    Score.outdated_total Score.vulnerabilities_total Score.duplicates_total].
  destruct u, o, v, d, m; cbn [List.filter Nat.ltb Nat.leb length]; lia.
Qed.

Lemma zero_score_needs_four_categories_witness :
  let stats := {| Score.unused_total := 10; Score.missing_total := 5;
                  Score.outdated_total := 13; Score.vulnerabilities_total := 7;
                  Score.duplicates_total := 0 |} in
  Score.hs_score (Score.calculateHealthScore stats) = 0
  /\ (4 <= categories_with_issues stats)%nat.
Proof.
  intros stats.
  assert (Score.hs_score (Score.calculateHealthScore stats) = 0) as H
    by (vm_compute; reflexivity).
  split; [exact H | exact (zero_score_needs_four_categories stats H)].
Defined.

(** ** The duplicate scan *)

(** X5: [findDuplicates] leaves the state as it is, and what it
    returns or throws is decided by the lockfile.  Without the file
    it returns the empty result.  When the file cannot be read or its
    text does not parse, and when the text parses to [null] or to a
    tree with a [null] entry, it throws an error whose message is
    [Failed to parse package-lock.json: ] followed by the message of
    the cause (for [null], the TypeError of [lockData.packages] or of
    [info.version]).  Otherwise it returns the report computed from
    the sequence of versioned entries the walk visits: one entry for
    each key recorded with more than one distinct version, keys and
    versions in the order they were first met, [count] the number of
    versions, and [totalPackages] the number of versioned entries
    visited. *)
Theorem findDuplicates_report {W} (lockFile : W -> LockSource) (st : @State W) :
  findDuplicates lockFile st
  = (match lockFile (world st) with
     | LockAbsent =>
         Ok {| Lock.duplicates := [];
               Lock.dup_totalPackages := None;
               Lock.lockFileExists := false |}
     | LockBroken e =>
         Throw (Error ("Failed to parse package-lock.json: " +:+ message e))
     | LockNull =>
         Throw (Error ("Failed to parse package-lock.json: "
                       +:+ "Cannot read properties of null (reading 'packages')"))
     | LockParsed lockData =>
         let tree := or_nil (Lock.root lockData) in
         let occ := Lock.visited tree in
         if Lock.null_free_deps tree
         then Ok {| Lock.duplicates := Lock.duplicatesSpec occ;
                    Lock.dup_totalPackages := Some (length occ);
                    Lock.lockFileExists := true |}
         else Throw (Error ("Failed to parse package-lock.json: "
                            +:+ "Cannot read properties of null (reading 'version')"))
     end, st).
Proof.
  unfold findDuplicates, bind, get, ret, throw.
  destruct (lockFile (world st)) as [| e | | lockData]; try reflexivity.
  rewrite scanLock_groups. cbv zeta.
  by destruct (Lock.null_free_deps _).
Qed.

(** The report on a lockfile with a duplicate, and the error on one
    with a [null] entry. *)
Lemma findDuplicates_report_witness :
  let sound := Scenario.lockOnly (LockParsed Scenario.legacyThree) in
  let unsound := Scenario.lockOnly (LockParsed Scenario.withNull) in
  findDuplicates sound Scenario.start
  = (Ok {| Lock.duplicates :=
             [ {| Lock.name := "lodash";
                  Lock.dup_versions := ["4.17.20"; "4.17.21"];
                  Lock.count := 2 |} ];
           Lock.dup_totalPackages := Some 5%nat;
           Lock.lockFileExists := true |}, Scenario.start)
  /\ findDuplicates unsound Scenario.start
     = (Throw (Error ("Failed to parse package-lock.json: "
                      +:+ "Cannot read properties of null (reading 'version')")),
        Scenario.start)
  /\ findDuplicates (Scenario.lockOnly LockNull) Scenario.start
     = (Throw (Error ("Failed to parse package-lock.json: "
                      +:+ "Cannot read properties of null (reading 'packages')")),
        Scenario.start).
Proof.
  intros sound unsound. split; [| split].
  - exact (findDuplicates_report sound Scenario.start).
  - exact (findDuplicates_report unsound Scenario.start).
  - exact (findDuplicates_report (Scenario.lockOnly LockNull) Scenario.start).
Defined.

(** X6: the walk returns a report only on a tree without a [null]
    entry.  In the report no key is listed twice; a key is listed
    exactly when the walk met it with two different versions; and
    each entry lists every version met under its key once, at least
    two of them, with [count] their number. *)
Theorem duplicates_are_the_conflicts (lockData : Lock.LockData)
    (report : Lock.Duplicates) :
  Lock.scanLock lockData = Ok report ->
  let occ := Lock.visited (or_nil (Lock.root lockData)) in
  Lock.null_free_deps (or_nil (Lock.root lockData)) = true
  /\ NoDup (map Lock.name (Lock.duplicates report))
  /\ (forall n, n ∈ map Lock.name (Lock.duplicates report)
        <-> exists v1 v2, v1 <> v2 /\ (n, v1) ∈ occ /\ (n, v2) ∈ occ)
  /\ (forall e, e ∈ Lock.duplicates report ->
        NoDup (Lock.dup_versions e)
        /\ Lock.count e = length (Lock.dup_versions e)
        /\ (2 <= Lock.count e)%nat
        /\ forall v, v ∈ Lock.dup_versions e <-> (Lock.name e, v) ∈ occ).
Proof.
  intros Hscan. cbv zeta. rewrite scanLock_groups in Hscan. cbv zeta in Hscan.
  destruct (Lock.null_free_deps _); [| discriminate Hscan].
  injection Hscan as <-. cbn [Lock.duplicates].
  destruct (duplicatesSpec_exact (Lock.visited (or_nil (Lock.root lockData))))
    as (Hnd & Hiff & Hentries).
  split; [reflexivity |]. split; [exact Hnd |]. split; [exact Hiff |].
  intros e He. destruct (Hentries e He) as (H1 & H2 & H3 & H4).
  repeat split; try assumption; try lia; by apply H4.
Qed.

Lemma duplicates_are_the_conflicts_witness :
  let report :=
    {| Lock.duplicates :=
         [ {| Lock.name := "lodash";
              Lock.dup_versions := ["4.17.20"; "4.17.21"];
              Lock.count := 2 |} ];
       Lock.dup_totalPackages := Some 5%nat;
       Lock.lockFileExists := true |} in
  let occ := Lock.visited (or_nil (Lock.root Scenario.legacyThree)) in
  Lock.scanLock Scenario.legacyThree = Ok report
  /\ Lock.null_free_deps (or_nil (Lock.root Scenario.legacyThree)) = true
  /\ NoDup (map Lock.name (Lock.duplicates report))
  /\ (forall n, n ∈ map Lock.name (Lock.duplicates report)
        <-> exists v1 v2, v1 <> v2 /\ (n, v1) ∈ occ /\ (n, v2) ∈ occ)
  /\ (forall e, e ∈ Lock.duplicates report ->
        NoDup (Lock.dup_versions e)
        /\ Lock.count e = length (Lock.dup_versions e)
        /\ (2 <= Lock.count e)%nat
        /\ forall v, v ∈ Lock.dup_versions e <-> (Lock.name e, v) ∈ occ).
Proof.
  intros report occ.
  assert (Lock.scanLock Scenario.legacyThree = Ok report) as Hscan
    by (vm_compute; reflexivity).
  split; [exact Hscan |].
  exact (duplicates_are_the_conflicts Scenario.legacyThree report Hscan).
Defined.

Lemma same_key_same_version (occ : list (string * string)) n v1 v2 :
  NoDup (map fst occ) -> (n, v1) ∈ occ -> (n, v2) ∈ occ -> v1 = v2.
Proof.
  induction occ as [| [k v] occ IH]; cbn [map fst].
  - intros _ Hin. by apply elem_of_nil in Hin.
  - rewrite NoDup_cons, !elem_of_cons. intros [Hk Hnd] [H1 | H1] [H2 | H2].
    + congruence.
    + injection H1 as -> ->. exfalso. apply Hk.
      apply list_elem_of_In, in_map_iff. exists (k, v2).
      split; [done | by apply list_elem_of_In].
    + injection H2 as -> ->. exfalso. apply Hk.
      apply list_elem_of_In, in_map_iff. exists (k, v1).
      split; [done | by apply list_elem_of_In].
    + by apply IH.
Qed.

Lemma no_conflict_no_duplicate (occ : list (string * string)) :
  NoDup (map fst occ) -> Lock.duplicatesSpec occ = [].
Proof.
  intros Hnd. destruct (duplicatesSpec_exact occ) as (_ & Hiff & _).
  destruct (Lock.duplicatesSpec occ) as [| e l]; [reflexivity |].
  exfalso. destruct (proj1 (Hiff (Lock.name e))) as (v1 & v2 & Hne & H1 & H2).
  - cbn [map]. apply list_elem_of_here.
  - apply Hne. by eapply same_key_same_version.
Qed.

Lemma visited_ranges deps : ranges_only deps -> Lock.visited (or_nil deps) = [].
Proof.
  unfold ranges_only, Lock.visited. induction 1 as [| [k i] l [r Hr] _ IH];
    [reflexivity |].
  cbn [flat_map fst snd] in *. subst i. exact IH.
Qed.

Lemma ranges_null_free deps :
  ranges_only deps -> Lock.null_free_deps (or_nil deps) = true.
Proof.
  unfold ranges_only, Lock.null_free_deps. induction 1 as [| [k i] l [r Hr] _ IH];
    [reflexivity |].
  cbn [forallb snd] in *. subst i. exact IH.
Qed.

Lemma flat_null_free entries :
  Forall (fun e => match e.2 with
                   | Lock.InfoRange _ => True
                   | Lock.InfoObj _ deps => ranges_only deps
                   | Lock.InfoNull => False
                   end) entries ->
  Lock.null_free_deps entries = true.
Proof.
  unfold Lock.null_free_deps. induction 1 as [| [k i] l Hi _ IH]; [reflexivity |].
  cbn [forallb snd] in *. rewrite IH, andb_true_r.
  destruct i as [r | version deps |]; [reflexivity | | destruct Hi].
  rewrite null_free_obj. by apply ranges_null_free.
Qed.

Lemma visited_flat entries :
  Forall (fun e => match e.2 with
                   | Lock.InfoRange _ => True
                   | Lock.InfoObj _ deps => ranges_only deps
                   | Lock.InfoNull => False
                   end) entries ->
  map fst (Lock.visited entries) = map fst (List.filter has_version entries).
Proof.
  unfold Lock.visited. induction 1 as [| [k i] l Hi _ IH]; [reflexivity |].
  cbn [flat_map fst snd List.filter]. rewrite map_app, IH.
  destruct i as [r | version deps |]; [reflexivity | | destruct Hi].
  cbn [snd] in Hi. rewrite visitedEntry_obj, (visited_ranges _ Hi), app_nil_r.
  unfold has_version. cbn [snd truthy_opt].
  destruct version as [v |]; [| reflexivity].
  cbn [truthy_opt]. destruct (truthy_string v); reflexivity.
Qed.

Lemma NoDup_filter_keys (entries : Lock.Deps) (f : string * Lock.Info -> bool) :
  NoDup (map fst entries) -> NoDup (map fst (List.filter f entries)).
Proof.
  induction entries as [| e l IH]; cbn [map List.filter]; [done |].
  rewrite NoDup_cons. intros [He Hnd]. destruct (f e); [| by apply IH].
  cbn [map]. apply NoDup_cons. split; [| by apply IH].
  intros Hin. apply He. apply list_elem_of_In, in_map_iff in Hin as [x [Hx Hin]].
  apply filter_In in Hin as [Hin _].
  apply list_elem_of_In, in_map_iff. by exists x.
Qed.

(** X7: on a lockfile in the flat shape (a [packages] map with one
    entry for each install path, whose nested [dependencies] map names
    to version ranges) [findDuplicates] never reports a duplicate,
    whatever versions the tree holds; [totalPackages] is the number of
    entries that have a version. *)
Theorem flat_lockfile_reports_nothing (lockData : Lock.LockData)
    (entries : Lock.Deps) :
  Lock.packages lockData = Some entries ->
  flat_shape entries ->
  Lock.scanLock lockData
  = Ok {| Lock.duplicates := [];
          Lock.dup_totalPackages := Some (length (List.filter has_version entries));
          Lock.lockFileExists := true |}.
Proof.
  intros Hpk [Hkeys Hflat]. rewrite scanLock_groups. cbv zeta.
  unfold Lock.root. rewrite Hpk. cbn [or_nil].
  rewrite (flat_null_free entries Hflat).
  pose proof (visited_flat entries Hflat) as Hv. do 2 f_equal.
  - apply no_conflict_no_duplicate. rewrite Hv. by apply NoDup_filter_keys.
  - f_equal. apply (f_equal length) in Hv. by rewrite !length_map in Hv.
Qed.

Lemma flat_lockfile_reports_nothing_witness :
  let entries := or_nil (Lock.packages Scenario.flatThree) in
  Lock.packages Scenario.flatThree = Some entries
  /\ flat_shape entries
  /\ Lock.scanLock Scenario.flatThree
     = Ok {| Lock.duplicates := [];
             Lock.dup_totalPackages := Some (length (List.filter has_version entries));
             Lock.lockFileExists := true |}.
Proof.
  intros entries.
  assert (flat_shape entries) as Hflat.
  { split.
    - assert (bool_decide (NoDup (map fst entries)) = true) as Hnd
        by (vm_compute; reflexivity).
      by apply bool_decide_eq_true in Hnd.
    - repeat constructor; cbn; unfold ranges_only; repeat constructor; eauto. }
  split; [reflexivity |]. split; [exact Hflat |].
  exact (flat_lockfile_reports_nothing Scenario.flatThree entries eq_refl Hflat).
Defined.

(** ** The usage filter *)

Section UsageFacts.

Context {W : Type}.
Variable execSync : Command -> W -> ExecOutcome * W.
Variable depcheck : W -> DepcheckOutcome * W.

Lemma safe_iff protected p : safe protected p = true <-> ~ vetoed protected p.
Proof.
  split.
  - intros Hsafe Hv. by rewrite (safe_vetoed _ _ Hv) in Hsafe.
  - intros Hnv. unfold safe, vetoed in *. case_bool_decide; [tauto |].
    destruct (startsWith p "@types/") eqn:E1; [tauto |].
    destruct (includes p "eslint") eqn:E2; [tauto |].
    destruct (includes p "babel") eqn:E3; [tauto |]. reflexivity.
Qed.

Lemma filter_sublist {A} (f : A -> bool) (l : list A) : sublist (List.filter f l) l.
Proof.
  induction l as [| x l IH]; cbn [List.filter]; [constructor |].
  destruct (f x); by constructor.
Qed.

(** The events of [checkUnused] when depcheck resolves. *)
Lemma checkUnused_log (st : @State W) result w :
  depcheck (world st) = (Resolved result, w) ->
  let removable :=
    List.filter (safe (protectedPackages st)) (or_nil (dc_dependencies result))
    ++ List.filter (safe (protectedPackages st)) (or_nil (dc_devDependencies result)) in
  trace_since st (checkUnused depcheck st).2
  = Depcheck (Resolved result) :: map Log (advisory (List.filter dynamic removable)).
Proof.
  intros Hdep removable. apply trace_since_add.
  unfold checkUnused, try_catch, bind at 1, run_depcheck.
  rewrite Hdep. unfold bind at 1, get. cbn [protectedPackages emit set_world].
  fold removable. unfold advisory. unfold bind at 1.
  destruct (0 <? length (List.filter dynamic removable))%nat.
  - unfold bind, console_log. rewrite forEach_log_run. unfold ret.
    cbn [snd events emit add_events set_world]. rewrite <- !app_assoc.
    cbn [app map]. by rewrite map_app, map_map.
  - reflexivity.
Qed.

(** X8: when depcheck resolves, each removable list of [checkUnused]
    holds, in depcheck's order, exactly the flagged names that are not
    vetoed, and each protected list exactly the flagged names that are
    in the protected set; a name vetoed only for its spelling
    ([@types/], [eslint], [babel]) is in neither. *)
Theorem removable_are_the_unvetoed (st : @State W) result w :
  depcheck (world st) = (Resolved result, w) ->
  exists report,
    (checkUnused depcheck st).1 = Ok report
    /\ sublist (un_dependencies report) (or_nil (dc_dependencies result))
    /\ sublist (un_devDependencies report) (or_nil (dc_devDependencies result))
    /\ (forall p, p ∈ un_dependencies report
          <-> p ∈ or_nil (dc_dependencies result)
              /\ ~ vetoed (protectedPackages st) p)
    /\ (forall p, p ∈ un_devDependencies report
          <-> p ∈ or_nil (dc_devDependencies result)
              /\ ~ vetoed (protectedPackages st) p)
    /\ (forall p, p ∈ protected_dependencies report
          <-> p ∈ or_nil (dc_dependencies result) /\ p ∈ protectedPackages st)
    /\ (forall p, p ∈ protected_devDependencies report
          <-> p ∈ or_nil (dc_devDependencies result) /\ p ∈ protectedPackages st).
Proof.
  intros Hdep. destruct (checkUnused_resolved depcheck st result w Hdep) as [logs Hcu].
  eexists. rewrite Hcu. split; [reflexivity |].
  cbn [un_dependencies un_devDependencies protected_dependencies
       protected_devDependencies].
  split; [apply filter_sublist |]. split; [apply filter_sublist |].
  assert (forall (f : string -> bool) l p,
             p ∈ List.filter f l <-> p ∈ l /\ f p = true) as Hin
    by (intros; by rewrite !list_elem_of_In, filter_In).
  split; [intros p; by rewrite Hin, safe_iff |].
  split; [intros p; by rewrite Hin, safe_iff |].
  split; intros p; rewrite Hin; unfold has; by rewrite bool_decide_eq_true.
Qed.

(** X9: [checkUnused] runs no command and leaves the protected set as
    it is.  When depcheck rejects, it throws an error whose message is
    [Error checking unused dependencies: ] followed by depcheck's, and
    writes nothing. *)
Theorem checkUnused_only_reads (st : @State W) :
  let run := checkUnused depcheck st in
  commands (trace_since st run.2) = []
  /\ protectedPackages run.2 = protectedPackages st
  /\ match (depcheck (world st)).1 with
     | Resolved _ => exists report, run.1 = Ok report
     | Rejected e =>
         run.1 = Throw (Error ("Error checking unused dependencies: "
                               +:+ message e))
         /\ trace_since st run.2 = [Depcheck (Rejected e)]
     end.
Proof.
  cbv zeta. destruct (depcheck (world st)) as [[result | e] w] eqn:Hdep; cbn [fst].
  - rewrite (checkUnused_log st result w Hdep).
    destruct (checkUnused_resolved depcheck st result w Hdep) as [logs Hcu].
    rewrite Hcu. cbn [fst snd protectedPackages add_events set_world].
    split; [apply commands_logs |]. split; [reflexivity | by eexists].
  - rewrite (checkUnused_rejected depcheck st e w Hdep).
    cbn [fst snd protectedPackages add_events set_world].
    rewrite (trace_since_add [Depcheck (Rejected e)]) by reflexivity.
    repeat split; reflexivity.
Qed.

(** X10: the note on names that may be used dynamically is written
    exactly when a removable name contains [plugin], [vite], [webpack]
    or [gsap], and every name it lists is such a removable name; the
    note never lists a vetoed name. *)
Theorem advisory_lists_removable_names (st : @State W) result w :
  depcheck (world st) = (Resolved result, w) ->
  let removable :=
    List.filter (safe (protectedPackages st)) (or_nil (dc_dependencies result))
    ++ List.filter (safe (protectedPackages st)) (or_nil (dc_devDependencies result)) in
  let tr := trace_since st (checkUnused depcheck st).2 in
  (Log MsgDynamicNote ∈ tr <-> exists p, p ∈ removable /\ dynamic p = true)
  /\ (forall p, Log (MsgBullet p) ∈ tr
        <-> p ∈ removable /\ dynamic p = true)
  /\ (forall p, Log (MsgBullet p) ∈ tr -> ~ vetoed (protectedPackages st) p).
Proof.
  intros Hdep removable tr. subst tr. rewrite (checkUnused_log st result w Hdep).
  fold removable. unfold advisory.
  assert (forall p, p ∈ List.filter dynamic removable
                    <-> p ∈ removable /\ dynamic p = true) as Hdyn.
  { intros p. by rewrite !list_elem_of_In, filter_In. }
  assert (forall p, Log (MsgBullet p) ∈ map Log (map MsgBullet (List.filter dynamic removable))
                    <-> p ∈ List.filter dynamic removable) as Hbullet.
  { intros p. rewrite !list_elem_of_In, in_map_iff. split.
    - intros [m [[= ->] Hm]]. apply in_map_iff in Hm as [q [[= ->] Hq]]. done.
    - intros Hp. exists (MsgBullet p). split; [done |].
      apply in_map_iff. by exists p. }
  assert (forall p, Log (MsgBullet p) ∈
            Depcheck (Resolved result)
            :: map Log (if (0 <? length (List.filter dynamic removable))%nat
                        then MsgDynamicNote
                             :: map MsgBullet (List.filter dynamic removable)
                             ++ [MsgProtectHint]
                        else [])
          <-> p ∈ removable /\ dynamic p = true) as Hlisted.
  { intros p. rewrite <- Hdyn.
    destruct (List.filter dynamic removable) as [| q l] eqn:E.
    - cbn. split; intros H;
        [apply list_elem_of_singleton in H; discriminate H
        | by apply elem_of_nil in H].
    - cbn [length Nat.ltb Nat.leb map]. rewrite !elem_of_cons, map_app, elem_of_app.
      rewrite Hbullet. cbn [map]. rewrite list_elem_of_singleton.
      split.
      + intros [[=] | [[=] | [H | [=]]]]. by apply elem_of_cons.
      + intros H. right. right. left. by apply elem_of_cons. }
  split; [| split].
  - destruct (List.filter dynamic removable) as [| q l] eqn:E.
    + cbn. split.
      * intros H. apply list_elem_of_singleton in H. discriminate H.
      * intros [p Hp]. apply Hdyn in Hp. by apply elem_of_nil in Hp.
    + cbn [length Nat.ltb Nat.leb map]. split.
      * intros _. exists q. apply Hdyn. apply list_elem_of_here.
      * intros _. apply list_elem_of_further, list_elem_of_here.
  - exact Hlisted.
  - intros p Hp. apply Hlisted in Hp as [Hrem _]. apply safe_iff.
    subst removable. apply elem_of_app in Hrem as [Hr | Hr];
      apply list_elem_of_In, filter_In in Hr; tauto.
Qed.

End UsageFacts.

Lemma removable_are_the_unvetoed_witness :
  let depcheck := Outside.finds Outside.someUnused in
  let st := Scenario.start in
  depcheck (world st) = (Resolved Outside.someUnused, tt)
  /\ exists report,
       (checkUnused depcheck st).1 = Ok report
       /\ sublist (un_dependencies report)
            (or_nil (dc_dependencies Outside.someUnused))
       /\ sublist (un_devDependencies report)
            (or_nil (dc_devDependencies Outside.someUnused))
       /\ (forall p, p ∈ un_dependencies report
             <-> p ∈ or_nil (dc_dependencies Outside.someUnused)
                 /\ ~ vetoed (protectedPackages st) p)
       /\ (forall p, p ∈ un_devDependencies report
             <-> p ∈ or_nil (dc_devDependencies Outside.someUnused)
                 /\ ~ vetoed (protectedPackages st) p)
       /\ (forall p, p ∈ protected_dependencies report
             <-> p ∈ or_nil (dc_dependencies Outside.someUnused)
                 /\ p ∈ protectedPackages st)
       /\ (forall p, p ∈ protected_devDependencies report
             <-> p ∈ or_nil (dc_devDependencies Outside.someUnused)
                 /\ p ∈ protectedPackages st).
Proof.
  intros depcheck0 st. split; [reflexivity |].
  exact (removable_are_the_unvetoed depcheck0 st Outside.someUnused tt eq_refl).
Defined.

Lemma advisory_lists_removable_names_witness :
  let depcheck := Outside.finds Outside.someDynamic in
  let st := Scenario.start in
  let removable :=
    List.filter (safe (protectedPackages st))
      (or_nil (dc_dependencies Outside.someDynamic))
    ++ List.filter (safe (protectedPackages st))
         (or_nil (dc_devDependencies Outside.someDynamic)) in
  let tr := trace_since st (checkUnused depcheck st).2 in
  depcheck (world st) = (Resolved Outside.someDynamic, tt)
  /\ removable
     = ["vite-tsconfig-paths"; "left-pad"; "webpack-bundle-analyzer"; "rimraf"]
  /\ tr = [ Depcheck (Resolved Outside.someDynamic);
            Log MsgDynamicNote;
            Log (MsgBullet "vite-tsconfig-paths");
            Log (MsgBullet "webpack-bundle-analyzer");
            Log MsgProtectHint ]
  /\ (Log MsgDynamicNote ∈ tr <-> exists p, p ∈ removable /\ dynamic p = true)
  /\ (forall p, Log (MsgBullet p) ∈ tr <-> p ∈ removable /\ dynamic p = true)
  /\ (forall p, Log (MsgBullet p) ∈ tr -> ~ vetoed (protectedPackages st) p).
Proof.
  intros depcheck0 st removable tr. split; [reflexivity |].
  split; [vm_compute; reflexivity |]. split; [vm_compute; reflexivity |].
  exact (advisory_lists_removable_names depcheck0 st Outside.someDynamic tt eq_refl).
Defined.

(** ** Removal and repair *)

Section RepairFacts.

Context {W : Type}.
Variable execSync : Command -> W -> ExecOutcome * W.
Variable depcheck : W -> DepcheckOutcome * W.

Lemma bind_run {A B} (m : @State W -> Res A * @State W)
    (k : A -> @State W -> Res B * @State W) (st : @State W) :
  bind m k st
  = match m st with
    | (Ok a, st') => k a st'
    | (Throw e, st') => (Throw e, st')
    end.
Proof. reflexivity. Qed.

Lemma trace_since_more (st st1 st2 : @State W) tr :
  events st `prefix_of` events st1 ->
  events st2 = events st1 ++ tr ->
  trace_since st st2 = trace_since st st1 ++ tr.
Proof.
  intros [k Hk] H2. rewrite (trace_since_add (k ++ tr)), (trace_since_add k); try done.
  by rewrite H2, Hk, app_assoc.
Qed.

(** X11: [force] changes what [removeUnused] writes and nothing else:
    with or without it the same commands are run with the same
    results, the outside world is left the same, and the same value is
    returned or the same error thrown. *)
Theorem force_changes_only_the_log (st : @State W) :
  let forced := removeUnused execSync depcheck true st in
  let plain := removeUnused execSync depcheck false st in
  forced.1 = plain.1
  /\ world forced.2 = world plain.2
  /\ protectedPackages forced.2 = protectedPackages plain.2
  /\ commands (trace_since st forced.2) = commands (trace_since st plain.2).
Proof.
  cbv zeta. destruct (depcheck (world st)) as [[result | e] w] eqn:Hdep.
  - destruct (List.filter (safe (protectedPackages st)) (or_nil (dc_dependencies result))
              ++ List.filter (safe (protectedPackages st))
                   (or_nil (dc_devDependencies result))) as [| x l] eqn:Hall.
    + destruct (removeUnused_resolved execSync depcheck true st result w Hdep)
        as [logs1 H1].
      destruct (removeUnused_resolved execSync depcheck false st result w Hdep)
        as [logs0 H0].
      cbv zeta in H1, H0. rewrite Hall in H1, H0. rewrite H1, H0.
      cbn [fst snd world protectedPackages add_events set_world].
      rewrite !(trace_since_add (Depcheck (Resolved result) :: map Log _))
        by reflexivity.
      repeat split.
      change (commands (map Log logs1) = commands (map Log logs0)).
      by rewrite !commands_logs.
    + destruct (checkUnused_resolved depcheck st result w Hdep) as [logs Hcu].
      unfold removeUnused. rewrite !(bind_run (checkUnused depcheck)), Hcu.
      cbn beta iota. cbn [un_dependencies un_devDependencies].
      rewrite Hall. cbn [length Nat.eqb]. done.
  - by rewrite !(removeUnused_rejected execSync depcheck _ st e w Hdep).
Qed.

Lemma succeeded_ran (done : list (list string)) (outs : list string) :
  length outs = length done ->
  flat_map (fun co : Command * ExecOutcome =>
              match co with
              | (NpmUninstall b, Exited _) => [b]
              | _ => []
              end)
    (zip_with (fun b out => (NpmUninstall b, Exited out)) done outs)
  = done.
Proof.
  revert outs. induction done as [| b done IH]; intros [| out outs] Hlen;
    cbn in *; try congruence. f_equal. apply IH. lia.
Qed.

(** X12: when depcheck resolves, the names of the batches whose
    command succeeded are an initial part of the removable names, in
    order; nothing is left over exactly when [removeUnused] returns,
    and something is left over when it throws. *)
Theorem removed_then_remaining force (st : @State W) result w :
  depcheck (world st) = (Resolved result, w) ->
  let allUnused :=
    List.filter (safe (protectedPackages st)) (or_nil (dc_dependencies result))
    ++ List.filter (safe (protectedPackages st)) (or_nil (dc_devDependencies result)) in
  let run := removeUnused execSync depcheck force st in
  let removed := concat (succeeded (trace_since st run.2)) in
  exists remaining,
    allUnused = removed ++ remaining
    /\ match run.1 with
       | Ok _ => remaining = []
       | Throw _ => remaining <> []
       end.
Proof.
  intros Hdep allUnused run removed.
  destruct (removeUnused_trace execSync depcheck force st result w Hdep)
    as (done & rest & outs & Hb & Hlen & Hcmd & Hres).
  cbv zeta in Hb, Hcmd, Hres. fold allUnused in Hb. fold run in Hcmd, Hres.
  assert (removed = concat done) as ->.
  { subst removed. unfold succeeded. rewrite Hcmd, flat_map_app.
    rewrite (succeeded_ran _ _ Hlen).
    destruct run.1 as [| e]; [by rewrite app_nil_r |].
    destruct rest; cbn; by rewrite app_nil_r. }
  exists (concat rest). split.
  - by rewrite <- concat_app, <- Hb, batches_concat.
  - destruct run.1 as [| e]; [by subst rest |].
    destruct rest as [| b rest']; [done |].
    pose proof (batches_bound allUnused) as Hbound. rewrite Hb in Hbound.
    apply Forall_app in Hbound as [_ Hbound]. apply Forall_cons in Hbound as [Hb0 _].
    cbn [concat]. destruct b; [cbn in Hb0; lia | discriminate].
Qed.

(** X13: when depcheck resolves and no name is removable,
    [removeUnused] returns without running a command. *)
Theorem nothing_removable_runs_nothing force (st : @State W) result w :
  depcheck (world st) = (Resolved result, w) ->
  List.filter (safe (protectedPackages st)) (or_nil (dc_dependencies result))
  ++ List.filter (safe (protectedPackages st)) (or_nil (dc_devDependencies result))
  = [] ->
  let run := removeUnused execSync depcheck force st in
  run.1 = Ok tt /\ commands (trace_since st run.2) = [].
Proof.
  intros Hdep Hnone run.
  destruct (removeUnused_trace execSync depcheck force st result w Hdep)
    as (done & rest & outs & Hb & Hlen & Hcmd & Hres).
  cbv zeta in Hb, Hcmd, Hres. rewrite Hnone in Hb. fold run in Hcmd, Hres.
  simp batches in Hb. symmetry in Hb. apply app_eq_nil in Hb as [-> ->].
  destruct run.1 as [[] | e]; [| done]. split; [reflexivity |].
  rewrite Hcmd. by destruct outs.
Qed.

End RepairFacts.

Lemma removed_then_remaining_witness :
  let st := Scenario.start in
  let depcheck := Outside.finds Outside.someUnused in
  let execSync := Outside.always (Exited "") in
  let allUnused :=
    List.filter (safe (protectedPackages st))
      (or_nil (dc_dependencies Outside.someUnused))
    ++ List.filter (safe (protectedPackages st))
         (or_nil (dc_devDependencies Outside.someUnused)) in
  let run := removeUnused execSync depcheck false st in
  depcheck (world st) = (Resolved Outside.someUnused, tt)
  /\ exists remaining,
       allUnused = concat (succeeded (trace_since st run.2)) ++ remaining
       /\ match run.1 with
          | Ok _ => remaining = []
          | Throw _ => remaining <> []
          end.
Proof.
  intros st depcheck0 execSync0 allUnused run. split; [reflexivity |].
  exact (removed_then_remaining execSync0 depcheck0 false st
           Outside.someUnused tt eq_refl).
Defined.

Lemma nothing_removable_runs_nothing_witness :
  let st := Scenario.start in
  let result := {| dc_dependencies := Some ["react"; "@types/react"];
                   dc_devDependencies := Some ["eslint-plugin-react"];
                   dc_missing := None; dc_using := None |} in
  let depcheck := Outside.finds result in
  let run := removeUnused (Outside.always (Exited "")) depcheck true st in
  depcheck (world st) = (Resolved result, tt)
  /\ List.filter (safe (protectedPackages st)) (or_nil (dc_dependencies result))
     ++ List.filter (safe (protectedPackages st))
          (or_nil (dc_devDependencies result)) = []
  /\ run.1 = Ok tt /\ commands (trace_since st run.2) = [].
Proof.
  intros st result depcheck0 run.
  assert (List.filter (safe (protectedPackages st)) (or_nil (dc_dependencies result))
          ++ List.filter (safe (protectedPackages st))
               (or_nil (dc_devDependencies result)) = []) as Hnone
    by (vm_compute; reflexivity).
  split; [reflexivity |]. split; [exact Hnone |].
  exact (nothing_removable_runs_nothing (Outside.always (Exited "")) depcheck0
           true st result tt eq_refl Hnone).
Defined.

Section OrderFacts.

Context {W : Type}.
Variable execSync : Command -> W -> ExecOutcome * W.
Variable depcheck : W -> DepcheckOutcome * W.

Lemma trace_since_trans (s0 s1 s2 : @State W) :
  events s0 `prefix_of` events s1 ->
  events s1 `prefix_of` events s2 ->
  trace_since s0 s2 = trace_since s0 s1 ++ trace_since s1 s2.
Proof.
  intros [k1 H1] [k2 H2].
  rewrite (trace_since_add (k1 ++ k2)), (trace_since_add k1), (trace_since_add k2);
    try done.
  by rewrite H2, H1, app_assoc.
Qed.

Lemma removeUnused_commands force (st : @State W) :
  exists removals,
    map fst (commands (trace_since st (removeUnused execSync depcheck force st).2))
    = map NpmUninstall removals
    /\ protectedPackages (removeUnused execSync depcheck force st).2
       = protectedPackages st.
Proof.
  destruct (depcheck (world st)) as [[result | e] w] eqn:Hdep.
  - destruct (removeUnused_trace execSync depcheck force st result w Hdep)
      as (done & rest & outs & _ & Hlen & Hcmd & _).
    cbv zeta in Hcmd.
    exists (done ++ match (removeUnused execSync depcheck force st).1, rest with
                    | Throw _, b :: _ => [b]
                    | _, _ => []
                    end).
    split.
    + rewrite Hcmd, !map_app. f_equal.
      * clear Hcmd. revert outs Hlen.
        induction done as [| b done IH]; intros [| out outs] Hlen;
          cbn in *; try congruence. f_equal. apply IH. lia.
      * destruct (removeUnused execSync depcheck force st).1; [done |].
        by destruct rest.
    + destruct (removeUnused_resolved execSync depcheck force st result w Hdep)
        as [logs Hrun].
      cbv zeta in Hrun. rewrite Hrun. clear Hrun Hcmd Hlen.
      set (st1 := add_events _ (set_world w st)).
      destruct (List.filter _ _ ++ List.filter _ _) as [| x l]; [reflexivity |].
      destruct (removeBatches_trace execSync (x :: l) 0 st1)
        as (_ & _ & _ & _ & _ & Hprot & _ & _).
      cbv zeta.
      destruct (removeBatches execSync (x :: l) 0 st1) as [[[] | e] st2];
        cbn [fst snd protectedPackages emit] in *; by rewrite Hprot.
  - rewrite (removeUnused_rejected execSync depcheck force st e w Hdep).
    exists []. cbn [snd protectedPackages add_events set_world].
    by rewrite (trace_since_add [Depcheck (Rejected e)]).
Qed.

Lemma stage_removal requested force (acc : list FixResult * @State W) :
  let acc' := stage requested Unused (removeUnused execSync depcheck force) acc in
  exists removals,
    map fst (commands (trace_since acc.2 acc'.2)) = map NpmUninstall removals
    /\ (if requested then True else removals = [])
    /\ protectedPackages acc'.2 = protectedPackages acc.2.
Proof.
  cbv zeta. unfold stage. destruct requested; cbn [snd].
  - set (st0 := emit (Log (MsgFixing Unused)) acc.2).
    destruct (removeUnused_commands force st0) as (removals & Hcmd & Hprot).
    exists removals. split; [| split; [done | by rewrite Hprot]].
    rewrite (trace_since_trans acc.2 st0).
    + rewrite commands_app, (trace_since_add [Log (MsgFixing Unused)]) by reflexivity.
      by rewrite map_app, Hcmd.
    + by apply prefix_app_r.
    + apply removeUnused_extends.
  - exists []. unfold trace_since. by rewrite drop_all.
Qed.

Lemma stage_simple requested c cmd m (acc : list FixResult * @State W) :
  let acc' :=
    stage requested c (bind (exec execSync cmd) (fun _ => console_log m)) acc in
  map fst (commands (trace_since acc.2 acc'.2)) = (if requested then [cmd] else [])
  /\ protectedPackages acc'.2 = protectedPackages acc.2.
Proof.
  cbv zeta. unfold stage. destruct requested; cbn [snd].
  - rewrite exec_then_log. cbn [snd protectedPackages add_events set_world emit].
    split; [| reflexivity].
    erewrite trace_since_add.
    2:{ cbn [events add_events set_world emit]. rewrite <- app_assoc. reflexivity. }
    cbn [app]. destruct (execSync cmd _).1; reflexivity.
  - split; [| reflexivity]. unfold trace_since. by rewrite drop_all.
Qed.

(** X14: whatever the commands do, [fixIssues] runs them in one
    order: the [npm uninstall] batches (none unless [unused] is
    requested), then [npm update], [npm audit fix] and [npm dedupe],
    each exactly once if its category is requested and not at all
    otherwise; and it leaves the protected set as it found it. *)
Theorem fixIssues_command_order (options : Options) (st : @State W) :
  let run := fixIssues execSync depcheck options st in
  exists removals,
    map fst (commands (trace_since st run.2))
    = map NpmUninstall removals
      ++ flat_map (fun c => if requested options c then command_of c else [])
           [Outdated; Vulnerabilities; Duplicated]
    /\ (if requested options Unused then True else removals = [])
    /\ protectedPackages run.2 = protectedPackages st.
Proof.
  cbv zeta. rewrite fixIssues_stages. cbv zeta. cbn [fst snd].
  set (a0 := (@nil FixResult, st)).
  set (a1 := stage (requested options Unused) Unused
               (removeUnused execSync depcheck (opt_force options)) a0).
  set (a2 := stage (requested options Outdated) Outdated (updateOutdated execSync) a1).
  set (a3 := stage (requested options Vulnerabilities) Vulnerabilities
               (fixVulnerabilities execSync) a2).
  set (a4 := stage (requested options Duplicated) Duplicated
               (deduplicate execSync) a3).
  assert (events st `prefix_of` events a1.2) as P1
    by (apply (stage_extends _ _ _ a0); intros; apply removeUnused_extends).
  assert (events a1.2 `prefix_of` events a2.2) as P2
    by (apply stage_extends; intros; apply exec_then_log_extends).
  assert (events a2.2 `prefix_of` events a3.2) as P3
    by (apply stage_extends; intros; apply exec_then_log_extends).
  assert (events a3.2 `prefix_of` events a4.2) as P4
    by (apply stage_extends; intros; apply exec_then_log_extends).
  destruct (stage_removal (requested options Unused) (opt_force options) a0)
    as (removals & C1 & Hnone & I1).
  destruct (stage_simple (requested options Outdated) Outdated NpmUpdate
              MsgUpdated a1) as [C2 I2].
  destruct (stage_simple (requested options Vulnerabilities) Vulnerabilities
              NpmAuditFix MsgFixed a2) as [C3 I3].
  destruct (stage_simple (requested options Duplicated) Duplicated NpmDedupe
              MsgDeduped a3) as [C4 I4].
  cbv zeta in C1, I1, C2, I2, C3, I3, C4, I4.
  fold a1 in C1, I1. fold (updateOutdated execSync) in C2, I2. fold a2 in C2, I2.
  fold (fixVulnerabilities execSync) in C3, I3. fold a3 in C3, I3.
  fold (deduplicate execSync) in C4, I4. fold a4 in C4, I4.
  exists removals. split; [| split; [exact Hnone |]].
  - assert (events st `prefix_of` events a2.2) as P02 by (by etrans).
    assert (events st `prefix_of` events a3.2) as P03 by (by etrans).
    rewrite (trace_since_trans st a3.2 a4.2), (trace_since_trans st a2.2 a3.2),
      (trace_since_trans st a1.2 a2.2) by assumption.
    change a0.2 with st in C1.
    rewrite !commands_app, !map_app, C1, C2, C3, C4.
    rewrite <- !app_assoc. f_equal. cbn [flat_map command_of].
    destruct (requested options Outdated), (requested options Vulnerabilities),
      (requested options Duplicated); reflexivity.
  - rewrite I4, I3, I2, I1. reflexivity.
Qed.

End OrderFacts.

(** ** The manifest *)

Section ManifestFacts.

Context {W : Type}.
Variable JSON_parse : string -> option json.
Variable readPackageJson : W -> Res string.

Lemma each_protect (l : list string) (st : @State W) :
  (fix each (l : list string) : @M W unit :=
     match l with
     | [] => ret tt
     | pkg :: l' => bind (protect pkg) (fun _ => each l')
     end) l st
  = (Ok tt, {| world := world st;
               protectedPackages := list_to_set l ∪ protectedPackages st;
               events := events st |}).
Proof.
  revert st. induction l as [| pkg l IH]; intros st.
  - unfold ret. destruct st. cbn. do 2 f_equal. set_solver.
  - unfold bind, protect. rewrite IH. cbn. do 2 f_equal. set_solver.
Qed.

Lemma user_protected_declared data items :
  user_protected data = JArr items -> declared_protected data = strings_of items.
Proof.
  unfold user_protected, declared_protected, or_default.
  destruct (Registry.prop data "dependencyChecker") as [dc |]; [| by intros [= <-]].
  destruct (Registry.prop dc "protectedPackages") as [v |]; [| by intros [= <-]].
  destruct v; cbn; try discriminate; try (by intros [= <-]);
    repeat case_match; try discriminate; by intros [= <-].
Qed.

Lemma Object_keys_or_empty o : exists ks, Object_keys (or_empty o) = Ok ks.
Proof.
  unfold or_empty. destruct o as [v |]; [| by eexists].
  destruct (truthy v) eqn:E; [| by eexists].
  destruct v; [discriminate E | | | | |]; by eexists.
Qed.

Lemma get_prop_prop data k :
  Registry.is_null data = false -> get_prop data k = Ok (Registry.prop data k).
Proof. by destruct data. Qed.

Lemma optional_prop_prop o k :
  optional_prop o k
  = Ok (match o with Some dc => Registry.prop dc k | None => None end).
Proof. destruct o as [[] |]; reflexivity. Qed.

(** What [getPackageInfo] does, by what the file holds. *)
Lemma getPackageInfo_unreadable (st : @State W) e :
  readPackageJson (world st) = Throw e ->
  getPackageInfo JSON_parse readPackageJson st = (Throw (wrapped (message e)), st).
Proof.
  intros Hread. unfold getPackageInfo, try_catch, bind at 1. by rewrite Hread.
Qed.

Lemma getPackageInfo_unparsable (st : @State W) text :
  readPackageJson (world st) = Ok text -> JSON_parse text = None ->
  getPackageInfo JSON_parse readPackageJson st
  = (Throw (wrapped "Unexpected token in JSON"), st).
Proof.
  intros Hread Hparse. unfold getPackageInfo, try_catch, bind at 1.
  rewrite Hread. unfold bind at 1, parse. by rewrite Hparse.
Qed.

Lemma getPackageInfo_null (st : @State W) text :
  readPackageJson (world st) = Ok text -> JSON_parse text = Some JNull ->
  getPackageInfo JSON_parse readPackageJson st
  = (Throw (wrapped "Cannot read properties of null (reading 'dependencyChecker')"),
     st).
Proof.
  intros Hread Hparse. unfold getPackageInfo, try_catch, bind at 1.
  rewrite Hread. unfold bind at 1, parse. by rewrite Hparse.
Qed.

Lemma getPackageInfo_not_array (st : @State W) text data :
  readPackageJson (world st) = Ok text -> JSON_parse text = Some data ->
  Registry.is_null data = false -> is_array (user_protected data) = false ->
  getPackageInfo JSON_parse readPackageJson st
  = (Throw (wrapped "userProtected.forEach is not a function"), st).
Proof.
  intros Hread Hparse Hnull Harr. unfold getPackageInfo, try_catch, bind at 1.
  rewrite Hread. unfold bind at 1, parse. rewrite Hparse. unfold ret at 1.
  unfold bind at 1, lift at 1. rewrite (get_prop_prop _ _ Hnull).
  unfold bind at 1, lift at 1. rewrite optional_prop_prop.
  fold (user_protected data). unfold bind at 1.
  destruct (user_protected data); try reflexivity. discriminate Harr.
Qed.

Lemma getPackageInfo_ok (st : @State W) text data items :
  readPackageJson (world st) = Ok text -> JSON_parse text = Some data ->
  Registry.is_null data = false -> user_protected data = JArr items ->
  exists info,
    getPackageInfo JSON_parse readPackageJson st
    = (Ok info,
       {| world := world st;
          protectedPackages := list_to_set (strings_of items) ∪ protectedPackages st;
          events := events st |})
    /\ pi_name info = or_default (JStr "unknown") (Registry.prop data "name")
    /\ pi_version info = or_default (JStr "0.0.0") (Registry.prop data "version")
    /\ pi_engines info = or_empty (Registry.prop data "engines")
    /\ pi_dependencyChecker info
       = or_empty (Registry.prop data "dependencyChecker")
    /\ Object_keys (or_empty (Registry.prop data "dependencies"))
       = Ok (pi_dependencies info)
    /\ Object_keys (or_empty (Registry.prop data "devDependencies"))
       = Ok (pi_devDependencies info)
    /\ Object_keys (or_empty (Registry.prop data "scripts"))
       = Ok (pi_scripts info).
Proof.
  intros Hread Hparse Hnull Huser. unfold getPackageInfo, try_catch, bind at 1.
  rewrite Hread. unfold bind at 1, parse. rewrite Hparse. unfold ret at 1.
  unfold bind at 1, lift at 1. rewrite (get_prop_prop _ _ Hnull).
  unfold bind at 1, lift at 1. rewrite optional_prop_prop.
  fold (user_protected data). rewrite Huser. unfold bind at 1.
  cbn [forEach_protect]. rewrite each_protect.
  destruct (Object_keys_or_empty (Registry.prop data "dependencies")) as [deps Hdeps].
  destruct (Object_keys_or_empty (Registry.prop data "devDependencies")) as [dev Hdev].
  destruct (Object_keys_or_empty (Registry.prop data "scripts")) as [scr Hscr].
  unfold bind, lift, ret. rewrite !(get_prop_prop _ _ Hnull), Hdeps, Hdev, Hscr.
  eexists. split; [reflexivity |]. cbn. repeat split; assumption.
Qed.

Lemma getPackageInfo_inv (st : @State W) info :
  (getPackageInfo JSON_parse readPackageJson st).1 = Ok info ->
  exists text data items,
    readPackageJson (world st) = Ok text
    /\ JSON_parse text = Some data
    /\ Registry.is_null data = false
    /\ user_protected data = JArr items
    /\ (getPackageInfo JSON_parse readPackageJson st).2
       = {| world := world st;
            protectedPackages :=
              list_to_set (strings_of items) ∪ protectedPackages st;
            events := events st |}
    /\ pi_name info = or_default (JStr "unknown") (Registry.prop data "name")
    /\ pi_version info = or_default (JStr "0.0.0") (Registry.prop data "version")
    /\ pi_engines info = or_empty (Registry.prop data "engines")
    /\ pi_dependencyChecker info
       = or_empty (Registry.prop data "dependencyChecker").
Proof.
  intros Hok.
  destruct (readPackageJson (world st)) as [text | e] eqn:Hread;
    [| by rewrite (getPackageInfo_unreadable st e Hread) in Hok].
  destruct (JSON_parse text) as [data |] eqn:Hparse;
    [| by rewrite (getPackageInfo_unparsable st text Hread Hparse) in Hok].
  destruct (Registry.is_null data) eqn:Hnull.
  { destruct data; try discriminate Hnull.
    by rewrite (getPackageInfo_null st text Hread Hparse) in Hok. }
  destruct (is_array (user_protected data)) eqn:Harr;
    [| by rewrite (getPackageInfo_not_array st text data Hread Hparse Hnull Harr)
         in Hok].
  destruct (user_protected data) as [| | | | items |] eqn:Huser;
    try discriminate Harr.
  destruct (getPackageInfo_ok st text data items Hread Hparse Hnull Huser)
    as (info' & Hrun & Hn & Hv & He & Hc & _).
  rewrite Hrun in Hok |- *. cbn [fst snd] in *. injection Hok as <-.
  by exists text, data, items.
Qed.

(** X15: when [getPackageInfo] returns, the protected set is the one
    it held before together with the names (strings) listed in
    [dependencyChecker.protectedPackages] of the manifest; no name is
    ever taken out, and nothing else of the state changes. *)
Theorem manifest_protection_is_added (st : @State W) text data info :
  readPackageJson (world st) = Ok text ->
  JSON_parse text = Some data ->
  (getPackageInfo JSON_parse readPackageJson st).1 = Ok info ->
  let st' := (getPackageInfo JSON_parse readPackageJson st).2 in
  protectedPackages st'
  = list_to_set (declared_protected data) ∪ protectedPackages st
  /\ protectedPackages st ⊆ protectedPackages st'
  /\ world st' = world st
  /\ events st' = events st.
Proof.
  intros Hread Hparse Hok.
  destruct (getPackageInfo_inv st info Hok)
    as (text' & data' & items & Hread' & Hparse' & _ & Huser & Hst & _).
  rewrite Hread in Hread'. injection Hread' as <-.
  rewrite Hparse in Hparse'. injection Hparse' as <-.
  cbv zeta. rewrite Hst. cbn [protectedPackages world events].
  rewrite (user_protected_declared _ _ Huser).
  repeat split. set_solver.
Qed.

(** X16: [getPackageInfo] returns exactly when the file can be read,
    its text parses to a value other than [null], and
    [dependencyChecker.protectedPackages] is absent, falsy or an array.
    Otherwise it throws an error whose message starts with
    [Failed to read package.json: ] and leaves the state, the
    protected set included, as it was. *)
Theorem manifest_failure_changes_nothing (st : @State W) :
  let run := getPackageInfo JSON_parse readPackageJson st in
  is_ok run.1
  = match readPackageJson (world st) with
    | Ok text =>
        match JSON_parse text with
        | Some data =>
            negb (Registry.is_null data) && is_array (user_protected data)
        | None => false
        end
    | Throw _ => false
    end
  /\ (if is_ok run.1 then True
      else run.2 = st /\ exists msg, run.1 = Throw (wrapped msg)).
Proof.
  cbv zeta.
  destruct (readPackageJson (world st)) as [text | e] eqn:Hread;
    [| rewrite (getPackageInfo_unreadable st e Hread); cbn; eauto].
  destruct (JSON_parse text) as [data |] eqn:Hparse;
    [| rewrite (getPackageInfo_unparsable st text Hread Hparse); cbn; eauto].
  destruct (Registry.is_null data) eqn:Hnull.
  { destruct data; try discriminate Hnull.
    rewrite (getPackageInfo_null st text Hread Hparse). cbn. eauto. }
  destruct (is_array (user_protected data)) eqn:Harr;
    [| rewrite (getPackageInfo_not_array st text data Hread Hparse Hnull Harr);
       cbn; eauto].
  destruct (user_protected data) as [| | | | items |] eqn:Huser;
    try discriminate Harr.
  destruct (getPackageInfo_ok st text data items Hread Hparse Hnull Huser)
    as (info & Hrun & _).
  rewrite Hrun. cbn. done.
Qed.

Lemma truthy_or_default d o : truthy d = true -> truthy (or_default d o) = true.
Proof.
  intros Hd. unfold or_default. destruct o as [v |]; [| done].
  by destruct (truthy v) eqn:E.
Qed.

Lemma truthy_or_empty o : truthy (or_empty o) = true.
Proof.
  unfold or_empty. destruct o as [v |]; [| done]. by destruct (truthy v) eqn:E.
Qed.

Lemma engines_keys_ok (st : @State W) info :
  (getPackageInfo JSON_parse readPackageJson st).1 = Ok info ->
  is_ok (Object_keys (pi_engines info)) = true.
Proof.
  intros Hok.
  destruct (getPackageInfo_inv st info Hok)
    as (text & data & items & _ & _ & _ & _ & _ & _ & _ & He & _).
  rewrite He.
  destruct (Object_keys_or_empty (Registry.prop data "engines")) as [ks ->].
  reflexivity.
Qed.

(** X17: every field of the object [getPackageInfo] returns is usable
    as it is: [name] and [version] are truthy (the manifest's, or
    [unknown] and [0.0.0]), and [engines] and [dependencyChecker] are
    truthy values, so that [Object.keys] on them does not throw. *)
Theorem manifest_fields_are_defaulted (st : @State W) info :
  (getPackageInfo JSON_parse readPackageJson st).1 = Ok info ->
  truthy (pi_name info) = true
  /\ truthy (pi_version info) = true
  /\ truthy (pi_engines info) = true
  /\ truthy (pi_dependencyChecker info) = true
  /\ is_ok (Object_keys (pi_engines info)) = true.
Proof.
  intros Hok.
  destruct (getPackageInfo_inv st info Hok)
    as (text & data & items & _ & _ & _ & _ & _ & Hn & Hv & He & Hc).
  rewrite Hn, Hv, He, Hc.
  split; [by apply truthy_or_default |]. split; [by apply truthy_or_default |].
  split; [apply truthy_or_empty |]. split; [apply truthy_or_empty |].
  destruct (Object_keys_or_empty (Registry.prop data "engines")) as [ks ->].
  reflexivity.
Qed.

End ManifestFacts.

Lemma manifest_protection_is_added_witness :
  let run := getPackageInfo Manifest.JSON_parse Manifest.read Scenario.start in
  Manifest.read (world Scenario.start) = Ok Manifest.text
  /\ Manifest.JSON_parse Manifest.text = Some Manifest.data
  /\ run.1 = Ok {| pi_name := JStr "demo"; pi_version := JStr "0.0.0";
                   pi_dependencies := ["left-pad"]; pi_devDependencies := [];
                   pi_scripts := []; pi_engines := JObj [];
                   pi_dependencyChecker :=
                     JObj [("protectedPackages", JArr [JStr "left-pad"; JNum 5])] |}
  /\ protectedPackages run.2
     = list_to_set (declared_protected Manifest.data)
       ∪ protectedPackages Scenario.start
  /\ protectedPackages Scenario.start ⊆ protectedPackages run.2
  /\ world run.2 = world Scenario.start
  /\ events run.2 = events Scenario.start.
Proof.
  intros run.
  assert (run.1 = Ok {| pi_name := JStr "demo"; pi_version := JStr "0.0.0";
                        pi_dependencies := ["left-pad"]; pi_devDependencies := [];
                        pi_scripts := []; pi_engines := JObj [];
                        pi_dependencyChecker :=
                          JObj [("protectedPackages",
                                 JArr [JStr "left-pad"; JNum 5])] |}) as Hok
    by (vm_compute; reflexivity).
  split; [reflexivity |]. split; [vm_compute; reflexivity |]. split; [exact Hok |].
  exact (manifest_protection_is_added Manifest.JSON_parse Manifest.read
           Scenario.start Manifest.text Manifest.data _ eq_refl eq_refl Hok).
Defined.

Lemma manifest_fields_are_defaulted_witness :
  let run := getPackageInfo Manifest.JSON_parse Manifest.read Scenario.start in
  let info := {| pi_name := JStr "demo"; pi_version := JStr "0.0.0";
                 pi_dependencies := ["left-pad"]; pi_devDependencies := [];
                 pi_scripts := []; pi_engines := JObj [];
                 pi_dependencyChecker :=
                   JObj [("protectedPackages", JArr [JStr "left-pad"; JNum 5])] |} in
  run.1 = Ok info
  /\ truthy (pi_name info) = true
  /\ truthy (pi_version info) = true
  /\ truthy (pi_engines info) = true
  /\ truthy (pi_dependencyChecker info) = true
  /\ is_ok (Object_keys (pi_engines info)) = true.
Proof.
  intros run info.
  assert (run.1 = Ok info) as Hok by (vm_compute; reflexivity).
  split; [exact Hok |].
  exact (manifest_fields_are_defaulted Manifest.JSON_parse Manifest.read
           Scenario.start info Hok).
Defined.

(** ** The project report *)

Lemma no_final_k_go x s : no_final_k s = true -> no_final_k (pretty_N_go x s) = true.
Proof.
  revert s. induction (N.lt_wf_0 x) as [x _ IH]. intros s Hs.
  assert (x = 0 \/ 0 < x)%N as [-> | Hpos] by lia.
  - by rewrite pretty_N_go_0.
  - rewrite pretty_N_go_step by done. apply IH; [by apply N.div_lt |].
    destruct s as [| c s'].
    + unfold pretty_N_char. by repeat case_match.
    + exact Hs.
Qed.

Lemma pretty_not_chalk (n : nat) : pretty n <> "chalk".
Proof.
  intros Heq. assert (no_final_k (pretty n) = true) as Hk.
  { unfold pretty, pretty_nat, pretty, pretty_N. case_decide; [reflexivity |].
    by apply no_final_k_go. }
  rewrite Heq in Hk. discriminate Hk.
Qed.

Lemma chalk_not_index n : "chalk" ∉ index_keys n.
Proof.
  unfold index_keys. intros Hin.
  apply list_elem_of_In, in_map_iff in Hin as [i [Hi _]].
  by apply pretty_not_chalk in Hi.
Qed.

Lemma keys_without_chalk v :
  Registry.is_null v = false ->
  exists ks, Object_keys (Registry.without_chalk v) = Ok ks /\ ("chalk" ∉ ks).
Proof.
  intros Hnull. destruct v as [| b | n | s | items | fields];
    try discriminate Hnull; cbn [Registry.without_chalk Object_keys];
    eexists; (split; [reflexivity |]);
    try apply chalk_not_index; try apply not_elem_of_nil.
  unfold remove_key. intros Hin.
  apply list_elem_of_In, in_map_iff in Hin as [[k x] [Hk Hin]].
  apply list_elem_of_In, list_elem_of_filter in Hin as [Hne _].
  cbn in *. congruence.
Qed.

Section StatsFacts.

Context {W : Type}.
Variable execSync : Command -> W -> ExecOutcome * W.
Variable depcheck : W -> DepcheckOutcome * W.
Variable JSON_parse : string -> option json.
Variable lockFile : W -> LockSource.
Variable readPackageJson : W -> Res string.

Lemma world_after c (st : @State W) :
  world (after execSync c st) = (execSync c (world st)).2.
Proof. unfold after. by destruct (execSync c (world st)). Qed.

Lemma protected_after c (st : @State W) :
  protectedPackages (after execSync c st) = protectedPackages st.
Proof. unfold after. by destruct (execSync c (world st)). Qed.

Lemma outdated_keys o :
  exists ks,
    Object_keys (match Registry.parsed JSON_parse o with
                 | Some v => if Registry.is_null v then JObj []
                             else Registry.without_chalk v
                 | None => JObj []
                 end) = Ok ks
    /\ ("chalk" ∉ ks).
Proof.
  destruct (Registry.parsed JSON_parse o) as [v |].
  - destruct (Registry.is_null v) eqn:Hnull; [| by apply keys_without_chalk].
    exists []. split; [reflexivity | apply not_elem_of_nil].
  - exists []. split; [reflexivity | apply not_elem_of_nil].
Qed.

Lemma audit_keys o :
  exists ks,
    Object_keys (vulnerabilities
                   (match Registry.parsed JSON_parse o with
                    | Some v => if Registry.is_null v then emptyAudit
                                else Registry.audit_of v
                    | None => emptyAudit
                    end)) = Ok ks.
Proof.
  destruct (Registry.parsed JSON_parse o) as [v |];
    [destruct (Registry.is_null v) |];
    cbn [vulnerabilities emptyAudit Registry.audit_of];
    try (by eexists); apply Object_keys_or_empty.
Qed.

(** [findDuplicates] leaves the state as it is, and returns exactly
    on a lockfile it reads to the end. *)
Lemma findDuplicates_run (st : @State W) :
  exists r,
    findDuplicates lockFile st = (r, st)
    /\ is_ok r = lock_usable (lockFile (world st)).
Proof.
  unfold findDuplicates, bind, get, ret, throw, lock_usable.
  destruct (lockFile (world st)) as [| e | | lockData];
    try (eexists; split; reflexivity).
  rewrite scanLock_groups. cbv zeta.
  destruct (Lock.null_free_deps _); eexists; split; reflexivity.
Qed.

(** The report, when its five sources deliver. *)
Lemma getProjectStats_ok (st st1 : @State W) info result w1 :
  getPackageInfo JSON_parse readPackageJson st = (Ok info, st1) ->
  is_ok (Object_keys (pi_engines info)) = true ->
  depcheck (world st1) = (Resolved result, w1) ->
  lock_usable
    (lockFile (execSync NpmAuditJson (execSync NpmOutdatedJson w1).2).2) = true ->
  exists stats,
    (getProjectStats execSync depcheck JSON_parse lockFile readPackageJson st).1
    = Ok stats
    /\ unused_dependencies stats
       = List.filter (safe (protectedPackages st1)) (or_nil (dc_dependencies result))
    /\ unused_devDependencies stats
       = List.filter (safe (protectedPackages st1))
           (or_nil (dc_devDependencies result))
    /\ unused_total stats
       = (length (unused_dependencies stats)
          + length (unused_devDependencies stats))%nat
    /\ ("chalk" ∉ outdated_packages stats)
    /\ outdated_total stats = length (outdated_packages stats)
    /\ missing_total stats = length (missing_packages stats)
    /\ duplicates_total stats = length (duplicates_packages stats)
    /\ Object_keys
         (match Registry.parsed JSON_parse (execSync NpmOutdatedJson w1).1 with
          | Some v => if Registry.is_null v then JObj []
                      else Registry.without_chalk v
          | None => JObj []
          end) = Ok (outdated_packages stats).
Proof.
  intros Hinfo Hengines Hdep Hlock.
  unfold getProjectStats. rewrite bind_run, Hinfo.
  destruct (checkUnused_resolved depcheck st1 result w1 Hdep) as [logs Hcu].
  rewrite bind_run, Hcu.
  rewrite bind_run, checkOutdated_result.
  rewrite bind_run, checkVulnerabilities_result.
  rewrite bind_run.
  destruct (findDuplicates_run
              (after execSync NpmAuditJson
                 (after execSync NpmOutdatedJson
                    (add_events (Depcheck (Resolved result) :: map Log logs)
                       (set_world w1 st1))))) as (r & Hfd & Hr).
  rewrite Hfd. rewrite !world_after in Hr. cbn [world add_events set_world] in Hr.
  rewrite Hlock in Hr. destruct r as [duplicatesInfo | e]; [clear Hr | discriminate Hr].
  rewrite !world_after. cbn [world add_events set_world].
  destruct (outdated_keys (execSync NpmOutdatedJson w1).1) as (oks & Hoks & Hchalk).
  destruct (audit_keys (execSync NpmAuditJson (execSync NpmOutdatedJson w1).2).1)
    as [vks Hvks].
  destruct (Object_keys_or_empty (dc_missing result)) as [mks Hmks].
  assert (exists eks, Object_keys (pi_engines info) = Ok eks) as [eks Heks]
    by (destruct (Object_keys (pi_engines info)); [by eexists | discriminate]).
  rewrite bind_run; unfold lift at 1; rewrite Heks;
    rewrite bind_run; unfold lift at 1; cbn [un_missing]; rewrite Hmks;
    rewrite bind_run; unfold lift at 1; rewrite Hoks;
    rewrite bind_run; unfold lift at 1; rewrite Hvks;
    unfold ret; cbn [fst]; eexists; (split; [reflexivity |]);
    cbn; repeat split; done.
Qed.

Lemma getProjectStats_broken (st st1 : @State W) info result w1 :
  getPackageInfo JSON_parse readPackageJson st = (Ok info, st1) ->
  depcheck (world st1) = (Resolved result, w1) ->
  lock_usable
    (lockFile (execSync NpmAuditJson (execSync NpmOutdatedJson w1).2).2) = false ->
  is_ok (getProjectStats execSync depcheck JSON_parse lockFile readPackageJson st).1
  = false.
Proof.
  intros Hinfo Hdep Hlock.
  unfold getProjectStats. rewrite bind_run, Hinfo.
  destruct (checkUnused_resolved depcheck st1 result w1 Hdep) as [logs Hcu].
  rewrite bind_run, Hcu.
  rewrite bind_run, checkOutdated_result.
  rewrite bind_run, checkVulnerabilities_result.
  rewrite bind_run.
  destruct (findDuplicates_run
              (after execSync NpmAuditJson
                 (after execSync NpmOutdatedJson
                    (add_events (Depcheck (Resolved result) :: map Log logs)
                       (set_world w1 st1))))) as (r & Hfd & Hr).
  rewrite Hfd. rewrite !world_after in Hr. cbn [world add_events set_world] in Hr.
  rewrite Hlock in Hr. destruct r as [duplicatesInfo | e]; [discriminate Hr |].
  reflexivity.
Qed.

Lemma getProjectStats_no_manifest (st st1 : @State W) e :
  getPackageInfo JSON_parse readPackageJson st = (Throw e, st1) ->
  getProjectStats execSync depcheck JSON_parse lockFile readPackageJson st
  = (Throw e, st1).
Proof. intros Hinfo. unfold getProjectStats. by rewrite bind_run, Hinfo. Qed.

Lemma getProjectStats_no_scan (st st1 : @State W) info e w1 :
  getPackageInfo JSON_parse readPackageJson st = (Ok info, st1) ->
  depcheck (world st1) = (Rejected e, w1) ->
  is_ok (getProjectStats execSync depcheck JSON_parse lockFile readPackageJson st).1
  = false.
Proof.
  intros Hinfo Hdep. unfold getProjectStats. rewrite bind_run, Hinfo.
  by rewrite bind_run, (checkUnused_rejected depcheck st1 e w1 Hdep).
Qed.

Lemma getPackageInfo_world (st st1 : @State W) info :
  getPackageInfo JSON_parse readPackageJson st = (Ok info, st1) ->
  world st1 = world st
  /\ is_ok (Object_keys (pi_engines info)) = true
  /\ forall text data,
       readPackageJson (world st) = Ok text -> JSON_parse text = Some data ->
       protectedPackages st1
       = list_to_set (declared_protected data) ∪ protectedPackages st.
Proof.
  intros Hinfo.
  assert ((getPackageInfo JSON_parse readPackageJson st).1 = Ok info) as Hok
    by (by rewrite Hinfo).
  pose proof (engines_keys_ok JSON_parse readPackageJson st info Hok) as Hkeys.
  split; [| split; [exact Hkeys |]].
  - destruct (getPackageInfo_inv JSON_parse readPackageJson st info Hok)
      as (? & ? & ? & _ & _ & _ & _ & Hst & _).
    rewrite Hinfo in Hst. cbn [snd] in Hst. by rewrite Hst.
  - intros text data Hread Hparse.
    destruct (getPackageInfo_inv JSON_parse readPackageJson st info Hok)
      as (text' & data' & items & Hread' & Hparse' & _ & Huser & Hst & _).
    rewrite Hread in Hread'. injection Hread' as <-.
    rewrite Hparse in Hparse'. injection Hparse' as <-.
    rewrite Hinfo in Hst. cbn [snd] in Hst. rewrite Hst.
    cbn [protectedPackages]. by rewrite (user_protected_declared _ _ Huser).
Qed.

End StatsFacts.

Section ReportFacts.

Context {W : Type}.
Variable execSync : Command -> W -> ExecOutcome * W.
Variable depcheck : W -> DepcheckOutcome * W.
Variable JSON_parse : string -> option json.
Variable lockFile : W -> LockSource.
Variable readPackageJson : W -> Res string.

Lemma getProjectStats_inv (st : @State W) stats :
  (getProjectStats execSync depcheck JSON_parse lockFile readPackageJson st).1
  = Ok stats ->
  exists info st1 result w1,
    getPackageInfo JSON_parse readPackageJson st = (Ok info, st1)
    /\ depcheck (world st) = (Resolved result, w1)
    /\ world st1 = world st
    /\ unused_dependencies stats
       = List.filter (safe (protectedPackages st1)) (or_nil (dc_dependencies result))
    /\ unused_devDependencies stats
       = List.filter (safe (protectedPackages st1))
           (or_nil (dc_devDependencies result))
    /\ ("chalk" ∉ outdated_packages stats)
    /\ outdated_total stats = length (outdated_packages stats)
    /\ Object_keys
         (match Registry.parsed JSON_parse (execSync NpmOutdatedJson w1).1 with
          | Some v => if Registry.is_null v then JObj []
                      else Registry.without_chalk v
          | None => JObj []
          end) = Ok (outdated_packages stats).
Proof.
  intros Hok.
  destruct (getPackageInfo JSON_parse readPackageJson st) as [[info | e] st1] eqn:Hinfo.
  2:{ by rewrite (getProjectStats_no_manifest execSync depcheck JSON_parse lockFile
                    readPackageJson st st1 e Hinfo) in Hok. }
  destruct (getPackageInfo_world JSON_parse readPackageJson st st1 info Hinfo)
    as (Hworld & Hkeys & _).
  destruct (depcheck (world st)) as [[result | e] w1] eqn:Hdep.
  2:{ rewrite <- Hworld in Hdep.
      pose proof (getProjectStats_no_scan execSync depcheck JSON_parse lockFile
                    readPackageJson st st1 info e w1 Hinfo Hdep) as Hno.
      by rewrite Hok in Hno. }
  rewrite <- Hworld in Hdep.
  destruct (lock_usable
              (lockFile (execSync NpmAuditJson (execSync NpmOutdatedJson w1).2).2))
    eqn:Hlock.
  2:{ pose proof (getProjectStats_broken execSync depcheck JSON_parse lockFile
                    readPackageJson st st1 info result w1 Hinfo Hdep Hlock) as Hno.
      by rewrite Hok in Hno. }
  destruct (getProjectStats_ok execSync depcheck JSON_parse lockFile readPackageJson
              st st1 info result w1 Hinfo Hkeys Hdep Hlock)
    as (stats' & Hok' & Hu & Hd & _ & Hc & Ht & _ & _ & Hk).
  rewrite Hok in Hok'. injection Hok' as <-.
  exists info, st1, result, w1. by rewrite Hworld in Hdep.
Qed.

(** X18: [getProjectStats] returns exactly when the manifest is read,
    depcheck resolves and [findDuplicates] reads the lockfile to the
    end: the file is absent, or its text parses to a value other than
    [null] in whose tree no entry is [null].  How the two npm queries
    end never makes it throw, and neither does [Object.keys] on what
    they return. *)
Theorem report_needs_manifest_scanner_lockfile (st : @State W) :
  let scan := depcheck (world st) in
  let w3 := (execSync NpmAuditJson (execSync NpmOutdatedJson scan.2).2).2 in
  is_ok (getProjectStats execSync depcheck JSON_parse lockFile readPackageJson st).1
  = is_ok (getPackageInfo JSON_parse readPackageJson st).1
    && is_resolved scan.1
    && match lockFile w3 with
       | LockAbsent => true
       | LockBroken _ | LockNull => false
       | LockParsed lockData => Lock.null_free_deps (or_nil (Lock.root lockData))
       end.
Proof.
  cbv zeta. fold (lock_usable
    (lockFile (execSync NpmAuditJson
                 (execSync NpmOutdatedJson (depcheck (world st)).2).2).2)).
  destruct (getPackageInfo JSON_parse readPackageJson st) as [[info | e] st1] eqn:Hinfo.
  2:{ by rewrite (getProjectStats_no_manifest execSync depcheck JSON_parse lockFile
                    readPackageJson st st1 e Hinfo). }
  destruct (getPackageInfo_world JSON_parse readPackageJson st st1 info Hinfo)
    as (Hworld & Hkeys & _).
  cbn [fst is_ok andb].
  destruct (depcheck (world st)) as [[result | e] w1] eqn:Hdep; rewrite <- Hworld in Hdep.
  2:{ by rewrite (getProjectStats_no_scan execSync depcheck JSON_parse lockFile
                    readPackageJson st st1 info e w1 Hinfo Hdep). }
  cbn [fst snd is_resolved andb].
  destruct (lock_usable _) eqn:Hlock.
  - destruct (getProjectStats_ok execSync depcheck JSON_parse lockFile readPackageJson
                st st1 info result w1 Hinfo Hkeys Hdep Hlock) as (stats & -> & _).
    reflexivity.
  - by rewrite (getProjectStats_broken execSync depcheck JSON_parse lockFile
                  readPackageJson st st1 info result w1 Hinfo Hdep Hlock).
Qed.

(** X19: in the report of [getProjectStats], no name listed in
    [dependencyChecker.protectedPackages] of the manifest is among
    the unused dependencies, whatever depcheck flags. *)
Theorem report_honours_declared_protection (st : @State W) text data stats p :
  readPackageJson (world st) = Ok text ->
  JSON_parse text = Some data ->
  (getProjectStats execSync depcheck JSON_parse lockFile readPackageJson st).1
  = Ok stats ->
  p ∈ declared_protected data ->
  (p ∉ unused_dependencies stats) /\ (p ∉ unused_devDependencies stats).
Proof.
  intros Hread Hparse Hok Hp.
  destruct (getProjectStats_inv st stats Hok)
    as (info & st1 & result & w1 & Hinfo & _ & _ & -> & -> & _).
  destruct (getPackageInfo_world JSON_parse readPackageJson st st1 info Hinfo)
    as (_ & _ & Hprot).
  assert (vetoed (protectedPackages st1) p) as Hv.
  { left. rewrite (Hprot text data Hread Hparse).
    apply elem_of_union_l, elem_of_list_to_set, Hp. }
  split; by apply not_removable.
Qed.

(** X20: in the report, [chalk] is never among the outdated packages,
    and the total counts the listed packages; when [npm outdated]
    reports an object, the packages listed are its keys other than
    [chalk], in its order. *)
Theorem report_never_lists_chalk (st : @State W) stats :
  (getProjectStats execSync depcheck JSON_parse lockFile readPackageJson st).1
  = Ok stats ->
  ("chalk" ∉ outdated_packages stats)
  /\ outdated_total stats = length (outdated_packages stats)
  /\ forall fields,
       Registry.parsed JSON_parse
         (execSync NpmOutdatedJson (depcheck (world st)).2).1
       = Some (JObj fields) ->
       outdated_packages stats = map fst (remove_key "chalk" fields).
Proof.
  intros Hok.
  destruct (getProjectStats_inv st stats Hok)
    as (info & st1 & result & w1 & _ & Hdep & _ & _ & _ & Hchalk & Htotal & Hkeys).
  split; [exact Hchalk |]. split; [exact Htotal |].
  intros fields Hparsed. rewrite Hdep in Hparsed. cbn [snd] in Hparsed.
  rewrite Hparsed in Hkeys. cbn in Hkeys. by injection Hkeys as <-.
Qed.

End ReportFacts.

Lemma report_honours_declared_protection_witness :
  let run :=
    getProjectStats Project.execSync Project.depcheck Manifest.JSON_parse
      Project.lockFile Manifest.read Scenario.start in
  Manifest.read (world Scenario.start) = Ok Manifest.text
  /\ Manifest.JSON_parse Manifest.text = Some Manifest.data
  /\ "left-pad" ∈ declared_protected Manifest.data
  /\ exists stats,
       run.1 = Ok stats
       /\ ("left-pad" ∉ unused_dependencies stats)
       /\ ("left-pad" ∉ unused_devDependencies stats).
Proof.
  intros run.
  assert ("left-pad" ∈ declared_protected Manifest.data) as Hp
    by (cbn; apply list_elem_of_here).
  split; [reflexivity |]. split; [vm_compute; reflexivity |]. split; [exact Hp |].
  assert (is_ok run.1 = true) as Hok by (vm_compute; reflexivity).
  destruct run.1 as [stats |] eqn:Hrun; [| discriminate Hok].
  exists stats. split; [reflexivity |].
  exact (report_honours_declared_protection Project.execSync Project.depcheck
           Manifest.JSON_parse Project.lockFile Manifest.read Scenario.start
           Manifest.text Manifest.data stats "left-pad" eq_refl eq_refl Hrun Hp).
Defined.

Lemma report_never_lists_chalk_witness :
  let run :=
    getProjectStats Project.execSync Project.depcheck Manifest.JSON_parse
      Project.lockFile Manifest.read Scenario.start in
  exists stats,
    run.1 = Ok stats
    /\ ("chalk" ∉ outdated_packages stats)
    /\ outdated_total stats = length (outdated_packages stats)
    /\ outdated_packages stats
       = map fst (remove_key "chalk" [("chalk", Outside.chalkEntry)]).
Proof.
  intros run.
  assert (is_ok run.1 = true) as Hok by (vm_compute; reflexivity).
  destruct run.1 as [stats |] eqn:Hrun; [| discriminate Hok].
  exists stats. split; [reflexivity |].
  destruct (report_never_lists_chalk Project.execSync Project.depcheck
              Manifest.JSON_parse Project.lockFile Manifest.read Scenario.start
              stats Hrun) as (Hchalk & Htotal & Hkeys).
  split; [exact Hchalk |]. split; [exact Htotal |].
  apply Hkeys. vm_compute. reflexivity.
Defined.

(** ** The commands of the CLI *)

Section CliFacts.

Context {W : Type}.
Variable execSync : Command -> W -> ExecOutcome * W.
Variable depcheck : W -> DepcheckOutcome * W.
Variable JSON_parse : string -> option json.
Variable lockFile : W -> LockSource.
Variable readPackageJson : W -> Res string.

Lemma add_lines_add l1 l2 (t : @Terminal W) :
  add_lines l2 (add_lines l1 t) = add_lines (l1 ++ l2) t.
Proof. unfold add_lines. cbn. by rewrite app_assoc. Qed.

Lemma print_run line (t : @Terminal W) : print line t = (Ok tt, add_lines [line] t).
Proof. reflexivity. Qed.

Lemma bindC_run {A B} (m : @C W A) (k : A -> @C W B) t :
  bindC m k t
  = match m t with
    | (Ok a, t') => k a t'
    | (Throw e, t') => (Throw e, t')
    end.
Proof. reflexivity. Qed.

Lemma forEach_print_run {A} (f : A -> CliLine) l (t : @Terminal W) :
  forEach_print f l t = (Ok tt, add_lines (map f l) t).
Proof.
  revert t. induction l as [| x l IH]; intros t; cbn [forEach_print map].
  - unfold retC, add_lines. destruct t. cbn. by rewrite app_nil_r.
  - rewrite bindC_run, print_run, IH, add_lines_add. reflexivity.
Qed.

Lemma when_run b lines (m : @C W unit) (t : @Terminal W) :
  m t = (Ok tt, add_lines lines t) ->
  when b m t = (Ok tt, add_lines (if b then lines else []) t).
Proof.
  intros Hm. destruct b; [exact Hm |]. unfold when, retC, add_lines.
  destruct t. cbn. by rewrite app_nil_r.
Qed.

Lemma force_banner_run o (t : @Terminal W) :
  when (opt_force o) (bindC (print ForceWarning) (fun _ => print ForceBackup)) t
  = (Ok tt, add_lines (force_banner o) t).
Proof.
  unfold force_banner.
  apply (when_run (opt_force o) [ForceWarning; ForceBackup]).
  by rewrite bindC_run, !print_run, add_lines_add.
Qed.

(** X21: without a category flag, or without [yes], the action of
    [fix] only writes: it returns, and the checker (the outside world,
    the protected set, the record of commands) is as it was. *)
Theorem fix_waits_for_category_and_yes (options : FixFlags) (t : @Terminal W) :
  any_category (fix_options options) = false \/ opt_yes options = false ->
  let run := cli_fix execSync depcheck options t in
  run.1 = Ok tt /\ checker run.2 = checker t.
Proof.
  intros Hgate. cbv zeta. unfold cli_fix.
  destruct (negb (opt_unused (fix_options options)) && _ && _ && _ && _) eqn:Hnone.
  - repeat (rewrite bindC_run, print_run). rewrite print_run. done.
  - assert (opt_yes options = false) as Hyes.
    { destruct Hgate as [Hany | Hyes]; [| exact Hyes]. exfalso.
      unfold any_category in Hany.
      destruct (opt_unused _), (opt_outdated _), (opt_vulnerabilities _),
        (opt_duplicates _), (opt_all _); discriminate. }
    rewrite Hyes. cbn [negb].
    rewrite bindC_run, force_banner_run.
    rewrite bindC_run, print_run.
    rewrite bindC_run, (when_run _ [ForceEnabled]) by reflexivity.
    rewrite bindC_run, !print_run. done.
Qed.

Lemma cli_fix_confirmed (options : FixFlags) (t : @Terminal W) results st' :
  any_category (fix_options options) = true ->
  opt_yes options = true ->
  fixIssues execSync depcheck (fix_options options) (checker t) = (Ok results, st') ->
  cli_fix execSync depcheck options t
  = (Ok tt,
     {| checker := st';
        screen :=
          screen t ++ force_banner (fix_options options)
          ++ [StartingFixes; FixResultsHeader]
          ++ map result_line results
          ++ [FixesCompleted; RunSummaryHint] |}).
Proof.
  intros Hany Hyes Hfixed.
  unfold cli_fix.
  destruct (negb (opt_unused (fix_options options)) && _ && _ && _ && _) eqn:Hnone.
  { exfalso. unfold any_category in Hany.
    destruct (opt_unused _), (opt_outdated _), (opt_vulnerabilities _),
      (opt_duplicates _), (opt_all _); discriminate. }
  rewrite Hyes. cbn [negb].
  rewrite bindC_run, force_banner_run.
  rewrite bindC_run, print_run.
  rewrite bindC_run. unfold await at 1. cbn [checker add_lines].
  rewrite Hfixed.
  rewrite bindC_run, print_run.
  rewrite bindC_run, forEach_print_run.
  rewrite bindC_run, !print_run.
  unfold add_lines. cbn [checker screen]. rewrite <- !app_assoc. reflexivity.
Qed.


End CliFacts.

Lemma fix_waits_for_category_and_yes_witness :
  let options := {| fix_options := Outside.onlyUnused; opt_yes := false |} in
  let run := cli_fix Project.execSync Project.depcheck options Project.fresh in
  (any_category (fix_options options) = false \/ opt_yes options = false)
  /\ run.1 = Ok tt /\ checker run.2 = checker Project.fresh.
Proof.
  intros options run.
  assert (any_category (fix_options options) = false \/ opt_yes options = false)
    as Hgate by (right; reflexivity).
  split; [exact Hgate |].
  exact (fix_waits_for_category_and_yes Project.execSync Project.depcheck options
           Project.fresh Hgate).
Defined.


Section ProtectionFacts.

Context {W : Type}.
Variable execSync : Command -> W -> ExecOutcome * W.
Variable depcheck : W -> DepcheckOutcome * W.
Variable JSON_parse : string -> option json.
Variable lockFile : W -> LockSource.
Variable readPackageJson : W -> Res string.

Lemma removeBatches_succeeds (l : list string) (i : nat) (st : @State W) :
  uninstall_succeeds execSync -> (removeBatches execSync l i st).1 = Ok tt.
Proof.
  intros Hall. remember (length l - i)%nat as n eqn:Hn. revert i st Hn.
  induction n as [n IH] using lt_wf_ind. intros i st Hn.
  rewrite removeBatches_cases. destruct (decide (i < length l)%nat); [| reflexivity].
  cbv zeta. destruct (Hall (take batchSize (drop i l)) (world st)) as [out Hout].
  destruct (execSync _ (world st)) as [o w]. cbn [fst] in Hout. subst o.
  apply (IH (length l - (i + batchSize))%nat); [unfold batchSize; lia | reflexivity].
Qed.

Lemma removeUnused_succeeds force (st : @State W) result w :
  uninstall_succeeds execSync ->
  depcheck (world st) = (Resolved result, w) ->
  (removeUnused execSync depcheck force st).1 = Ok tt.
Proof.
  intros Hall Hdep.
  destruct (removeUnused_resolved execSync depcheck force st result w Hdep)
    as [logs Hrun].
  cbv zeta in Hrun. rewrite Hrun. destruct (_ ++ _); [reflexivity |].
  cbv zeta. by rewrite removeBatches_succeeds.
Qed.

Lemma removeUnused_all_removed force (st : @State W) result w :
  depcheck (world st) = (Resolved result, w) ->
  let run := removeUnused execSync depcheck force st in
  run.1 = Ok tt ->
  concat (succeeded (trace_since st run.2))
  = List.filter (safe (protectedPackages st)) (or_nil (dc_dependencies result))
    ++ List.filter (safe (protectedPackages st)) (or_nil (dc_devDependencies result)).
Proof.
  intros Hdep run Hok.
  destruct (removeUnused_trace execSync depcheck force st result w Hdep)
    as (done & rest & outs & Hb & Hlen & Hcmd & Hres).
  cbv zeta in Hb, Hcmd, Hres. fold run in Hcmd, Hres. rewrite Hok in Hcmd, Hres.
  subst rest. rewrite !app_nil_r in *.
  unfold succeeded. rewrite Hcmd, (succeeded_ran _ _ Hlen), <- Hb.
  apply batches_concat.
Qed.

Lemma succeeded_elem p tr :
  p ∈ concat (succeeded tr) ->
  exists batch out, Exec (NpmUninstall batch) (Exited out) ∈ tr /\ p ∈ batch.
Proof.
  unfold succeeded, commands. induction tr as [| ev tr IH]; cbn [flat_map concat].
  - intros Hin. by apply elem_of_nil in Hin.
  - rewrite flat_map_app, concat_app, elem_of_app. intros [Hin | Hin].
    + destruct ev as [m | c o | o]; try (by apply elem_of_nil in Hin).
      cbn in Hin. destruct c; try (by apply elem_of_nil in Hin).
      destruct o as [out | e]; try (by apply elem_of_nil in Hin).
      cbn in Hin. rewrite app_nil_r in Hin.
      exists batch, out. split; [apply list_elem_of_here | exact Hin].
    + destruct (IH Hin) as (batch & out & Hev & Hp).
      exists batch, out. split; [by apply list_elem_of_further | exact Hp].
Qed.

Lemma trace_since_within (s0 s1 s2 s3 : @State W) ev :
  events s0 `prefix_of` events s1 ->
  events s1 `prefix_of` events s2 ->
  events s2 `prefix_of` events s3 ->
  ev ∈ trace_since s1 s2 -> ev ∈ trace_since s0 s3.
Proof.
  intros P1 P2 P3 Hin.
  rewrite (trace_since_trans s0 s2 s3), (trace_since_trans s0 s1 s2);
    try done; [| by etrans].
  rewrite !elem_of_app. tauto.
Qed.

(** X23: a name that only the manifest protects is kept out of the
    report and not out of the repair.  Let the manifest list [p] in
    [dependencyChecker.protectedPackages], let the checker not hold
    [p] in its protected set nor veto it for its spelling, and let
    depcheck flag [p].  Then [getProjectStats], which reads the
    manifest first, never lists [p] as unused; and the action of
    [fix], which does not read it, passes [p] to an [npm uninstall]
    that succeeds. *)
Theorem fix_does_not_see_declared_protection (t : @Terminal W)
    (options : FixFlags) text data result w p :
  readPackageJson (world (checker t)) = Ok text ->
  JSON_parse text = Some data ->
  p ∈ declared_protected data ->
  ~ vetoed (protectedPackages (checker t)) p ->
  depcheck (world (checker t)) = (Resolved result, w) ->
  p ∈ or_nil (dc_dependencies result) ->
  uninstall_succeeds execSync ->
  opt_yes options = true ->
  requested (fix_options options) Unused = true ->
  (forall stats,
      (getProjectStats execSync depcheck JSON_parse lockFile readPackageJson
         (checker t)).1 = Ok stats ->
      p ∉ unused_dependencies stats)
  /\ exists batch out,
       Exec (NpmUninstall batch) (Exited out)
         ∈ trace_since (checker t) (checker (cli_fix execSync depcheck options t).2)
       /\ p ∈ batch.
Proof.
  intros Hread Hparse Hdecl Hnv Hdep Hflag Hall Hyes Hreq. split.
  - intros stats Hok.
    destruct (getProjectStats_inv execSync depcheck JSON_parse lockFile
                readPackageJson (checker t) stats Hok)
      as (info & st1 & res1 & w1 & Hinfo & _ & _ & -> & _).
    destruct (getPackageInfo_world JSON_parse readPackageJson (checker t) st1
                info Hinfo) as (_ & _ & Hprot).
    apply not_removable. left. rewrite (Hprot text data Hread Hparse).
    apply elem_of_union_l, elem_of_list_to_set, Hdecl.
  - assert (any_category (fix_options options) = true) as Hany.
    { unfold requested in Hreq. unfold any_category.
      destruct (opt_unused _), (opt_outdated _), (opt_vulnerabilities _),
        (opt_duplicates _), (opt_all _); done. }
    destruct (fixIssues execSync depcheck (fix_options options) (checker t))
      as [[results | e] st'] eqn:Hfixed.
    2: { rewrite fixIssues_stages in Hfixed. cbv zeta in Hfixed. discriminate. }
    rewrite (cli_fix_confirmed execSync depcheck options t results st' Hany Hyes Hfixed).
    cbn [snd checker]. apply (f_equal snd) in Hfixed. cbn [snd] in Hfixed.
    rewrite <- Hfixed. clear Hfixed st' results.
    set (st := checker t) in *.
    set (st0 := emit (Log (MsgFixing Unused)) st).
    set (run := removeUnused execSync depcheck (opt_force (fix_options options)) st0).
    assert (run.1 = Ok tt) as Hrun by (by eapply removeUnused_succeeds).
    pose proof (removeUnused_all_removed
                  (opt_force (fix_options options)) st0 result w Hdep) as Hsplit.
    cbv zeta in Hsplit. fold run in Hsplit. specialize (Hsplit Hrun).
    assert (p ∈ concat (succeeded (trace_since st0 run.2))) as Hp.
    { rewrite Hsplit. apply elem_of_app. left.
      apply list_elem_of_In, filter_In. split; [by apply list_elem_of_In |].
      by apply safe_iff. }
    destruct (succeeded_elem _ _ Hp) as (batch & out & Hev & Hin).
    exists batch, out. split; [| exact Hin].
    rewrite fixIssues_stages. cbv zeta. cbn [snd]. rewrite Hreq.
    set (a1 := stage true Unused _ (@nil FixResult, st)).
    assert (a1.2 = run.2) as Ha1 by reflexivity.
    eapply (trace_since_within st st0 run.2).
    + by apply prefix_app_r.
    + apply removeUnused_extends.
    + rewrite <- Ha1.
      etrans; [| apply stage_extends; intros; apply exec_then_log_extends].
      etrans; [| apply stage_extends; intros; apply exec_then_log_extends].
      apply stage_extends. intros. apply exec_then_log_extends.
    + exact Hev.
Qed.

End ProtectionFacts.

Lemma fix_does_not_see_declared_protection_witness :
  let t := Project.fresh in
  let options := Project.fixUnused in
  Manifest.read (world (checker t)) = Ok Manifest.text
  /\ Manifest.JSON_parse Manifest.text = Some Manifest.data
  /\ "left-pad" ∈ declared_protected Manifest.data
  /\ ~ vetoed (protectedPackages (checker t)) "left-pad"
  /\ Project.depcheck (world (checker t)) = (Resolved Manifest.flagged, tt)
  /\ "left-pad" ∈ or_nil (dc_dependencies Manifest.flagged)
  /\ uninstall_succeeds Project.execSync
  /\ opt_yes options = true
  /\ requested (fix_options options) Unused = true
  /\ (forall stats,
         (getProjectStats Project.execSync Project.depcheck Manifest.JSON_parse
            Project.lockFile Manifest.read (checker t)).1 = Ok stats ->
         "left-pad" ∉ unused_dependencies stats)
  /\ exists batch out,
       Exec (NpmUninstall batch) (Exited out)
         ∈ trace_since (checker t)
             (checker (cli_fix Project.execSync Project.depcheck options t).2)
       /\ "left-pad" ∈ batch.
Proof.
  intros t options.
  assert (Manifest.JSON_parse Manifest.text = Some Manifest.data) as Hparse
    by (vm_compute; reflexivity).
  assert ("left-pad" ∈ declared_protected Manifest.data) as Hdecl
    by (cbn; apply list_elem_of_here).
  assert (~ vetoed (protectedPackages (checker t)) "left-pad") as Hnv.
  { apply safe_iff. vm_compute. reflexivity. }
  assert ("left-pad" ∈ or_nil (dc_dependencies Manifest.flagged)) as Hflag
    by (cbn; apply list_elem_of_here).
  assert (uninstall_succeeds Project.execSync) as Hall
    by (intros batch w; by exists "").
  split; [reflexivity |]. split; [exact Hparse |]. split; [exact Hdecl |].
  split; [exact Hnv |]. split; [reflexivity |]. split; [exact Hflag |].
  split; [exact Hall |]. split; [reflexivity |]. split; [reflexivity |].
  exact (fix_does_not_see_declared_protection Project.execSync Project.depcheck
           Manifest.JSON_parse Project.lockFile Manifest.read t options
           Manifest.text Manifest.data Manifest.flagged tt "left-pad"
           eq_refl Hparse Hdecl Hnv eq_refl Hflag Hall eq_refl eq_refl).
Defined.

(** ** The commands that only report *)

Lemma issues_suggestions_length (stats : Score.Stats) :
  length (Score.hs_issues (Score.calculateHealthScore stats))
  = length (Score.hs_suggestions (Score.calculateHealthScore stats)).
Proof.
  unfold Score.calculateHealthScore.
  cbn [Score.hs_issues Score.hs_suggestions].
  unfold Score.deductMissing, Score.deductDuplicates,
    Score.deductVulnerabilities, Score.deductOutdated, Score.deductUnused.
  rewrite !deduct_issues, !deduct_suggestions. cbn [Score.issues Score.suggestions app].
  unfold issue_line. rewrite !length_app.
  destruct (Score.unused_total stats), (Score.outdated_total stats),
    (Score.vulnerabilities_total stats), (Score.duplicates_total stats),
    (Score.missing_total stats); reflexivity.
Qed.

(** X24: when one category alone has items, the score is in the red
    band exactly when that category is the vulnerabilities and there
    are seven or more: no other category alone costs more than 30
    points. *)
Theorem red_from_one_category (stats : Score.Stats) :
  categories_with_issues stats = 1%nat ->
  band (Score.hs_score (Score.calculateHealthScore stats)) = Red
  <-> (7 <= Score.vulnerabilities_total stats)%nat.
Proof.
  rewrite score_before_clamp.
  unfold band, categories_with_issues, totals_in_order, Score.sum_capped,
    Score.capped, Score.count.
  destruct stats as [u m o v d]. cbn [Score.unused_total Score.missing_total
    Score.outdated_total Score.vulnerabilities_total Score.duplicates_total].
  destruct u, o, v, d, m; cbn [List.filter Nat.ltb Nat.leb length];
    intros Hone; try discriminate Hone; clear Hone;
    (destruct (_ <? 70) eqn:E; [apply Z.ltb_lt in E | apply Z.ltb_ge in E]);
    try destruct (_ <? 85); split; intros H; try discriminate H;
    try reflexivity; first [lia | exfalso; lia].
Qed.

Lemma red_from_one_category_witness :
  let stats := {| Score.unused_total := 0; Score.missing_total := 0;
                  Score.outdated_total := 0; Score.vulnerabilities_total := 7;
                  Score.duplicates_total := 0 |} in
  categories_with_issues stats = 1%nat
  /\ (band (Score.hs_score (Score.calculateHealthScore stats)) = Red
      <-> (7 <= Score.vulnerabilities_total stats)%nat).
Proof.
  intros stats. split; [reflexivity |].
  exact (red_from_one_category stats eq_refl).
Defined.

Section QueryFacts.

Context {W : Type}.
Variable execSync : Command -> W -> ExecOutcome * W.
Variable depcheck : W -> DepcheckOutcome * W.
Variable JSON_parse : string -> option json.
Variable lockFile : W -> LockSource.
Variable readPackageJson : W -> Res string.

Lemma getPackageInfo_frame (st : @State W) :
  let st1 := (getPackageInfo JSON_parse readPackageJson st).2 in
  events st1 = events st /\ world st1 = world st
  /\ protectedPackages st ⊆ protectedPackages st1.
Proof.
  cbv zeta.
  destruct (readPackageJson (world st)) as [text | e] eqn:Hread;
    [| by rewrite (getPackageInfo_unreadable JSON_parse readPackageJson st e Hread)].
  destruct (JSON_parse text) as [data |] eqn:Hparse;
    [| by rewrite (getPackageInfo_unparsable JSON_parse readPackageJson st text
                     Hread Hparse)].
  destruct (Registry.is_null data) eqn:Hnull.
  { destruct data; try discriminate Hnull.
    by rewrite (getPackageInfo_null JSON_parse readPackageJson st text Hread Hparse). }
  destruct (is_array (user_protected data)) eqn:Harr;
    [| by rewrite (getPackageInfo_not_array JSON_parse readPackageJson st text data
                     Hread Hparse Hnull Harr)].
  destruct (user_protected data) as [| | | | items |] eqn:Huser;
    try discriminate Harr.
  destruct (getPackageInfo_ok JSON_parse readPackageJson st text data items
              Hread Hparse Hnull Huser) as (info & Hrun & _).
  rewrite Hrun. cbn [snd events world protectedPackages].
  split; [reflexivity |]. split; [reflexivity |]. apply union_subseteq_r.
Qed.

Lemma await_run {A} (m : @M W A) (t : @Terminal W) :
  await m t = ((m (checker t)).1, {| checker := (m (checker t)).2; screen := screen t |}).
Proof. unfold await. by destruct (m (checker t)). Qed.

Lemma events_after c (st : @State W) :
  events (after execSync c st) = events st ++ [Exec c (execSync c (world st)).1].
Proof. unfold after. by destruct (execSync c (world st)). Qed.

(** The state [getProjectStats] leaves once the scanner has answered:
    what follows the two queries writes nothing. *)
Lemma getProjectStats_state (st st1 : @State W) info unused st2 :
  getPackageInfo JSON_parse readPackageJson st = (Ok info, st1) ->
  checkUnused depcheck st1 = (Ok unused, st2) ->
  (getProjectStats execSync depcheck JSON_parse lockFile readPackageJson st).2
  = after execSync NpmAuditJson (after execSync NpmOutdatedJson st2).
Proof.
  intros Hinfo Hcu.
  unfold getProjectStats. rewrite bind_run, Hinfo.
  rewrite bind_run, Hcu.
  rewrite bind_run, checkOutdated_result.
  rewrite bind_run, checkVulnerabilities_result.
  rewrite bind_run.
  destruct (findDuplicates_run lockFile
              (after execSync NpmAuditJson (after execSync NpmOutdatedJson st2)))
    as (r & Hfd & _).
  rewrite Hfd. destruct r as [duplicatesInfo | e]; [| reflexivity];
    (rewrite bind_run; unfold lift at 1;
     destruct (Object_keys (pi_engines info)); [| reflexivity];
     rewrite bind_run; unfold lift at 1;
     destruct (Object_keys (un_missing unused)); [| reflexivity];
     rewrite bind_run; unfold lift at 1;
     destruct (Object_keys _); [| reflexivity];
     rewrite bind_run; unfold lift at 1;
     destruct (Object_keys _); reflexivity).
Qed.

(** X25: [getProjectStats] changes nothing in the project.  When
    the manifest is read and depcheck resolves, the commands it runs
    are [npm outdated --json] and then [npm audit --json], and no
    other; when the manifest cannot be read or depcheck rejects, it
    runs no command at all.  It runs both whenever it returns, and
    the protected set only grows. *)
Theorem report_runs_only_queries (st : @State W) :
  let run :=
    getProjectStats execSync depcheck JSON_parse lockFile readPackageJson st in
  let ran := map fst (commands (trace_since st run.2)) in
  ran = (if is_ok (getPackageInfo JSON_parse readPackageJson st).1
            && is_resolved (depcheck (world st)).1
         then [NpmOutdatedJson; NpmAuditJson]
         else [])
  /\ (is_ok run.1 = true -> ran = [NpmOutdatedJson; NpmAuditJson])
  /\ protectedPackages st ⊆ protectedPackages run.2.
Proof.
  cbv zeta.
  destruct (getPackageInfo_frame st) as (Hev1 & Hw1 & Hp1). cbv zeta in Hev1, Hw1, Hp1.
  destruct (getPackageInfo JSON_parse readPackageJson st) as [[info | e] st1] eqn:Hinfo;
    cbn [fst snd is_ok andb] in *.
  2: { rewrite (getProjectStats_no_manifest execSync depcheck JSON_parse lockFile
                  readPackageJson st st1 e Hinfo). cbn [fst snd].
       rewrite (trace_since_add []) by (by rewrite app_nil_r).
       split; [reflexivity |]. split; [discriminate | exact Hp1]. }
  rewrite <- Hw1.
  destruct (depcheck (world st1)) as [[result | e] w1] eqn:Hdep;
    cbn [fst is_resolved].
  - destruct (checkUnused_resolved depcheck st1 result w1 Hdep) as [logs Hcu].
    rewrite (getProjectStats_state st st1 info _ _ Hinfo Hcu).
    rewrite (trace_since_add
               (Depcheck (Resolved result) :: map Log logs
                ++ [Exec NpmOutdatedJson (execSync NpmOutdatedJson w1).1;
                    Exec NpmAuditJson
                      (execSync NpmAuditJson (execSync NpmOutdatedJson w1).2).1])).
    + rewrite !protected_after. cbn [protectedPackages add_events set_world].
      assert (commands
                (Depcheck (Resolved result) :: map Log logs
                 ++ [Exec NpmOutdatedJson (execSync NpmOutdatedJson w1).1;
                     Exec NpmAuditJson
                       (execSync NpmAuditJson (execSync NpmOutdatedJson w1).2).1])
              = [(NpmOutdatedJson, (execSync NpmOutdatedJson w1).1);
                 (NpmAuditJson,
                  (execSync NpmAuditJson (execSync NpmOutdatedJson w1).2).1)])
        as -> by (change (commands (?x :: ?l)) with (commands l);
                  by rewrite commands_app, commands_logs).
      split; [reflexivity |]. split; [reflexivity | exact Hp1].
    + rewrite !events_after, world_after. cbn [events world add_events set_world].
      rewrite Hev1, <- !app_assoc. reflexivity.
  - unfold getProjectStats. rewrite bind_run, Hinfo.
    rewrite bind_run, (checkUnused_rejected depcheck st1 e w1 Hdep).
    cbn [fst snd protectedPackages add_events set_world].
    rewrite (trace_since_add [Depcheck (Rejected e)])
      by (cbn [events add_events set_world]; by rewrite Hev1).
    split; [reflexivity |]. split; [discriminate | exact Hp1].
Qed.

(** X26: the action of [score] leaves the checker as
    [calculateHealthScore] leaves it.  When that throws, the action
    throws the same error after its first line.  When it returns, the
    action writes the score in the colour of its band, then the
    issues under their header and the recommendations under theirs,
    a section being left out when it is empty; the two sections have
    the same number of bullets. *)
Theorem score_prints_the_report (t : @Terminal W) :
  let run :=
    calculateHealthScore execSync depcheck JSON_parse lockFile readPackageJson
      (checker t) in
  let shown := cli_score execSync depcheck JSON_parse lockFile readPackageJson t in
  checker shown.2 = run.2
  /\ match run.1 with
     | Ok (h, stats) =>
         shown.1 = Ok tt
         /\ screen shown.2
            = screen t
              ++ [CalculatingScore;
                  HealthScoreLine (band (Score.hs_score h)) (Score.hs_score h)]
              ++ titled IssuesHeader (Score.hs_issues h)
              ++ titled RecommendationsHeader (Score.hs_suggestions h)
         /\ length (Score.hs_issues h) = length (Score.hs_suggestions h)
     | Throw e =>
         shown.1 = Throw e /\ screen shown.2 = screen t ++ [CalculatingScore]
     end.
Proof.
  cbv zeta. unfold cli_score.
  rewrite bindC_run, print_run.
  rewrite bindC_run, await_run. cbn [checker add_lines].
  destruct (calculateHealthScore _ _ _ _ _ (checker t)) as [[[h stats] | e] st']
    eqn:Hrun; cbn [fst snd]; [| by cbn].
  rewrite bindC_run, print_run.
  rewrite bindC_run,
    (when_run _ (IssuesHeader :: map Bullet (Score.hs_issues h)))
    by (by rewrite bindC_run, print_run, forEach_print_run, add_lines_add).
  rewrite (when_run _ (RecommendationsHeader :: map Bullet (Score.hs_suggestions h)))
    by (by rewrite bindC_run, print_run, forEach_print_run, add_lines_add).
  rewrite !add_lines_add. unfold add_lines, titled. cbn [fst snd checker screen].
  split; [reflexivity |]. split; [reflexivity |]. split.
  - by rewrite <- !app_assoc.
  - unfold calculateHealthScore in Hrun. rewrite bind_run in Hrun.
    destruct (getProjectStats _ _ _ _ _ (checker t)) as [[stats' | e] st'']; 
      [| discriminate Hrun].
    unfold ret in Hrun. injection Hrun as <- _ _. apply issues_suggestions_length.
Qed.

(** X27: the action of [unused] counts the removable names only.
    When depcheck resolves, it writes that nothing is unused exactly
    when every flagged name is protected or vetoed for its spelling,
    and otherwise the number of the removable ones; when depcheck
    rejects, it throws after its first line.  It runs no command and
    leaves the protected set as it was. *)
Theorem unused_counts_removable (t : @Terminal W) :
  let shown := cli_unused depcheck t in
  match (depcheck (world (checker t))).1 with
  | Resolved result =>
      let removable :=
        List.filter (safe (protectedPackages (checker t)))
          (or_nil (dc_dependencies result))
        ++ List.filter (safe (protectedPackages (checker t)))
             (or_nil (dc_devDependencies result)) in
      shown.1 = Ok tt
      /\ screen shown.2
         = screen t
           ++ CheckingUnused
              :: match removable with
                 | [] => [NoUnusedFound]
                 | _ :: _ => [FoundUnused (length removable); RunFixHint]
                 end
  | Rejected e =>
      shown.1 = Throw (Error ("Error checking unused dependencies: " +:+ message e))
      /\ screen shown.2 = screen t ++ [CheckingUnused]
  end
  /\ commands (trace_since (checker t) (checker shown.2)) = []
  /\ protectedPackages (checker shown.2) = protectedPackages (checker t).
Proof.
  cbv zeta. unfold cli_unused.
  rewrite bindC_run, print_run.
  rewrite bindC_run, await_run. cbn [checker add_lines screen].
  destruct (depcheck (world (checker t))) as [[result | e] w] eqn:Hdep; cbn [fst].
  - destruct (checkUnused_resolved depcheck (checker t) result w Hdep) as [logs Hcu].
    rewrite Hcu. cbn [fst snd un_dependencies un_devDependencies].
    rewrite <- length_app.
    set (removable := _ ++ _).
    assert (commands (trace_since (checker t)
              (add_events (Depcheck (Resolved result) :: map Log logs)
                 (set_world w (checker t)))) = []) as Hcmd.
    { rewrite (trace_since_add (Depcheck (Resolved result) :: map Log logs))
        by reflexivity.
      change (commands (?x :: ?l)) with (commands l). apply commands_logs. }
    destruct removable as [| p l]; cbn [length Nat.eqb].
    + rewrite print_run. cbn [fst snd checker screen add_lines].
      split; [split; [reflexivity | by rewrite <- app_assoc] |].
      split; [exact Hcmd | reflexivity].
    + rewrite bindC_run, !print_run. cbn [fst snd checker screen add_lines].
      split; [split; [reflexivity | by rewrite <- !app_assoc] |].
      split; [exact Hcmd | reflexivity].
  - rewrite (checkUnused_rejected depcheck (checker t) e w Hdep).
    cbn [fst snd checker screen].
    split; [split; reflexivity |]. split; [| reflexivity].
    by rewrite (trace_since_add [Depcheck (Rejected e)]) by reflexivity.
Qed.

End QueryFacts.

(** ** Every requested repair is attempted *)



Section IndependenceFacts.

Context {W : Type}.
Variable execSync : Command -> W -> ExecOutcome * W.
Variable depcheck : W -> DepcheckOutcome * W.




End IndependenceFacts.

(** ** The protected set of a repair *)

(** C3: the protected set is the built-in names together with the
    names the manifest declares, and [removeUnused] does not hold to
    it.  The manifest lists [left-pad] under
    [dependencyChecker.protectedPackages]; depcheck flags [left-pad]
    and [rimraf].  On the checker as the constructor leaves it, which
    is the one the actions of [fix] and [unused] use, [checkUnused]
    returns [left-pad] among the removable dependencies and not among
    the protected ones, and [removeUnused] passes it to
    [npm uninstall], with [force] and without; so does the action of
    [fix --unused --yes].  Once [getPackageInfo] has run, as it does
    at the start of [getProjectStats], the same call keeps [left-pad]
    out of the removable list and reports it as protected. *)
Theorem declared_protection_not_consulted :
  let st := Scenario.start in
  let loaded := (getPackageInfo Manifest.JSON_parse Manifest.read st).2 in
  Manifest.read (world st) = Ok Manifest.text
  /\ Manifest.JSON_parse Manifest.text = Some Manifest.data
  /\ declared_protected Manifest.data = ["left-pad"]
  /\ Project.depcheck (world st) = (Resolved Manifest.flagged, tt)
  /\ dc_dependencies Manifest.flagged = Some ["left-pad"; "rimraf"]
  /\ protectedPackages st = builtinProtected
  /\ (exists report,
        (checkUnused Project.depcheck st).1 = Ok report
        /\ un_dependencies report = ["left-pad"; "rimraf"]
        /\ protected_dependencies report = [])
  /\ (forall force,
        commands
          (trace_since st
             (removeUnused Project.execSync Project.depcheck force st).2)
        = [(NpmUninstall ["left-pad"; "rimraf"], Exited "")])
  /\ commands
       (trace_since (checker Project.fresh)
          (checker
             (cli_fix Project.execSync Project.depcheck Project.fixUnused
                Project.fresh).2))
     = [(NpmUninstall ["left-pad"; "rimraf"], Exited "")]
  /\ (exists report,
        (checkUnused Project.depcheck loaded).1 = Ok report
        /\ un_dependencies report = ["rimraf"]
        /\ protected_dependencies report = ["left-pad"]).
Proof.
  cbv zeta.
  split; [reflexivity |]. split; [vm_compute; reflexivity |].
  split; [reflexivity |]. split; [reflexivity |]. split; [reflexivity |].
  split; [reflexivity |].
  split; [eexists; split; [vm_compute; reflexivity | split; reflexivity] |].
  split; [intros []; vm_compute; reflexivity |].
  split; [vm_compute; reflexivity |].
  eexists. split; [vm_compute; reflexivity | split; reflexivity].
Qed.

